(** * A write-ahead journal over a VSFS disk image

    Shallow embedding of [termProject/journal.c] and proofs about its
    journal scan, committed-view overlay, [create] and [install] commands.

    Modelling conventions.
    - The image file is an unbounded array of bytes, [disk := Z -> byte],
      indexed by byte offset.  Positioned reads and writes always transfer
      the requested number of bytes; the [die] exits of [pread_exact] and
      [pwrite_exact] (short transfers) lie outside the model.
    - The host is little-endian with 32-bit [unsigned] and 64-bit [size_t]
      and [off_t], as the on-disk layout of the program assumes.  Arithmetic
      performed in [uint32_t] is wrapped explicitly with [u32].
    - In-memory byte arrays ([uint8_t buf[4096]], struct views over them)
      are [list byte]; struct fields are read and written at their byte
      offsets.
    - [exit(1)] paths return [Exit e]; loops that C does not bound are run
      with fuel and return [OutOfFuel] when it is exhausted. *)

From Stdlib Require Import ZArith List Lia Bool.
From coqutil Require Import Byte Word.LittleEndianList.
From stdpp Require Import base tactics option list list_numbers.

Local Open Scope Z_scope.

#[global] Instance byte_inhabited : Inhabited byte := populate Byte.x00.
#[global] Instance byte_eq_dec : EqDecision byte := fun x y =>
  match Z.eq_dec (byte.unsigned x) (byte.unsigned y) with
  | left H => left (byte.unsigned_inj x y H)
  | right H => right (fun E => H (f_equal byte.unsigned E))
  end.

(** ** Layout constants (lines 11-23, 65-67 of journal.c) *)

Definition BLOCK_SIZE : Z := 4096.
Definition INODE_SIZE : Z := 128.
Definition NAME_LEN : Z := 28.
Definition JOURNAL_BLOCKS : Z := 16.

Definition SB_BLOCK_NO : Z := 0.
Definition JOURNAL_START_BLK : Z := 1.
Definition INODE_BMAP_BLK : Z := JOURNAL_START_BLK + JOURNAL_BLOCKS.
Definition DATA_BMAP_BLK : Z := INODE_BMAP_BLK + 1.
Definition INODE_TABLE_BLK : Z := DATA_BMAP_BLK + 1.
Definition INODE_TABLE_BLKS : Z := 2.
Definition DATA_START_BLK : Z := INODE_TABLE_BLK + INODE_TABLE_BLKS.

Definition JOURNAL_MAGIC : Z := 0x4A524E4C.
Definition REC_DATA : Z := 1.
Definition REC_COMMIT : Z := 2.

(** [sizeof] of the packed structs, as the [_Static_assert]s fix them. *)
Definition SIZEOF_JOURNAL_HEADER : Z := 8.
Definition SIZEOF_REC_HEADER : Z := 4.
Definition SIZEOF_DIRENT : Z := 32.
Definition SIZEOF_U32 : Z := 4.

(** Wrap-around of [uint32_t] arithmetic. *)
Definition u32 (z : Z) : Z := z mod 2 ^ 32.

(** ** Outcomes of a command *)

Inductive error : Set :=
  | MissingName | NameTooLong
  | RootNotDir | RootNoBlock
  | NoFreeInode | InodeOutOfRange | CorruptBitmap
  | DirFull | FileExists
  | JournalFull | JournalMissing | TxnTooLarge.

Inductive result (A : Type) : Type :=
  | Ok (a : A)
  | Exit (e : error)
  | OutOfFuel.
Arguments Ok {A} a.
Arguments Exit {A} e.
Arguments OutOfFuel {A}.

#[global] Instance result_bind : MBind result := fun A B f m =>
  match m with
  | Ok a => f a
  | Exit e => Exit e
  | OutOfFuel => OutOfFuel
  end.

(** ** Block I/O (lines 91-111) *)

Definition disk : Type := Z -> byte.

Fixpoint pread_from (d : disk) (n : nat) (off : Z) : list byte :=
  match n with
  | O => []
  | S n' => d off :: pread_from d n' (off + 1)
  end.

Definition pread (d : disk) (n : Z) (off : Z) : list byte :=
  pread_from d (Z.to_nat n) off.

Definition pwrite (d : disk) (src : list byte) (off : Z) : disk :=
  let n := Z.of_nat (length src) in
  fun x =>
    if (off <=? x) && (x <? off + n)
    then src !!! Z.to_nat (x - off)
    else d x.

Definition read_block (d : disk) (blk : Z) : list byte :=
  pread d BLOCK_SIZE (blk * BLOCK_SIZE).

Definition write_block (d : disk) (blk : Z) (buf4096 : list byte) : disk :=
  pwrite d buf4096 (blk * BLOCK_SIZE).

(** ** Byte-array views *)

Definition get_u16 (buf : list byte) (off : Z) : Z :=
  le_combine (take 2 (drop (Z.to_nat off) buf)).

Definition get_u32 (buf : list byte) (off : Z) : Z :=
  le_combine (take 4 (drop (Z.to_nat off) buf)).

(** [memcpy (buf + off, src, length src)] inside the array. *)
Definition set_bytes (buf : list byte) (off : Z) (src : list byte) : list byte :=
  take (Z.to_nat off) buf ++ src ++ drop (Z.to_nat off + length src) buf.

Definition zero_bytes (n : Z) : list byte := replicate (Z.to_nat n) Byte.x00.

(** ** Bitmaps (lines 120-128) *)

Definition bitmap_test (bm : list byte) (i : Z) : Z :=
  Z.land (Z.shiftr (byte.unsigned (bm !!! Z.to_nat (i / 8))) (i mod 8)) 1.

Definition bitmap_set (bm : list byte) (i : Z) : list byte :=
  <[Z.to_nat (i / 8) :=
      byte.of_Z (Z.lor (byte.unsigned (bm !!! Z.to_nat (i / 8)))
                       (byte.wrap (Z.shiftl 1 (i mod 8))))]> bm.

(** ** Journal store (lines 130-216) *)

Record journal_header : Set := mk_jh { magic : Z; nbytes_used : Z }.

Record rec_header : Set := mk_rh { rh_type : Z; rh_size : Z }.

Definition encode_journal_header (jh : journal_header) : list byte :=
  le_split 4 (magic jh) ++ le_split 4 (nbytes_used jh).

Definition decode_journal_header (b : list byte) : journal_header :=
  {| magic := get_u32 b 0; nbytes_used := get_u32 b 4 |}.

Definition encode_rec_header (rh : rec_header) : list byte :=
  le_split 2 (rh_type rh) ++ le_split 2 (rh_size rh).

Definition decode_rec_header (b : list byte) : rec_header :=
  {| rh_type := get_u16 b 0; rh_size := get_u16 b 2 |}.

Definition journal_base_off : Z := JOURNAL_START_BLK * BLOCK_SIZE.

Definition journal_capacity_bytes : Z := u32 (JOURNAL_BLOCKS * BLOCK_SIZE).

Definition journal_clear_region (d : disk) : disk :=
  foldl (fun d i => write_block d (JOURNAL_START_BLK + i) (zero_bytes BLOCK_SIZE))
        d (seqZ 0 JOURNAL_BLOCKS).

Definition journal_read_header (d : disk) : journal_header :=
  decode_journal_header (pread d SIZEOF_JOURNAL_HEADER journal_base_off).

Definition journal_write_header (d : disk) (jh : journal_header) : disk :=
  pwrite d (encode_journal_header jh) journal_base_off.

(** The validity test shared by [journal_init_if_needed] and
    [journal_fail_if_missing], negated. *)
Definition journal_header_ok (jh : journal_header) : bool :=
  negb ((negb (magic jh =? JOURNAL_MAGIC))
        || (nbytes_used jh <? SIZEOF_JOURNAL_HEADER)
        || (nbytes_used jh >? journal_capacity_bytes)).

Definition fresh_header : journal_header :=
  {| magic := JOURNAL_MAGIC; nbytes_used := u32 SIZEOF_JOURNAL_HEADER |}.

Definition journal_init_if_needed (d : disk) : disk * journal_header :=
  let jh := journal_read_header d in
  if journal_header_ok jh then (d, jh)
  else (journal_write_header (journal_clear_region d) fresh_header, fresh_header).

Definition journal_fail_if_missing (d : disk) : result journal_header :=
  let jh := journal_read_header d in
  if journal_header_ok jh then Ok jh else Exit JournalMissing.

Definition journal_append_bytes (d : disk) (jh : journal_header) (src : list byte)
  : result (disk * journal_header) :=
  let n := Z.of_nat (length src) in
  if u32 (nbytes_used jh + n) >? journal_capacity_bytes then Exit JournalFull
  else
    let d1 := pwrite d src (journal_base_off + nbytes_used jh) in
    let jh1 := {| magic := magic jh; nbytes_used := u32 (nbytes_used jh + n) |} in
    Ok (journal_write_header d1 jh1, jh1).

Definition DATA_REC_SIZE : Z := SIZEOF_REC_HEADER + SIZEOF_U32 + BLOCK_SIZE.

Definition journal_append_data (d : disk) (jh : journal_header) (blk : Z) (img : list byte)
  : result (disk * journal_header) :=
  let rh := {| rh_type := REC_DATA; rh_size := DATA_REC_SIZE |} in
  '(d1, jh1) ← journal_append_bytes d jh (encode_rec_header rh);
  '(d2, jh2) ← journal_append_bytes d1 jh1 (le_split 4 blk);
  journal_append_bytes d2 jh2 img.

Definition journal_append_commit (d : disk) (jh : journal_header)
  : result (disk * journal_header) :=
  let rh := {| rh_type := REC_COMMIT; rh_size := SIZEOF_REC_HEADER |} in
  journal_append_bytes d jh (encode_rec_header rh).

(** ** Logged images (lines 218-245) *)

Record logged_image : Type := mk_li { block_no : Z; image : list byte }.

(** The [for] loop of [logged_image_upsert]: overwrite the first entry whose
    block number matches; [None] when the loop falls through. *)
Fixpoint upsert_existing (arr : list logged_image) (bno : Z) (img : list byte)
  : option (list logged_image) :=
  match arr with
  | [] => None
  | e :: rest =>
      if block_no e =? bno
      then Some ({| block_no := block_no e; image := img |} :: rest)
      else cons e <$> upsert_existing rest bno img
  end.

(** [None] stands for the return value 0 (array left as it was), [Some arr']
    for 1 with the updated array; [*count] is the length of the list. *)
Definition logged_image_upsert (arr : list logged_image) (max : Z)
    (bno : Z) (img : list byte) : option (list logged_image) :=
  match upsert_existing arr bno img with
  | Some arr' => Some arr'
  | None =>
      if Z.of_nat (length arr) >=? max then None
      else Some (arr ++ [ {| block_no := bno; image := img |} ])
  end.

Fixpoint logged_image_find (arr : list logged_image) (bno : Z) : option (list byte) :=
  match arr with
  | [] => None
  | e :: rest => if block_no e =? bno then Some (image e) else logged_image_find rest bno
  end.

(** ** Scanning the record area

    Both scans are [while] loops over the record area.  One iteration is a
    step function on the loop's local variables; the loop iterates it until
    the step stops, aborts, or the fuel runs out. *)

Inductive step (S : Type) : Type :=
  | Next (s : S)      (* fall through to [pos += rh.size] and iterate *)
  | Stop              (* loop condition false, or [break] *)
  | Abort (e : error) (* [exit(1)] inside the loop *).
Arguments Next {S} s.
Arguments Stop {S}.
Arguments Abort {S} e.

Definition read_rec_header (d : disk) (pos : Z) : rec_header :=
  decode_rec_header (pread d SIZEOF_REC_HEADER (journal_base_off + pos)).

Definition read_rec_block_no (d : disk) (pos : Z) : Z :=
  le_combine (pread d SIZEOF_U32 (journal_base_off + pos + SIZEOF_REC_HEADER)).

Definition read_rec_image (d : disk) (pos : Z) : list byte :=
  pread d BLOCK_SIZE (journal_base_off + pos + SIZEOF_REC_HEADER + SIZEOF_U32).

(** ** Committed-view overlay (lines 248-298) *)

(** [sizeof(pending) / sizeof(pending[0])] for [pending[32]]. *)
Definition OVERLAY_PENDING_MAX : Z := 32.

(** The [for] loop of lines 284-289: upsert the pending entries in order and
    [break] out of this loop at the first upsert that returns 0. *)
Fixpoint upsert_pending (pending latest : list logged_image) (latest_max : Z)
  : list logged_image :=
  match pending with
  | [] => latest
  | p :: rest =>
      match logged_image_upsert latest latest_max (block_no p) (image p) with
      | Some latest' => upsert_pending rest latest' latest_max
      | None => latest
      end
  end.

Record collect_state : Type :=
  mk_cs { cs_pos : Z; cs_pending : list logged_image; cs_latest : list logged_image }.

Definition collect_step (d : disk) (used latest_max : Z) (st : collect_state)
  : step collect_state :=
  let pos := cs_pos st in
  if negb (pos + SIZEOF_REC_HEADER <=? used) then Stop
  else
    let rh := read_rec_header d pos in
    if rh_size rh <? SIZEOF_REC_HEADER then Stop
    else if u32 (pos + rh_size rh) >? used then Stop
    else if rh_type rh =? REC_DATA then
      if negb (rh_size rh =? u32 DATA_REC_SIZE) then Stop
      else if Z.of_nat (length (cs_pending st)) >=? OVERLAY_PENDING_MAX then Stop
      else
        let bno := read_rec_block_no d pos in
        let img := read_rec_image d pos in
        Next {| cs_pos := u32 (pos + rh_size rh);
                cs_pending := cs_pending st ++ [ {| block_no := bno; image := img |} ];
                cs_latest := cs_latest st |}
    else if rh_type rh =? REC_COMMIT then
      if negb (rh_size rh =? SIZEOF_REC_HEADER) then Stop
      else
        Next {| cs_pos := u32 (pos + rh_size rh);
                cs_pending := [];
                cs_latest := upsert_pending (cs_pending st) (cs_latest st) latest_max |}
    else Stop.

Fixpoint collect_loop (fuel : nat) (d : disk) (used latest_max : Z) (st : collect_state)
  : result (list logged_image) :=
  match fuel with
  | O => OutOfFuel
  | S fuel' =>
      match collect_step d used latest_max st with
      | Next st' => collect_loop fuel' d used latest_max st'
      | Stop => Ok (cs_latest st)
      | Abort e => Exit e
      end
  end.

Definition collect_init : collect_state :=
  {| cs_pos := u32 SIZEOF_JOURNAL_HEADER; cs_pending := []; cs_latest := [] |}.

Definition journal_collect_latest_committed (fuel : nat) (d : disk)
    (jh : journal_header) (latest_max : Z) : result (list logged_image) :=
  collect_loop fuel d (nbytes_used jh) latest_max collect_init.

(** ** install (lines 497-567) *)

Definition INSTALL_PENDING_MAX : Z := 64.

Record install_state : Type :=
  mk_is { is_disk : disk; is_pos : Z; is_pending : list logged_image; is_commits : Z }.

(** The [for] loop of lines 543-546. *)
Definition write_pending (d : disk) (pending : list logged_image) : disk :=
  foldl (fun d p => write_block d (block_no p) (image p)) d pending.

Definition install_step (used : Z) (st : install_state) : step install_state :=
  let d := is_disk st in
  let pos := is_pos st in
  if negb (pos + SIZEOF_REC_HEADER <=? used) then Stop
  else
    let rh := read_rec_header d pos in
    if rh_size rh <? SIZEOF_REC_HEADER then Stop
    else if u32 (pos + rh_size rh) >? used then Stop
    else if rh_type rh =? REC_DATA then
      if negb (rh_size rh =? u32 DATA_REC_SIZE) then Stop
      else if Z.of_nat (length (is_pending st)) >=? INSTALL_PENDING_MAX
      then Abort TxnTooLarge
      else
        let bno := read_rec_block_no d pos in
        let img := read_rec_image d pos in
        Next {| is_disk := d;
                is_pos := u32 (pos + rh_size rh);
                is_pending := is_pending st ++ [ {| block_no := bno; image := img |} ];
                is_commits := is_commits st |}
    else if rh_type rh =? REC_COMMIT then
      if negb (rh_size rh =? SIZEOF_REC_HEADER) then Stop
      else
        Next {| is_disk := write_pending d (is_pending st);
                is_pos := u32 (pos + rh_size rh);
                is_pending := [];
                is_commits := is_commits st + 1 |}
    else Stop.

Fixpoint install_loop (fuel : nat) (used : Z) (st : install_state)
  : result install_state :=
  match fuel with
  | O => OutOfFuel
  | S fuel' =>
      match install_step used st with
      | Next st' => install_loop fuel' used st'
      | Stop => Ok st
      | Abort e => Exit e
      end
  end.

Definition install_init (d : disk) : install_state :=
  {| is_disk := d; is_pos := u32 SIZEOF_JOURNAL_HEADER; is_pending := []; is_commits := 0 |}.

(** Iterations never outnumber the bytes of a validated header, so the
    header's own [nbytes_used] serves as fuel. *)
Definition scan_fuel (jh : journal_header) : nat := Z.to_nat (nbytes_used jh).

(** Returns the final image and the number printed by
    "Installed %d commited transactions from journal." *)
Definition cmd_install (d : disk) : result (disk * Z) :=
  jh ← journal_fail_if_missing d;
  st ← install_loop (scan_fuel jh) (nbytes_used jh) (install_init d);
  let d1 := journal_clear_region (is_disk st) in
  let d2 := journal_write_header d1 fresh_header in
  Ok (d2, is_commits st).

(** ** create (lines 301-494) *)

(** *** C strings.  A [char *] argument is the list of its bytes; the end of
    the list stands for the terminating NUL, and a NUL inside the list ends
    the string early, as it would in C. *)

Definition is_nul (c : byte) : bool := byte.unsigned c =? 0.

Fixpoint strlen (s : list byte) : Z :=
  match s with
  | [] => 0
  | c :: rest => if is_nul c then 0 else 1 + strlen rest
  end.

(** [strncmp (a, b, n) == 0]. *)
Fixpoint strncmp_eq (n : nat) (a b : list byte) : bool :=
  match n with
  | O => true
  | S n' =>
      let ca := hd Byte.x00 a in
      let cb := hd Byte.x00 b in
      if byte.unsigned ca =? byte.unsigned cb
      then (if is_nul ca then true else strncmp_eq n' (tl a) (tl b))
      else false
  end.

(** The [n] bytes that [strncpy (dst, src, n)] stores: the string, then NUL
    padding. *)
Fixpoint strncpy (n : nat) (src : list byte) : list byte :=
  match n with
  | O => []
  | S n' =>
      match src with
      | [] => replicate n Byte.x00
      | c :: rest => if is_nul c then replicate n Byte.x00 else c :: strncpy n' rest
      end
  end.

(** *** Views of a block as [struct inode[32]] and [struct dirent[128]] *)

Definition inode_off (slot : Z) : Z := slot * INODE_SIZE.

Definition inode_type (tbl : list byte) (slot : Z) : Z := get_u16 tbl (inode_off slot).
Definition inode_size (tbl : list byte) (slot : Z) : Z := get_u32 tbl (inode_off slot + 4).
Definition inode_direct0 (tbl : list byte) (slot : Z) : Z := get_u32 tbl (inode_off slot + 8).
Definition inode_mtime (tbl : list byte) (slot : Z) : Z := get_u32 tbl (inode_off slot + 44).

(** The 128 bytes of the [struct inode ni] built at lines 459-465. *)
Definition new_inode_bytes (now : Z) : list byte :=
  le_split 2 1 ++ le_split 2 1 ++ le_split 4 0
  ++ zero_bytes 32
  ++ le_split 4 (u32 now) ++ le_split 4 (u32 now)
  ++ zero_bytes (128 - (2 + 2 + 4 + 8 * 4 + 4 + 4)).

Definition dirent_off (i : Z) : Z := i * SIZEOF_DIRENT.

Definition dirent_inode (img : list byte) (i : Z) : Z := get_u32 img (dirent_off i).
Definition dirent_name (img : list byte) (i : Z) : list byte :=
  take (Z.to_nat NAME_LEN) (drop (Z.to_nat (dirent_off i + 4)) img).

(** The 32 bytes stored by lines 469-471. *)
Definition new_dirent_bytes (inum : Z) (name : list byte) : list byte :=
  le_split 4 inum ++ strncpy (Z.to_nat (NAME_LEN - 1)) name ++ [Byte.x00].

(** The allocation loop of lines 387-393; [u32 (-1)] when no bit is clear. *)
Fixpoint find_free_from (bm : list byte) (i : Z) (n : nat) : Z :=
  match n with
  | O => u32 (-1)
  | S n' => if bitmap_test bm i =? 0 then i else find_free_from bm (i + 1) n'
  end.

Definition find_free_inode (bm : list byte) : Z := find_free_from bm 1 63.

(** The duplicate-name loop of lines 432-440. *)
Definition name_exists (ents : list byte) (used_entries : Z) (name : list byte) : bool :=
  existsb (fun i => negb (dirent_inode ents i =? 0)
                    && strncmp_eq (Z.to_nat NAME_LEN) (dirent_name ents i) name)
          (seqZ 0 used_entries).

(** *** The logical image [create] works on: live blocks overlaid with the
    journal's committed images (lines 312-384). *)

Record view : Type := mk_view {
  v_disk : disk;
  v_jh : journal_header;
  v_inode_bm : list byte;
  v_itbl19 : list byte;
  v_itbl20 : list byte;
  v_root_dir_block_no : Z;
  v_root_dir_img : list byte
}.

Definition overlay_or (latest : list logged_image) (bno : Z) (live : list byte) : list byte :=
  match logged_image_find latest bno with
  | Some img => img
  | None => live
  end.

Definition LATEST_MAX : Z := 64.

Definition create_view (d : disk) : result view :=
  let '(d, jh) := journal_init_if_needed d in
  let inode_bm := read_block d INODE_BMAP_BLK in
  let itbl19 := read_block d (INODE_TABLE_BLK + 0) in
  let itbl20 := read_block d (INODE_TABLE_BLK + 1) in
  if negb (inode_type itbl19 0 =? 2) then Exit RootNotDir
  else
    let root_dir_block_no := inode_direct0 itbl19 0 in
    if root_dir_block_no =? 0 then Exit RootNoBlock
    else
      let root_dir_img := read_block d root_dir_block_no in
      if nbytes_used jh >? SIZEOF_JOURNAL_HEADER then
        latest ← journal_collect_latest_committed (scan_fuel jh) d jh LATEST_MAX;
        let inode_bm := overlay_or latest INODE_BMAP_BLK inode_bm in
        let itbl19 := overlay_or latest (INODE_TABLE_BLK + 0) itbl19 in
        let itbl20 := overlay_or latest (INODE_TABLE_BLK + 1) itbl20 in
        if negb (inode_type itbl19 0 =? 2) then Exit RootNotDir
        else
          let root_dir_block_no := inode_direct0 itbl19 0 in
          if root_dir_block_no =? 0 then Exit RootNoBlock
          else
            let root_dir_img := read_block d root_dir_block_no in
            let root_dir_img := overlay_or latest root_dir_block_no root_dir_img in
            Ok (mk_view d jh inode_bm itbl19 itbl20 root_dir_block_no root_dir_img)
      else
        Ok (mk_view d jh inode_bm itbl19 itbl20 root_dir_block_no root_dir_img).

(** *** Building and logging the transaction (lines 387-490) *)

Definition INODES_PER_BLOCK : Z := BLOCK_SIZE / INODE_SIZE.
Definition NENTS : Z := BLOCK_SIZE / SIZEOF_DIRENT.

Definition used_entries_of (itbl19 : list byte) : Z :=
  let used_entries := inode_size itbl19 0 / SIZEOF_DIRENT in
  if used_entries <? 2 then 2 else used_entries.

(** The in-memory mutation of lines 453-475, on the four block images. *)
Record images : Type := mk_images {
  im_inode_bm : list byte;
  im_itbl19 : list byte;
  im_itbl20 : list byte;
  im_root_dir_img : list byte
}.

Definition mutate_images (name : list byte) (now : Z) (v : view)
    (new_inum inode_block_index inode_slot used_entries : Z) : images :=
  let inode_bm := bitmap_set (v_inode_bm v) new_inum in
  let itbl19 :=
    if inode_block_index =? 0
    then set_bytes (v_itbl19 v) (inode_off inode_slot) (new_inode_bytes now)
    else v_itbl19 v in
  let itbl20 :=
    if inode_block_index =? 0
    then v_itbl20 v
    else set_bytes (v_itbl20 v) (inode_off inode_slot) (new_inode_bytes now) in
  let root_dir_img :=
    set_bytes (v_root_dir_img v) (dirent_off used_entries)
              (new_dirent_bytes new_inum name) in
  let itbl19 :=
    set_bytes itbl19 (inode_off 0 + 4)
              (le_split 4 (u32 (inode_size itbl19 0 + SIZEOF_DIRENT))) in
  let itbl19 := set_bytes itbl19 (inode_off 0 + 44) (le_split 4 (u32 now)) in
  mk_images inode_bm itbl19 itbl20 root_dir_img.

Definition create_txn (name : list byte) (now : Z) (v : view) : result disk :=
  let new_inum := find_free_inode (v_inode_bm v) in
  if new_inum =? u32 (-1) then Exit NoFreeInode
  else
    let inode_block_index := new_inum / INODES_PER_BLOCK in
    let inode_slot := new_inum mod INODES_PER_BLOCK in
    if inode_block_index >=? INODE_TABLE_BLKS then Exit InodeOutOfRange
    else
      let target_tbl := if inode_block_index =? 0 then v_itbl19 v else v_itbl20 v in
      if negb (inode_type target_tbl inode_slot =? 0) then Exit CorruptBitmap
      else
        let used_entries := used_entries_of (v_itbl19 v) in
        if used_entries >=? NENTS then Exit DirFull
        else if name_exists (v_root_dir_img v) used_entries name then Exit FileExists
        else
          let nmods := 3 + (if inode_block_index =? 1 then 1 else 0) in
          let txn_bytes := u32 (u32 (nmods * u32 DATA_REC_SIZE) + SIZEOF_REC_HEADER) in
          if u32 (nbytes_used (v_jh v) + txn_bytes) >? journal_capacity_bytes
          then Exit JournalFull
          else
            let im := mutate_images name now v new_inum inode_block_index
                                    inode_slot used_entries in
            '(d, jh) ← journal_append_data (v_disk v) (v_jh v)
                                            INODE_BMAP_BLK (im_inode_bm im);
            '(d, jh) ← journal_append_data d jh (INODE_TABLE_BLK + 0) (im_itbl19 im);
            '(d, jh) ← (if inode_block_index =? 1
                        then journal_append_data d jh (INODE_TABLE_BLK + 1) (im_itbl20 im)
                        else Ok (d, jh));
            '(d, jh) ← journal_append_data d jh (v_root_dir_block_no v)
                                            (im_root_dir_img im);
            '(d, jh) ← journal_append_commit d jh;
            Ok d.

(** [now] is the value returned by [time(NULL)]. *)
Definition cmd_create (name : list byte) (now : Z) (d : disk) : result disk :=
  if (match name with [] => true | c :: _ => is_nul c end) then Exit MissingName
  else if strlen name >=? NAME_LEN then Exit NameTooLong
  else
    v ← create_view d;
    create_txn name now v.

(** ** main (lines 570-599) *)

(** [strcmp (a, b) == 0]. *)
Fixpoint strcmp_eq (a b : list byte) : bool :=
  match a with
  | [] => is_nul (hd Byte.x00 b)
  | c :: rest =>
      if is_nul c then is_nul (hd Byte.x00 b)
      else (byte.unsigned c =? byte.unsigned (hd Byte.x00 b)) && strcmp_eq rest (tl b)
  end.

(** The string literals "create" and "install". *)
Definition str_create : list byte :=
  [Byte.x63; Byte.x72; Byte.x65; Byte.x61; Byte.x74; Byte.x65].
Definition str_install : list byte :=
  [Byte.x69; Byte.x6e; Byte.x73; Byte.x74; Byte.x61; Byte.x6c; Byte.x6c].

(** [argv] holds [argc] strings, the program name first.  The result is the
    value [main] returns with the image it leaves; the [exit(1)] paths of
    the two commands stay [Exit]. *)
Definition main (argv : list (list byte)) (now : Z) (d : disk) : result (Z * disk) :=
  match argv with
  | [] | [_] => Ok (1, d)
  | _ :: cmd :: args =>
      if strcmp_eq cmd str_create then
        match args with
        | [name] => d' ← cmd_create name now d; Ok (0, d')
        | _ => Ok (1, d)
        end
      else if strcmp_eq cmd str_install then
        r ← cmd_install d; Ok (0, fst r)
      else Ok (1, d)
  end.

(** ** The record area as a list of records

    The decoding scan of the specification (section 4.R): starting at
    [pos = 8], while [pos + 4 <= nbytes_used], read the header at [pos] and
    stop if [size < 4], if [pos + size > nbytes_used], if a DATA record has
    [size <> 4104], if a COMMIT record has [size <> 4], or if the type is
    neither; otherwise decode the record and advance by [size].  This scan
    works on mathematical integers and is stated independently of the two
    loops of the program, which are compared with it below. *)

Inductive record : Type :=
  | DATA (bno : Z) (img : list byte)
  | COMMIT.

Definition record_size (r : record) : Z :=
  match r with
  | DATA _ _ => 4104
  | COMMIT => 4
  end.

Definition record_at (d : disk) (used pos : Z) : option record :=
  if pos + 4 <=? used then
    let rh := read_rec_header d pos in
    if (rh_size rh <? 4) || (pos + rh_size rh >? used) then None
    else if rh_type rh =? 1 then
      if rh_size rh =? 4104
      then Some (DATA (read_rec_block_no d pos) (read_rec_image d pos))
      else None
    else if rh_type rh =? 2 then
      if rh_size rh =? 4 then Some COMMIT else None
    else None
  else None.

Fixpoint records_from (fuel : nat) (d : disk) (used pos : Z) : list record :=
  match fuel with
  | O => []
  | S fuel' =>
      match record_at d used pos with
      | Some r => r :: records_from fuel' d used (pos + record_size r)
      | None => []
      end
  end.

Definition journal_records (d : disk) (used : Z) : list record :=
  records_from (Z.to_nat used) d used 8.

(** The committed transactions of a record list, oldest first: each is the
    run of DATA records closed by a COMMIT.  The records after the last
    COMMIT belong to no transaction. *)
Fixpoint transactions_from (cur : list logged_image) (recs : list record)
  : list (list logged_image) :=
  match recs with
  | [] => []
  | DATA bno img :: rest =>
      transactions_from (cur ++ [ {| block_no := bno; image := img |} ]) rest
  | COMMIT :: rest => cur :: transactions_from [] rest
  end.

Definition committed_transactions (recs : list record) : list (list logged_image) :=
  transactions_from [] recs.

(** Within one transaction the last DATA record for a block wins. *)
Definition last_image (txn : list logged_image) (bno : Z) : option (list byte) :=
  image <$> last (filter (fun p => block_no p = bno) txn).

(** Across transactions the latest one that mentions the block wins. *)
Definition spec_overlay (txns : list (list logged_image)) (bno : Z) : option (list byte) :=
  last (omap (fun txn => last_image txn bno) txns).

(** Number of DATA records in a record list. *)
Fixpoint data_count (recs : list record) : Z :=
  match recs with
  | [] => 0
  | DATA _ _ :: rest => 1 + data_count rest
  | COMMIT :: rest => data_count rest
  end.

(** The two scans, replayed over a decoded record list. *)
Fixpoint overlay_of_records (recs : list record) (pending latest : list logged_image)
    (latest_max : Z) : list logged_image :=
  match recs with
  | [] => latest
  | DATA bno img :: rest =>
      overlay_of_records rest (pending ++ [ {| block_no := bno; image := img |} ])
                         latest latest_max
  | COMMIT :: rest =>
      overlay_of_records rest [] (upsert_pending pending latest latest_max) latest_max
  end.

(** What [install] leaves on the live blocks: the committed transactions
    written through in order. *)
Definition install_transactions (d : disk) (txns : list (list logged_image)) : disk :=
  foldl write_pending d txns.

(** The committed view of a block: the image the committed transactions
    give it, or else the block as it is on the image. *)
Definition committed_block (d : disk) (txns : list (list logged_image)) (bno : Z)
  : list byte :=
  match spec_overlay txns bno with
  | Some img => img
  | None => read_block d bno
  end.

(** Byte offsets of the journal region, blocks 1..16. *)
Definition in_journal (x : Z) : Prop :=
  journal_base_off ≤ x < journal_base_off + JOURNAL_BLOCKS * BLOCK_SIZE.

(** Block numbers outside the journal region. *)
Definition live_block (bno : Z) : Prop :=
  bno < JOURNAL_START_BLK ∨ JOURNAL_START_BLK + JOURNAL_BLOCKS ≤ bno.

(** Decoded DATA records carry 4096-byte images and 32-bit block numbers. *)
Definition record_wf (r : record) : Prop :=
  match r with
  | DATA bno img => 0 ≤ bno < 2 ^ 32 ∧ length img = Z.to_nat BLOCK_SIZE
  | COMMIT => True
  end.

(** The states an [install] scan goes through, first to last, and the number
    of iterations that take the DATA branch, appending to [pending]. *)
Fixpoint install_trace (fuel : nat) (used : Z) (st : install_state)
  : list install_state :=
  st :: match fuel with
        | O => []
        | S fuel' =>
            match install_step used st with
            | Next st' => install_trace fuel' used st'
            | _ => []
            end
        end.

Fixpoint install_data_records (fuel : nat) (used : Z) (st : install_state) : Z :=
  match fuel with
  | O => 0
  | S fuel' =>
      match install_step used st with
      | Next st' =>
          (if rh_type (read_rec_header (is_disk st) (is_pos st)) =? REC_DATA
           then 1 else 0)
          + install_data_records fuel' used st'
      | _ => 0
      end
  end.

(** The states an overlay scan goes through, first to last. *)
Fixpoint collect_trace (fuel : nat) (d : disk) (used latest_max : Z) (st : collect_state)
  : list collect_state :=
  st :: match fuel with
        | O => []
        | S fuel' =>
            match collect_step d used latest_max st with
            | Next st' => collect_trace fuel' d used latest_max st'
            | _ => []
            end
        end.

(** Whether the [for] loop of lines 284-289 takes its [break]: some upsert
    of a pending entry returns 0. *)
Fixpoint upsert_pending_fails (pending latest : list logged_image) (latest_max : Z)
  : bool :=
  match pending with
  | [] => false
  | p :: rest =>
      match logged_image_upsert latest latest_max (block_no p) (image p) with
      | Some latest' => upsert_pending_fails rest latest' latest_max
      | None => true
      end
  end.

(** ** Encoding of records, as [journal_append_data] and
    [journal_append_commit] lay them out (lines 199-216). *)

Definition encode_record (r : record) : list byte :=
  match r with
  | DATA bno img =>
      encode_rec_header {| rh_type := REC_DATA; rh_size := DATA_REC_SIZE |}
      ++ le_split 4 bno ++ img
  | COMMIT =>
      encode_rec_header {| rh_type := REC_COMMIT; rh_size := SIZEOF_REC_HEADER |}
  end.

Fixpoint encode_records (recs : list record) : list byte :=
  match recs with
  | [] => []
  | r :: rest => encode_record r ++ encode_records rest
  end.

Definition data_record (p : logged_image) : record := DATA (block_no p) (image p).

(** The records of one transaction: its DATA records, then the COMMIT. *)
Definition transaction_records (txn : list logged_image) : list record :=
  map data_record txn ++ [COMMIT].

(** [record_area_holds d used recs]: the record area of [d] below [used]
    holds exactly the records [recs].  Their encodings lie back to back
    from offset 8 of the journal, within [used], and what follows them is
    not the encoding of one more record that fits below [used]. *)
Definition record_area_holds (d : disk) (used : Z) (recs : list record) : Prop :=
  let len := Z.of_nat (length (encode_records recs)) in
  Forall record_wf recs
  ∧ 8 + len ≤ used
  ∧ pread d len (journal_base_off + 8) = encode_records recs
  ∧ ∀ r, record_wf r → 8 + len + record_size r ≤ used →
         pread d (record_size r) (journal_base_off + 8 + len) ≠ encode_record r.

(** [appended d jh d' jh' bytes]: image [d'] with header [jh'] is image [d]
    with header [jh] after [bytes] were appended to the record area. *)
Definition appended (d : disk) (jh : journal_header) (d' : disk) (jh' : journal_header)
    (bytes : list byte) : Prop :=
  magic jh' = magic jh
  ∧ nbytes_used jh' = nbytes_used jh + Z.of_nat (length bytes)
  ∧ journal_read_header d' = jh'
  ∧ pread d' (Z.of_nat (length bytes)) (journal_base_off + nbytes_used jh) = bytes
  ∧ ∀ x, ¬ (journal_base_off ≤ x < journal_base_off + 8) →
         ¬ (journal_base_off + nbytes_used jh ≤ x
            < journal_base_off + nbytes_used jh + Z.of_nat (length bytes)) →
         d' x = d x.

(** The DATA records [create] logs for a view, in the order of lines
    477-488. *)
Definition create_transaction (name : list byte) (now : Z) (v : view)
  : list logged_image :=
  let new_inum := find_free_inode (v_inode_bm v) in
  let inode_block_index := new_inum / INODES_PER_BLOCK in
  let inode_slot := new_inum mod INODES_PER_BLOCK in
  let used_entries := used_entries_of (v_itbl19 v) in
  let im := mutate_images name now v new_inum inode_block_index inode_slot
                          used_entries in
  [ {| block_no := INODE_BMAP_BLK; image := im_inode_bm im |};
    {| block_no := INODE_TABLE_BLK + 0; image := im_itbl19 im |} ]
  ++ (if inode_block_index =? 1
      then [ {| block_no := INODE_TABLE_BLK + 1; image := im_itbl20 im |} ]
      else [])
  ++ [ {| block_no := v_root_dir_block_no v; image := im_root_dir_img im |} ].

(** What [create_view] guarantees about the view it returns. *)
Definition view_wf (v : view) : Prop :=
  journal_header_ok (v_jh v) = true
  ∧ journal_read_header (v_disk v) = v_jh v
  ∧ length (v_inode_bm v) = Z.to_nat BLOCK_SIZE
  ∧ length (v_itbl19 v) = Z.to_nat BLOCK_SIZE
  ∧ length (v_itbl20 v) = Z.to_nat BLOCK_SIZE
  ∧ length (v_root_dir_img v) = Z.to_nat BLOCK_SIZE
  ∧ 0 < v_root_dir_block_no v < 2 ^ 32.

(** Appending a list of records with the program's two append functions. *)
Fixpoint journal_append_records (d : disk) (jh : journal_header) (recs : list record)
  : result (disk * journal_header) :=
  match recs with
  | [] => Ok (d, jh)
  | DATA bno img :: rest =>
      '(d1, jh1) ← journal_append_data d jh bno img;
      journal_append_records d1 jh1 rest
  | COMMIT :: rest =>
      '(d1, jh1) ← journal_append_commit d jh;
      journal_append_records d1 jh1 rest
  end.

(** Where the decoding scan stops. *)
Fixpoint scan_end (fuel : nat) (d : disk) (used pos : Z) : Z :=
  match fuel with
  | O => pos
  | S fuel' =>
      match record_at d used pos with
      | Some r => scan_end fuel' d used (pos + record_size r)
      | None => pos
      end
  end.

(** The whole used area decodes into records. *)
Definition journal_clean (d : disk) (used : Z) : Prop :=
  scan_end (Z.to_nat used) d used 8 = used.

(** The DATA records after the last COMMIT of a record list: what a scan
    holds in [pending] when it reaches the end. *)
Fixpoint pending_from (cur : list logged_image) (recs : list record)
  : list logged_image :=
  match recs with
  | [] => cur
  | DATA bno img :: rest =>
      pending_from (cur ++ [ {| block_no := bno; image := img |} ]) rest
  | COMMIT :: rest => pending_from [] rest
  end.

Definition uncommitted_tail (recs : list record) : list logged_image :=
  pending_from [] recs.

(** A journal as the two commands leave it: a valid header, a record area
    that decodes to its end, and no DATA record after the last COMMIT. *)
Definition journal_closed (d : disk) : Prop :=
  let jh := journal_read_header d in
  journal_header_ok jh = true
  ∧ journal_clean d (nbytes_used jh)
  ∧ uncommitted_tail (journal_records d (nbytes_used jh)) = [].

(** [live_block] as a test, and the test over a list of transactions. *)
Definition live_blockb (bno : Z) : bool :=
  (bno <? JOURNAL_START_BLK) || (JOURNAL_START_BLK + JOURNAL_BLOCKS <=? bno).

Definition all_live (txns : list (list logged_image)) : bool :=
  forallb (forallb (fun p => live_blockb (block_no p))) txns.

(** The name tests of lines 303-310, negated. *)
Definition name_ok (name : list byte) : bool :=
  negb (match name with [] => true | c :: _ => is_nul c end)
  && negb (strlen name >=? NAME_LEN).

(** ** A freshly formatted image

    Modelled from the spec: the image initializer is not part of the
    sources.  Section 8 of the specification describes the image it leaves:
    root inode present and a directory, inode bitmap with only bit 0 set,
    root directory block empty, empty journal region; section 6 gives the
    layout, with the root directory in the first data block.  [root_size]
    is the [size] field of the root inode. *)

Definition root_inode_bytes (root_size : Z) : list byte :=
  le_split 2 2 ++ le_split 2 2 ++ le_split 4 root_size
  ++ le_split 4 DATA_START_BLK ++ zero_bytes (28 + 4 + 4)
  ++ zero_bytes (128 - (2 + 2 + 4 + 8 * 4 + 4 + 4)).

Definition fresh_image (root_size : Z) : disk :=
  let d := fun _ => Byte.x00 in
  let d := write_block d INODE_BMAP_BLK (Byte.x01 :: zero_bytes (BLOCK_SIZE - 1)) in
  write_block d INODE_TABLE_BLK
              (root_inode_bytes root_size ++ zero_bytes (BLOCK_SIZE - INODE_SIZE)).

(** The file names [a], [b] and [c]. *)
Definition name_a : list byte := [Byte.x61].
Definition name_b : list byte := [Byte.x62].
Definition name_c : list byte := [Byte.x63].

(** Scenario S3 of the specification: [create a], [create b], [create c],
    then [install], at the given times. *)
Definition scenario_s3 (d : disk) (t1 t2 t3 : Z) : result (disk * Z) :=
  d1 ← cmd_create name_a t1 d;
  d2 ← cmd_create name_b t2 d1;
  d3 ← cmd_create name_c t3 d2;
  cmd_install d3.

(** The directory entry at byte offset [off] of the root directory block:
    its inode number and its name up to the first NUL. *)
Definition dirent_at (d : disk) (off : Z) : Z * list byte :=
  let blk := read_block d DATA_START_BLK in
  (get_u32 blk off,
   take (Z.to_nat (strlen (take 28 (drop (Z.to_nat (off + 4)) blk))))
        (drop (Z.to_nat (off + 4)) blk)).

(** ** A journal that fills the latest array

    The scan function takes the header and [latest_max] from its caller and
    does not look at the capacity.  The record area below holds four
    transactions: DATA records for blocks 100..131 and a COMMIT, DATA
    records for blocks 132..163 and a COMMIT (64 distinct blocks by now),
    one DATA record for block 200 and a COMMIT, one DATA record for block
    100 again and a COMMIT.  Every image is filled with one byte: 0xAA,
    0xBB, 0xCC and 0xDD for the four transactions. *)

(** Byte [q] of a run of DATA records for blocks [first_bno],
    [first_bno + 1], ... whose images are filled with [fill]. *)
Definition data_run_byte (first_bno : Z) (fill : byte) (q : Z) : byte :=
  let '(k, r) := Z.div_eucl q DATA_REC_SIZE in
  if r <? 4
  then encode_rec_header {| rh_type := REC_DATA; rh_size := DATA_REC_SIZE |}
       !!! Z.to_nat r
  else if r <? 8 then le_split 4 (first_bno + k) !!! Z.to_nat (r - 4)
  else fill.

Definition commit_byte (q : Z) : byte :=
  encode_rec_header {| rh_type := REC_COMMIT; rh_size := SIZEOF_REC_HEADER |}
  !!! Z.to_nat q.

Definition overflow_used : Z := 8 + 32 * 4104 + 4 + 32 * 4104 + 4 + 4104 + 4 + 4104 + 4.

Definition overflow_header : journal_header :=
  {| magic := JOURNAL_MAGIC; nbytes_used := overflow_used |}.

Definition overflow_disk : disk := fun x =>
  let p := x - journal_base_off - 8 in
  if x <? journal_base_off then Byte.x00
  else if p <? 0 then encode_journal_header overflow_header !!! Z.to_nat (p + 8)
  else if p <? 131328 then data_run_byte 100 Byte.xaa p
  else if p <? 131332 then commit_byte (p - 131328)
  else if p <? 262660 then data_run_byte 132 Byte.xbb (p - 131332)
  else if p <? 262664 then commit_byte (p - 262660)
  else if p <? 266768 then data_run_byte 200 Byte.xcc (p - 262664)
  else if p <? 266772 then commit_byte (p - 266768)
  else if p <? 270876 then data_run_byte 100 Byte.xdd (p - 266772)
  else if p <? 270880 then commit_byte (p - 270876)
  else Byte.x00.

(** ** A journal within capacity, scanned with a latest array of one entry

    Two transactions: DATA records for blocks 100 and 101 (images filled
    with 0xAA and 0xBB) and a COMMIT, then a DATA record for block 100
    again (0xDD) and a COMMIT. *)
Definition narrow_txn1 : list logged_image :=
  [ {| block_no := 100; image := replicate (Z.to_nat BLOCK_SIZE) Byte.xaa |};
    {| block_no := 101; image := replicate (Z.to_nat BLOCK_SIZE) Byte.xbb |} ].

Definition narrow_txn2 : list logged_image :=
  [ {| block_no := 100; image := replicate (Z.to_nat BLOCK_SIZE) Byte.xdd |} ].

Definition narrow_header : journal_header :=
  {| magic := JOURNAL_MAGIC; nbytes_used := 8 + (2 * 4104 + 4) + (4104 + 4) |}.

Definition narrow_disk : disk :=
  journal_write_header
    (pwrite (fun _ => Byte.x00)
            (encode_records (transaction_records narrow_txn1
                             ++ transaction_records narrow_txn2))
            (journal_base_off + 8))
    narrow_header.

(** [n] iterations of the overlay scan. *)
Fixpoint collect_run (n : nat) (d : disk) (used latest_max : Z) (st : collect_state)
  : option collect_state :=
  match n with
  | O => Some st
  | S n' =>
      match collect_step d used latest_max st with
      | Next st' => collect_run n' d used latest_max st'
      | _ => None
      end
  end.

(** The state of the scan of [overflow_disk] when it reaches the COMMIT of
    the third transaction: the latest array holds the 64 blocks of the first
    two transactions and pending holds block 200. *)
Definition filled_images (first_bno count : Z) (fill : byte) : list logged_image :=
  (fun k => {| block_no := first_bno + k;
               image := replicate (Z.to_nat BLOCK_SIZE) fill |}) <$> seqZ 0 count.

Definition overflow_state : collect_state :=
  {| cs_pos := 8 + 32 * 4104 + 4 + 32 * 4104 + 4 + 4104;
     cs_pending := filled_images 200 1 Byte.xcc;
     cs_latest := filled_images 100 32 Byte.xaa ++ filled_images 132 32 Byte.xbb |}.

(** ** A journal with a transaction cut short

    One committed transaction (a DATA record for block 17 and its COMMIT)
    followed by the first ten bytes of a second transaction for the same
    block. *)
Definition cut_recs : list record :=
  transaction_records
    [ {| block_no := 17; image := replicate (Z.to_nat BLOCK_SIZE) Byte.x01 |} ].

Definition cut_txn : list logged_image :=
  [ {| block_no := 17; image := replicate (Z.to_nat BLOCK_SIZE) Byte.x02 |} ].

Definition cut_tail : list byte := take 10 (encode_records (transaction_records cut_txn)).
Definition cut_rest : list byte := drop 10 (encode_records (transaction_records cut_txn)).

Definition cut_disk : disk :=
  journal_write_header
    (pwrite (fun _ => Byte.x00) (encode_records cut_recs ++ cut_tail)
            (journal_base_off + 8))
    {| magic := JOURNAL_MAGIC; nbytes_used := 8 + 4108 + 10 |}.

(** ** A cut transaction behind a record for a journal block

    One committed transaction, a DATA record for block 3 (the third block
    of the journal region, record-area offsets 8192..12287) and its COMMIT,
    followed by the first 4108 bytes of a second transaction: the DATA
    record for block 17 and the 4-byte header of the DATA record for block
    19.  [nbytes_used] ends there, at 8224.  The image logged for block 3
    repeats the bytes that the record area holds at offsets 8192..8219 and
    carries the four bytes of a COMMIT header at its offset 28, that is at
    record-area offset 8220, where the header of the DATA record for block
    19 lies. *)
Definition planted_image : list byte :=
  replicate 28 Byte.x11 ++ [Byte.x02; Byte.x00; Byte.x04; Byte.x00]
  ++ replicate (4096 - 32) Byte.x00.

Definition planted_recs : list record :=
  transaction_records [ {| block_no := 3; image := planted_image |} ].

Definition planted_txn : list logged_image :=
  [ {| block_no := 17; image := replicate (Z.to_nat BLOCK_SIZE) Byte.x11 |};
    {| block_no := 19; image := replicate (Z.to_nat BLOCK_SIZE) Byte.x22 |} ].

Definition planted_tail : list byte :=
  take 4108 (encode_records (transaction_records planted_txn)).
Definition planted_rest : list byte :=
  drop 4108 (encode_records (transaction_records planted_txn)).

Definition planted_disk : disk :=
  journal_write_header
    (pwrite (fun _ => Byte.x00) (encode_records planted_recs ++ planted_tail)
            (journal_base_off + 8))
    {| magic := JOURNAL_MAGIC; nbytes_used := 8 + 4108 + 4108 |}.

(** ** A record cut inside its header, then create

    A formatted image whose journal has a valid header with
    [nbytes_used = 12] and, at offset 8, the 4-byte header of a DATA
    record: the state after the first of the three appends of
    [journal_append_data]. *)
Definition torn_disk : disk :=
  journal_write_header
    (pwrite (fresh_image 64)
            (encode_rec_header {| rh_type := REC_DATA; rh_size := DATA_REC_SIZE |})
            (journal_base_off + 8))
    {| magic := JOURNAL_MAGIC; nbytes_used := 12 |}.

(** A formatted image whose root inode accounts for its two reserved
    entries, after [create a]. *)
Definition image_with_a : disk :=
  match cmd_create name_a 1000 (fresh_image 64) with
  | Ok d' => d'
  | _ => fresh_image 64
  end.

Definition is_ok {A : Type} (r : result A) : bool :=
  match r with
  | Ok _ => true
  | _ => false
  end.
(** * Properties *)

Arguments pread : simpl never.
Arguments pwrite : simpl never.
Arguments read_block : simpl never.
Arguments write_block : simpl never.
Arguments zero_bytes : simpl never.
Arguments u32 : simpl never.
Arguments le_split : simpl never.
Arguments le_combine : simpl never.

(** ** Positioned I/O *)

Section BlockIO.
Implicit Types (d : disk) (src : list byte) (off n x : Z).

Lemma pread_fmap d n off : pread d n off = d <$> seqZ off n.
Proof.
  unfold pread. destruct (decide (n ≤ 0)) as [Hn|Hn].
  { rewrite seqZ_nil by done. by replace (Z.to_nat n) with 0%nat by lia. }
  rewrite <- (Z2Nat.id n) at 2 by lia.
  generalize (Z.to_nat n) as k. clear. intros k. revert off.
  induction k as [|k IH]; intros off; [done|].
  rewrite seqZ_cons by lia. cbn [pread_from fmap list_fmap]. f_equal.
  rewrite IH. do 2 f_equal; lia.
Qed.

Lemma length_pread d n off : length (pread d n off) = Z.to_nat n.
Proof. rewrite pread_fmap. by rewrite length_fmap, length_seqZ. Qed.

Lemma lookup_pread d n off (i : nat) :
  Z.of_nat i < n → pread d n off !! i = Some (d (off + Z.of_nat i)).
Proof.
  intros Hi. rewrite pread_fmap.
  by rewrite list_lookup_fmap, lookup_seqZ_lt.
Qed.

Lemma pread_ext d d' n off :
  (∀ x, off ≤ x < off + n → d x = d' x) → pread d n off = pread d' n off.
Proof.
  intros Heq. rewrite !pread_fmap. apply list_eq; intros i.
  rewrite !list_lookup_fmap.
  destruct (seqZ off n !! i) as [x|] eqn:Hx; [|done].
  apply lookup_seqZ in Hx as [-> Hlt]. simpl. f_equal. apply Heq. lia.
Qed.

Lemma pread_app d n m off :
  0 ≤ n → 0 ≤ m → pread d (n + m) off = pread d n off ++ pread d m (off + n).
Proof. intros. rewrite !pread_fmap. by rewrite seqZ_app, fmap_app. Qed.

Lemma pwrite_inside d src off x :
  off ≤ x < off + Z.of_nat (length src) →
  pwrite d src off x = src !!! Z.to_nat (x - off).
Proof.
  intros Hx. unfold pwrite.
  destruct (off <=? x) eqn:H1; [|lia].
  destruct (x <? off + Z.of_nat (length src)) eqn:H2; [done|lia].
Qed.

Lemma pwrite_outside d src off x :
  x < off ∨ off + Z.of_nat (length src) ≤ x → pwrite d src off x = d x.
Proof.
  intros Hx. unfold pwrite.
  destruct (off <=? x) eqn:H1; [|done].
  destruct (x <? off + Z.of_nat (length src)) eqn:H2; [lia|done].
Qed.

Lemma pread_pwrite_same d src off :
  pread (pwrite d src off) (Z.of_nat (length src)) off = src.
Proof.
  apply list_eq; intros i.
  destruct (decide (i < length src)%nat) as [Hi|Hi].
  - rewrite lookup_pread by lia. rewrite pwrite_inside by lia.
    replace (Z.to_nat (off + Z.of_nat i - off)) with i by lia.
    destruct (lookup_lt_is_Some_2 src i Hi) as [b Hb].
    by rewrite (list_lookup_total_correct _ _ _ Hb).
  - rewrite (lookup_ge_None_2 src) by lia.
    apply lookup_ge_None_2. rewrite length_pread. lia.
Qed.

Lemma pread_pwrite_disjoint d src off n off' :
  off' + n ≤ off ∨ off + Z.of_nat (length src) ≤ off' →
  pread (pwrite d src off) n off' = pread d n off'.
Proof. intros H. apply pread_ext. intros x Hx. apply pwrite_outside. lia. Qed.

Lemma read_block_length d blk : length (read_block d blk) = Z.to_nat BLOCK_SIZE.
Proof. apply length_pread. Qed.
End BlockIO.

(** ** Little-endian fields *)

Lemma get_u16_le_split (a : Z) (rest : list byte) :
  get_u16 (le_split 2 a ++ rest) 0 = a mod 2 ^ 16.
Proof.
  unfold get_u16. change (Z.to_nat 0) with 0%nat. rewrite drop_0.
  rewrite take_app_length' by (by rewrite length_le_split).
  apply (le_combine_split 2).
Qed.

Lemma get_u32_le_split (a : Z) (rest : list byte) :
  get_u32 (le_split 4 a ++ rest) 0 = a mod 2 ^ 32.
Proof.
  unfold get_u32. change (Z.to_nat 0) with 0%nat. rewrite drop_0.
  rewrite take_app_length' by (by rewrite length_le_split).
  apply (le_combine_split 4).
Qed.

Lemma get_u16_range (buf : list byte) (off : Z) : 0 ≤ get_u16 buf off < 2 ^ 16.
Proof.
  unfold get_u16. pose proof (le_combine_bound (take 2 (drop (Z.to_nat off) buf))) as H.
  rewrite length_take in H.
  assert (2 ^ (8 * Z.of_nat (2 `min` length (drop (Z.to_nat off) buf))) ≤ 2 ^ 16).
  { apply Z.pow_le_mono_r; lia. }
  lia.
Qed.

Lemma get_u32_range (buf : list byte) (off : Z) : 0 ≤ get_u32 buf off < 2 ^ 32.
Proof.
  unfold get_u32. pose proof (le_combine_bound (take 4 (drop (Z.to_nat off) buf))) as H.
  rewrite length_take in H.
  assert (2 ^ (8 * Z.of_nat (4 `min` length (drop (Z.to_nat off) buf))) ≤ 2 ^ 32).
  { apply Z.pow_le_mono_r; lia. }
  lia.
Qed.

Lemma le_combine_range4 (b : list byte) : length b = 4%nat → 0 ≤ le_combine b < 2 ^ 32.
Proof. intros H. pose proof (le_combine_bound b) as Hb. rewrite H in Hb. exact Hb. Qed.


(** ** One loop iteration against the decoding scan *)

Lemma u32_small (z : Z) : 0 ≤ z < 2 ^ 32 → u32 z = z.
Proof. intros. unfold u32. by apply Z.mod_small. Qed.

Lemma journal_capacity_bytes_eq : journal_capacity_bytes = 65536.
Proof. reflexivity. Qed.

Lemma rec_header_range (d : disk) (pos : Z) :
  0 ≤ rh_type (read_rec_header d pos) < 2 ^ 16
  ∧ 0 ≤ rh_size (read_rec_header d pos) < 2 ^ 16.
Proof. split; apply get_u16_range. Qed.

(** [lia] after beta-normalising, for the redexes that [apply] and
    [inversion] leave behind. *)
Ltac beta_lia := cbv beta in *; lia.

(** Linear arithmetic over the layout constants. *)
Ltac layout_lia :=
  cbv beta in *;
  unfold in_journal, live_block, journal_base_off, INODE_BMAP_BLK, DATA_BMAP_BLK,
    INODE_TABLE_BLK, INODE_TABLE_BLKS, DATA_START_BLK, JOURNAL_START_BLK,
    JOURNAL_BLOCKS, DATA_REC_SIZE, SIZEOF_JOURNAL_HEADER, SIZEOF_REC_HEADER,
    SIZEOF_U32, SIZEOF_DIRENT, BLOCK_SIZE, INODE_SIZE, NAME_LEN in *;
  first [lia | Z.div_mod_to_equations; lia].

Ltac case_if :=
  match goal with
  | |- context [if ?b then _ else _] => destruct b eqn:?
  end.

Ltac scan_cases :=
  repeat (case_if; simpl in *; try done; try lia).

Lemma collect_step_record_at (d : disk) (used latest_max : Z) (st : collect_state) :
  0 ≤ cs_pos st → used ≤ journal_capacity_bytes →
  collect_step d used latest_max st =
    match record_at d used (cs_pos st) with
    | Some (DATA bno img) =>
        if Z.of_nat (length (cs_pending st)) >=? OVERLAY_PENDING_MAX then Stop
        else Next {| cs_pos := cs_pos st + 4104;
                     cs_pending := cs_pending st ++ [ {| block_no := bno; image := img |} ];
                     cs_latest := cs_latest st |}
    | Some COMMIT =>
        Next {| cs_pos := cs_pos st + 4;
                cs_pending := [];
                cs_latest := upsert_pending (cs_pending st) (cs_latest st) latest_max |}
    | None => Stop
    end.
Proof.
  intros Hpos Hused. rewrite journal_capacity_bytes_eq in Hused.
  unfold collect_step, record_at.
  destruct (rec_header_range d (cs_pos st)) as [Hty Hsz].
  set (rh := read_rec_header d (cs_pos st)) in *.
  change SIZEOF_REC_HEADER with 4. change REC_DATA with 1. change REC_COMMIT with 2.
  change (u32 DATA_REC_SIZE) with 4104.
  cbv zeta. fold rh.
  destruct (cs_pos st + 4 <=? used) eqn:Hle; cbn [negb orb]; [|done].
  apply Z.leb_le in Hle.
  rewrite (u32_small (cs_pos st + rh_size rh)) by lia.
  destruct (rh_size rh <? 4) eqn:H1; cbn [negb orb]; [done|].
  destruct (cs_pos st + rh_size rh >? used) eqn:H2; cbn [negb orb]; [done|].
  destruct (rh_type rh =? 1) eqn:H3; cbn [negb orb].
  - destruct (rh_size rh =? 4104) eqn:H4; cbn [negb orb]; [|done].
    apply Z.eqb_eq in H4. by rewrite H4.
  - destruct (rh_type rh =? 2) eqn:H5; cbn [negb orb]; [|done].
    destruct (rh_size rh =? 4) eqn:H6; cbn [negb orb]; [|done].
    apply Z.eqb_eq in H6. by rewrite H6.
Qed.

Lemma install_step_record_at (used : Z) (st : install_state) :
  0 ≤ is_pos st → used ≤ journal_capacity_bytes →
  install_step used st =
    match record_at (is_disk st) used (is_pos st) with
    | Some (DATA bno img) =>
        if Z.of_nat (length (is_pending st)) >=? INSTALL_PENDING_MAX then Abort TxnTooLarge
        else Next {| is_disk := is_disk st;
                     is_pos := is_pos st + 4104;
                     is_pending := is_pending st ++ [ {| block_no := bno; image := img |} ];
                     is_commits := is_commits st |}
    | Some COMMIT =>
        Next {| is_disk := write_pending (is_disk st) (is_pending st);
                is_pos := is_pos st + 4;
                is_pending := [];
                is_commits := is_commits st + 1 |}
    | None => Stop
    end.
Proof.
  intros Hpos Hused. rewrite journal_capacity_bytes_eq in Hused.
  unfold install_step, record_at.
  destruct (rec_header_range (is_disk st) (is_pos st)) as [Hty Hsz].
  set (rh := read_rec_header (is_disk st) (is_pos st)) in *.
  change SIZEOF_REC_HEADER with 4. change REC_DATA with 1. change REC_COMMIT with 2.
  change (u32 DATA_REC_SIZE) with 4104.
  cbv zeta. fold rh.
  destruct (is_pos st + 4 <=? used) eqn:Hle; cbn [negb orb]; [|done].
  apply Z.leb_le in Hle.
  rewrite (u32_small (is_pos st + rh_size rh)) by lia.
  destruct (rh_size rh <? 4) eqn:H1; cbn [negb orb]; [done|].
  destruct (is_pos st + rh_size rh >? used) eqn:H2; cbn [negb orb]; [done|].
  destruct (rh_type rh =? 1) eqn:H3; cbn [negb orb].
  - destruct (rh_size rh =? 4104) eqn:H4; cbn [negb orb]; [|done].
    apply Z.eqb_eq in H4. by rewrite H4.
  - destruct (rh_type rh =? 2) eqn:H5; cbn [negb orb]; [|done].
    destruct (rh_size rh =? 4) eqn:H6; cbn [negb orb]; [|done].
    apply Z.eqb_eq in H6. by rewrite H6.
Qed.

(** A record lies inside the used part of the record area. *)
Lemma record_at_bound (d : disk) (used pos : Z) (r : record) :
  record_at d used pos = Some r → pos + record_size r ≤ used.
Proof.
  unfold record_at. intros H.
  set (rh := read_rec_header d pos) in *. cbv zeta in H.
  destruct (pos + 4 <=? used) eqn:Hle; [|done].
  destruct (rh_size rh <? 4) eqn:H1; cbn [orb] in H; [done|].
  destruct (pos + rh_size rh >? used) eqn:H2; cbn [orb] in H; [done|].
  destruct (rh_type rh =? 1).
  - destruct (rh_size rh =? 4104) eqn:H4; [|done].
    inversion H; subst; simpl. lia.
  - destruct (rh_type rh =? 2); [|done].
    destruct (rh_size rh =? 4) eqn:H4; [|done].
    inversion H; subst; simpl. lia.
Qed.

Lemma record_size_pos (r : record) : 4 ≤ record_size r ≤ 4104.
Proof. destruct r; simpl; lia. Qed.

(** ** The scans depend on the journal region only *)

Lemma in_journal_iff (x : Z) : in_journal x ↔ 4096 ≤ x < 69632.
Proof. unfold in_journal. change journal_base_off with 4096.
  change (JOURNAL_BLOCKS * BLOCK_SIZE) with 65536. lia. Qed.

Lemma record_at_ext (d d' : disk) (used pos : Z) :
  0 ≤ pos → used ≤ journal_capacity_bytes →
  (∀ x, in_journal x → d x = d' x) →
  record_at d used pos = record_at d' used pos.
Proof.
  intros Hpos Hused Heq. rewrite journal_capacity_bytes_eq in Hused.
  unfold record_at.
  destruct (pos + 4 <=? used) eqn:Hle; [|done].
  apply Z.leb_le in Hle.
  assert (read_rec_header d pos = read_rec_header d' pos) as ->.
  { unfold read_rec_header. f_equal. apply pread_ext. intros x Hx.
    apply Heq, in_journal_iff. change journal_base_off with 4096 in Hx.
    change SIZEOF_REC_HEADER with 4 in Hx. lia. }
  set (rh := read_rec_header d' pos). cbv zeta.
  destruct (rh_size rh <? 4) eqn:H1; cbn [orb]; [done|].
  destruct (pos + rh_size rh >? used) eqn:H2; cbn [orb]; [done|].
  destruct (rh_type rh =? 1); [|done].
  destruct (rh_size rh =? 4104) eqn:H4; [|done].
  apply Z.eqb_eq in H4. rewrite H4 in H2.
  f_equal. f_equal.
  - unfold read_rec_block_no. f_equal. apply pread_ext. intros x Hx.
    apply Heq, in_journal_iff. change journal_base_off with 4096 in Hx.
    change SIZEOF_REC_HEADER with 4 in Hx. change SIZEOF_U32 with 4 in Hx. lia.
  - unfold read_rec_image. apply pread_ext. intros x Hx.
    apply Heq, in_journal_iff. change journal_base_off with 4096 in Hx.
    change SIZEOF_REC_HEADER with 4 in Hx. change SIZEOF_U32 with 4 in Hx.
    change BLOCK_SIZE with 4096 in Hx. lia.
Qed.

Lemma records_from_ext (fuel : nat) (d d' : disk) (used pos : Z) :
  0 ≤ pos → used ≤ journal_capacity_bytes →
  (∀ x, in_journal x → d x = d' x) →
  records_from fuel d used pos = records_from fuel d' used pos.
Proof.
  revert pos. induction fuel as [|fuel IH]; intros pos Hpos Hused Heq; [done|].
  simpl. rewrite (record_at_ext d d') by done.
  destruct (record_at d' used pos) as [r|]; [|done].
  f_equal. apply IH; [|done..]. pose proof (record_size_pos r). lia.
Qed.


Lemma record_at_wf (d : disk) (used pos : Z) (r : record) :
  record_at d used pos = Some r → record_wf r.
Proof.
  unfold record_at. intros H.
  set (rh := read_rec_header d pos) in *. cbv zeta in H.
  destruct (pos + 4 <=? used) eqn:Hle; [|done].
  destruct ((rh_size rh <? 4) || (pos + rh_size rh >? used)); [done|].
  destruct (rh_type rh =? 1).
  - destruct (rh_size rh =? 4104) eqn:H4; [|done].
    inversion H; subst; cbn [record_wf]. split.
    + apply le_combine_range4. by rewrite length_pread.
    + apply length_pread.
  - destruct (rh_type rh =? 2); [|done].
    destruct (rh_size rh =? 4) eqn:H4; [|done].
    by inversion H.
Qed.

Lemma records_from_wf (fuel : nat) (d : disk) (used pos : Z) :
  Forall record_wf (records_from fuel d used pos).
Proof.
  revert pos. induction fuel as [|fuel IH]; intros pos; simpl; [constructor|].
  destruct (record_at d used pos) as [r|] eqn:Hr; [|constructor].
  constructor; [by eapply record_at_wf|apply IH].
Qed.

(** Each DATA record takes 4104 bytes of the used area. *)
Lemma records_from_data_bound (fuel : nat) (d : disk) (used pos : Z) :
  pos ≤ used →
  pos + 4104 * data_count (records_from fuel d used pos) ≤ used.
Proof.
  revert pos. induction fuel as [|fuel IH]; intros pos Hpos; simpl; [lia|].
  destruct (record_at d used pos) as [r|] eqn:Hr; simpl; [|lia].
  pose proof (record_at_bound _ _ _ _ Hr) as Hb.
  specialize (IH (pos + record_size r) Hb).
  destruct r; simpl in *; lia.
Qed.

(** ** The overlay scan replays the decoded records *)

Lemma collect_loop_records (d : disk) (used latest_max : Z) (fuel : nat)
    (st : collect_state) :
  0 ≤ cs_pos st → used ≤ journal_capacity_bytes →
  Z.max 0 (used - cs_pos st) < 4 * Z.of_nat fuel →
  8 + 4104 * Z.of_nat (length (cs_pending st)) ≤ cs_pos st →
  collect_loop fuel d used latest_max st
  = Ok (overlay_of_records (records_from fuel d used (cs_pos st))
                           (cs_pending st) (cs_latest st) latest_max).
Proof.
  revert st. induction fuel as [|fuel IH]; intros st Hpos Hused Hfuel Hpend; [lia|].
  cbn [collect_loop records_from].
  rewrite collect_step_record_at by done.
  destruct (record_at d used (cs_pos st)) as [r|] eqn:Hr; [|done].
  pose proof (record_at_bound _ _ _ _ Hr) as Hb.
  rewrite journal_capacity_bytes_eq in Hused.
  destruct r as [bno img|]; cbn [record_size overlay_of_records] in *.
  - destruct (Z.of_nat (length (cs_pending st)) >=? OVERLAY_PENDING_MAX) eqn:Hfull.
    { unfold OVERLAY_PENDING_MAX in Hfull. lia. }
    rewrite IH; cbn [cs_pos cs_pending cs_latest]; try done; try lia.
    rewrite length_app. simpl. lia.
  - rewrite IH; cbn [cs_pos cs_pending cs_latest]; try done; try lia.
    simpl. lia.
Qed.

(** ** Upserting into the latest array *)

Lemma upsert_existing_None (arr : list logged_image) (bno : Z) (img : list byte) :
  upsert_existing arr bno img = None ↔ logged_image_find arr bno = None.
Proof.
  induction arr as [|e arr IH]; simpl; [done|].
  destruct (block_no e =? bno); [done|].
  destruct (upsert_existing arr bno img); simpl; split; intros H; try done.
  - by apply IH in H.
  - by apply IH.
Qed.

Lemma upsert_existing_Some (arr arr' : list logged_image) (bno : Z) (img : list byte) :
  upsert_existing arr bno img = Some arr' →
  length arr' = length arr
  ∧ ∀ b, logged_image_find arr' b = if b =? bno then Some img else logged_image_find arr b.
Proof.
  revert arr'. induction arr as [|e arr IH]; intros arr'; simpl; [done|].
  destruct (block_no e =? bno) eqn:He.
  - intros [= <-]. split; [done|]. intros b. simpl.
    apply Z.eqb_eq in He. rewrite He.
    rewrite (Z.eqb_sym bno b). by destruct (b =? bno).
  - destruct (upsert_existing arr bno img) as [arr0|]; simpl; [|done].
    intros [= <-]. destruct (IH arr0 eq_refl) as [Hlen Hfind].
    split; [simpl; by rewrite Hlen|]. intros b. simpl.
    destruct (block_no e =? b) eqn:Hb; [|apply Hfind].
    apply Z.eqb_eq in Hb. apply Z.eqb_neq in He.
    destruct (b =? bno) eqn:Hbb; [|done]. apply Z.eqb_eq in Hbb. lia.
Qed.

Lemma logged_image_find_app (arr1 arr2 : list logged_image) (b : Z) :
  logged_image_find (arr1 ++ arr2) b =
    match logged_image_find arr1 b with
    | Some img => Some img
    | None => logged_image_find arr2 b
    end.
Proof.
  induction arr1 as [|e arr1 IH]; simpl; [done|].
  by destruct (block_no e =? b).
Qed.

Lemma logged_image_upsert_spec (arr : list logged_image) (max bno : Z) (img : list byte) :
  Z.of_nat (length arr) < max →
  ∃ arr', logged_image_upsert arr max bno img = Some arr'
    ∧ (length arr' ≤ S (length arr))%nat
    ∧ ∀ b, logged_image_find arr' b
           = if b =? bno then Some img else logged_image_find arr b.
Proof.
  intros Hlen. unfold logged_image_upsert.
  destruct (upsert_existing arr bno img) as [arr'|] eqn:Hex.
  - exists arr'. destruct (upsert_existing_Some _ _ _ _ Hex) as [Hl Hf].
    split; [done|]. split; [lia|done].
  - destruct (Z.of_nat (length arr) >=? max) eqn:Hfull; [lia|].
    eexists. split; [done|]. split.
    { rewrite length_app. simpl. lia. }
    intros b. rewrite logged_image_find_app. simpl.
    apply upsert_existing_None in Hex.
    rewrite (Z.eqb_sym bno b).
    destruct (b =? bno) eqn:Hb.
    + apply Z.eqb_eq in Hb. subst b. by rewrite Hex.
    + by destruct (logged_image_find arr b).
Qed.

Lemma last_image_nil (b : Z) : last_image [] b = None.
Proof. done. Qed.

Lemma last_image_cons (p : logged_image) (txn : list logged_image) (b : Z) :
  last_image (p :: txn) b =
    match last_image txn b with
    | Some img => Some img
    | None => if block_no p =? b then Some (image p) else None
    end.
Proof.
  unfold last_image. rewrite filter_cons.
  destruct (decide (block_no p = b)) as [Heq|Hne].
  - apply Z.eqb_eq in Heq as Heq'. rewrite Heq'.
    destruct (filter (λ p0, block_no p0 = b) txn) as [|q l] eqn:Hf; [done|].
    rewrite last_cons. by destruct (last (q :: l)).
  - apply Z.eqb_neq in Hne as Hne'. rewrite Hne'.
    by destruct (last (filter (λ p0, block_no p0 = b) txn)).
Qed.

Lemma upsert_pending_spec (pending latest : list logged_image) (max : Z) :
  Z.of_nat (length latest) + Z.of_nat (length pending) ≤ max →
  (length (upsert_pending pending latest max) ≤ length latest + length pending)%nat
  ∧ ∀ b, logged_image_find (upsert_pending pending latest max) b =
         match last_image pending b with
         | Some img => Some img
         | None => logged_image_find latest b
         end.
Proof.
  revert latest. induction pending as [|p pending IH]; intros latest Hlen; simpl.
  { split; [lia|done]. }
  simpl in Hlen.
  destruct (logged_image_upsert_spec latest max (block_no p) (image p))
    as (latest' & -> & Hl & Hf); [lia|].
  destruct (IH latest') as [IHl IHf]; [lia|].
  split; [lia|]. intros b. rewrite IHf, last_image_cons, Hf.
  rewrite (Z.eqb_sym b). destruct (last_image pending b); [done|].
  by destruct (block_no p =? b).
Qed.

Lemma spec_overlay_snoc (txns : list (list logged_image)) (txn : list logged_image) (b : Z) :
  spec_overlay (txns ++ [txn]) b =
    match last_image txn b with
    | Some img => Some img
    | None => spec_overlay txns b
    end.
Proof.
  unfold spec_overlay. rewrite omap_app. simpl.
  destruct (last_image txn b); simpl.
  - by rewrite last_snoc.
  - by rewrite app_nil_r.
Qed.

Lemma data_count_nonneg (recs : list record) : 0 ≤ data_count recs.
Proof. induction recs as [|[|] recs IH]; simpl; lia. Qed.

Lemma overlay_of_records_spec (recs : list record) (pending latest : list logged_image)
    (max : Z) (done_txns : list (list logged_image)) :
  Z.of_nat (length latest) + Z.of_nat (length pending) + data_count recs ≤ max →
  (∀ b, logged_image_find latest b = spec_overlay done_txns b) →
  ∀ b, logged_image_find (overlay_of_records recs pending latest max) b
       = spec_overlay (done_txns ++ transactions_from pending recs) b.
Proof.
  revert pending latest done_txns.
  induction recs as [|r recs IH]; intros pending latest done_txns Hlen Hinv; simpl.
  { intros b. by rewrite app_nil_r. }
  destruct r as [bno img|]; cbn [data_count] in Hlen.
  - apply IH; [|done]. rewrite length_app. cbn [length]. beta_lia.
  - pose proof (data_count_nonneg recs) as Hnn.
    destruct (upsert_pending_spec pending latest max) as [Hl Hf]; [lia|].
    intros b. rewrite (IH [] _ (done_txns ++ [pending])).
    + by rewrite <- app_assoc.
    + cbn [length]. lia.
    + intros b'. by rewrite Hf, spec_overlay_snoc, Hinv.
Qed.

Lemma journal_header_ok_bounds (jh : journal_header) :
  journal_header_ok jh = true →
  magic jh = JOURNAL_MAGIC ∧ 8 ≤ nbytes_used jh ≤ 65536.
Proof.
  unfold journal_header_ok. rewrite journal_capacity_bytes_eq.
  change SIZEOF_JOURNAL_HEADER with 8.
  intros H. apply negb_true_iff in H.
  apply orb_false_iff in H as [H H3]. apply orb_false_iff in H as [H1 H2].
  apply negb_false_iff, Z.eqb_eq in H1. lia.
Qed.

Lemma collect_init_eq :
  collect_init = {| cs_pos := 8; cs_pending := []; cs_latest := [] |}.
Proof. reflexivity. Qed.

(** The images an overlay holds are images of committed DATA records. *)
Lemma last_image_elem (txn : list logged_image) (b : Z) (img : list byte) :
  last_image txn b = Some img → ∃ p, p ∈ txn ∧ block_no p = b ∧ image p = img.
Proof.
  unfold last_image. intros H.
  destruct (last (filter (λ p, block_no p = b) txn)) as [p|] eqn:Hl; [|done].
  injection H as <-. exists p.
  apply last_Some in Hl as [l' Hl].
  assert (p ∈ filter (λ p, block_no p = b) txn) as Hin.
  { rewrite Hl. apply elem_of_app. right. by apply list_elem_of_singleton. }
  apply list_elem_of_filter in Hin as [Hb Hin]. done.
Qed.

Lemma spec_overlay_elem (txns : list (list logged_image)) (b : Z) (img : list byte) :
  spec_overlay txns b = Some img →
  ∃ txn p, txn ∈ txns ∧ p ∈ txn ∧ block_no p = b ∧ image p = img.
Proof.
  unfold spec_overlay. intros H.
  apply last_Some in H as [l' Hl].
  assert (img ∈ omap (λ txn, last_image txn b) txns) as Hin.
  { rewrite Hl. apply elem_of_app. right. by apply list_elem_of_singleton. }
  apply list_elem_of_omap in Hin as (txn & Hin & Hli).
  apply last_image_elem in Hli as (p & Hp & Hb & Hi).
  by exists txn, p.
Qed.

(** What [last_image] and [spec_overlay] select, in words: the last DATA
    record for the block in the last transaction that mentions it. *)
Lemma last_image_None (txn : list logged_image) (b : Z) :
  last_image txn b = None ↔ Forall (λ p, block_no p ≠ b) txn.
Proof.
  induction txn as [|p txn IH]; [done|].
  rewrite last_image_cons, Forall_cons. split.
  - destruct (last_image txn b); [done|].
    destruct (block_no p =? b) eqn:Hb; [done|]. intros _.
    apply Z.eqb_neq in Hb. split; [done|]. by apply IH.
  - intros [Hp Htxn]. apply IH in Htxn. rewrite Htxn.
    apply Z.eqb_neq in Hp. by rewrite Hp.
Qed.

Lemma last_image_Some (txn : list logged_image) (b : Z) (img : list byte) :
  last_image txn b = Some img ↔
  ∃ t1 t2, txn = t1 ++ {| block_no := b; image := img |} :: t2
           ∧ Forall (λ p, block_no p ≠ b) t2.
Proof.
  split.
  - induction txn as [|p txn IH]; [done|].
    rewrite last_image_cons.
    destruct (last_image txn b) as [img'|] eqn:Hl.
    + intros [= ->]. destruct (IH eq_refl) as (t1 & t2 & -> & Ht2).
      by exists (p :: t1), t2.
    + destruct (block_no p =? b) eqn:Hb; [|done]. intros [= <-].
      apply Z.eqb_eq in Hb. subst b. exists [], txn. split; [by destruct p|].
      by apply last_image_None.
  - intros (t1 & t2 & -> & Ht2). apply last_image_None in Ht2.
    induction t1 as [|p t1 IH]; simpl.
    + rewrite last_image_cons, Ht2. cbn [block_no image]. by rewrite Z.eqb_refl.
    + rewrite last_image_cons. by rewrite IH.
Qed.

Lemma spec_overlay_Some (txns : list (list logged_image)) (b : Z) (img : list byte) :
  spec_overlay txns b = Some img ↔
  ∃ before txn after, txns = before ++ txn :: after
                      ∧ last_image txn b = Some img
                      ∧ Forall (λ t, last_image t b = None) after.
Proof.
  induction txns as [|t txns IH] using rev_ind.
  { split; [done|]. intros (before & txn & after & H & _). by destruct before. }
  rewrite spec_overlay_snoc. split.
  - destruct (last_image t b) as [img'|] eqn:Hl.
    + intros [= ->]. by exists txns, t, [].
    + intros H. apply IH in H as (before & txn & after & -> & Htxn & Hafter).
      exists before, txn, (after ++ [t]). rewrite <- app_assoc. split; [done|].
      split; [done|]. apply Forall_app. split; [done|]. by constructor.
  - intros (before & txn & after & Heq & Htxn & Hafter).
    destruct after as [|a after _] using rev_ind.
    + apply app_inj_tail in Heq as [-> ->]. by rewrite Htxn.
    + rewrite app_comm_cons, app_assoc in Heq. apply app_inj_tail in Heq as [-> ->].
      apply Forall_app in Hafter as [Hafter Ha].
      rewrite (proj1 (Forall_singleton _ a) Ha). apply IH. by exists before, txn, after.
Qed.

Lemma spec_overlay_None (txns : list (list logged_image)) (b : Z) :
  spec_overlay txns b = None ↔ Forall (Forall (λ p, block_no p ≠ b)) txns.
Proof.
  induction txns as [|t txns IH] using rev_ind; [done|].
  rewrite spec_overlay_snoc, Forall_app, Forall_singleton, <- last_image_None, <- IH.
  destruct (last_image t b); [|tauto].
  split; [done|]. by intros [_ ?].
Qed.

Lemma transactions_from_wf (recs : list record) (cur : list logged_image) :
  Forall record_wf recs →
  Forall (λ p, length (image p) = Z.to_nat BLOCK_SIZE) cur →
  Forall (Forall (λ p, length (image p) = Z.to_nat BLOCK_SIZE))
         (transactions_from cur recs).
Proof.
  revert cur. induction recs as [|r recs IH]; intros cur Hwf Hcur; simpl; [constructor|].
  inversion Hwf as [|? ? Hr Hrecs]; subst.
  destruct r as [bno img|].
  - apply IH; [done|]. apply Forall_app. split; [done|].
    constructor; [|constructor]. simpl. apply Hr.
  - constructor; [done|]. apply IH; [done|constructor].
Qed.

(** The overlay scan under a valid header: it returns, and its result is
    the overlay of the committed transactions. *)
Lemma collect_valid_header (d : disk) (jh : journal_header) :
  journal_header_ok jh = true →
  ∃ latest,
    journal_collect_latest_committed (scan_fuel jh) d jh LATEST_MAX = Ok latest
    ∧ (∀ bno, logged_image_find latest bno
              = spec_overlay (committed_transactions
                                (journal_records d (nbytes_used jh))) bno)
    ∧ (∀ bno img, logged_image_find latest bno = Some img →
                  length img = Z.to_nat BLOCK_SIZE).
Proof.
  intros Hok. apply journal_header_ok_bounds in Hok as [_ Hused].
  unfold journal_collect_latest_committed, scan_fuel.
  rewrite collect_loop_records; rewrite ?collect_init_eq; simpl;
    rewrite ?journal_capacity_bytes_eq; try lia.
  eexists. split; [done|].
  assert (∀ bno, logged_image_find
            (overlay_of_records (records_from (Z.to_nat (nbytes_used jh)) d
                                   (nbytes_used jh) 8) [] [] LATEST_MAX) bno
          = spec_overlay (committed_transactions
                            (journal_records d (nbytes_used jh))) bno) as Hspec.
  { intros bno.
    apply (overlay_of_records_spec _ [] [] LATEST_MAX []); [|done].
    pose proof (records_from_data_bound (Z.to_nat (nbytes_used jh)) d
                  (nbytes_used jh) 8) as Hb.
    unfold LATEST_MAX. simpl. lia. }
  split; [done|].
  intros bno img. rewrite Hspec. intros Hsome.
  apply spec_overlay_elem in Hsome as (txn & p & Htxn & Hp & _ & <-).
  pose proof (transactions_from_wf (journal_records d (nbytes_used jh)) []
                (records_from_wf _ _ _ _) (Forall_nil_2 _)) as Hwf.
  rewrite Forall_forall in Hwf. specialize (Hwf txn Htxn).
  rewrite Forall_forall in Hwf. by apply Hwf.
Qed.



(** ** The install scan *)

Lemma write_block_outside (d : disk) (bno : Z) (img : list byte) (x : Z) :
  length img = Z.to_nat BLOCK_SIZE →
  x < bno * BLOCK_SIZE ∨ bno * BLOCK_SIZE + BLOCK_SIZE ≤ x →
  write_block d bno img x = d x.
Proof.
  intros Hlen Hx. unfold write_block. apply pwrite_outside.
  rewrite Hlen. unfold BLOCK_SIZE in *. lia.
Qed.

Lemma write_pending_journal (pending : list logged_image) (d : disk) (x : Z) :
  Forall (λ p, live_block (block_no p)) pending →
  Forall (λ p, length (image p) = Z.to_nat BLOCK_SIZE) pending →
  in_journal x →
  write_pending d pending x = d x.
Proof.
  unfold write_pending. revert d.
  induction pending as [|p pending IH]; intros d Hlive Hlen Hx; simpl; [done|].
  inversion Hlive as [|? ? Hp Hlive']; subst.
  inversion Hlen as [|? ? Hl Hlen']; subst.
  rewrite IH by done.
  apply write_block_outside; [done|]. layout_lia.
Qed.

Lemma install_loop_ok (used : Z) (fuel : nat) (st : install_state) :
  0 ≤ is_pos st → used ≤ journal_capacity_bytes →
  Z.max 0 (used - is_pos st) < 4 * Z.of_nat fuel →
  8 + 4104 * Z.of_nat (length (is_pending st)) ≤ is_pos st →
  ∃ st', install_loop fuel used st = Ok st'.
Proof.
  revert st. induction fuel as [|fuel IH]; intros st Hpos Hused Hfuel Hpend; [lia|].
  cbn [install_loop].
  rewrite install_step_record_at by done.
  destruct (record_at (is_disk st) used (is_pos st)) as [r|] eqn:Hr; [|by eexists].
  pose proof (record_at_bound _ _ _ _ Hr) as Hb.
  rewrite journal_capacity_bytes_eq in Hused.
  destruct r as [bno img|]; cbn [record_size] in *.
  - destruct (Z.of_nat (length (is_pending st)) >=? INSTALL_PENDING_MAX) eqn:Hfull.
    { unfold INSTALL_PENDING_MAX in Hfull. lia. }
    apply IH; cbn [is_pos is_pending]; try done; try lia.
    rewrite length_app. cbn [length]. lia.
  - apply IH; cbn [is_pos is_pending]; try done; try lia.
    cbn [length]. lia.
Qed.

Lemma install_loop_records (used : Z) (fuel : nat) (st : install_state) :
  0 ≤ is_pos st → used ≤ journal_capacity_bytes →
  Z.max 0 (used - is_pos st) < 4 * Z.of_nat fuel →
  8 + 4104 * Z.of_nat (length (is_pending st)) ≤ is_pos st →
  Forall (λ p, length (image p) = Z.to_nat BLOCK_SIZE) (is_pending st) →
  Forall (Forall (λ p, live_block (block_no p)))
         (transactions_from (is_pending st)
            (records_from fuel (is_disk st) used (is_pos st))) →
  ∃ st', install_loop fuel used st = Ok st'
    ∧ is_disk st' = install_transactions (is_disk st)
                      (transactions_from (is_pending st)
                         (records_from fuel (is_disk st) used (is_pos st)))
    ∧ is_commits st' = is_commits st
                       + Z.of_nat (length (transactions_from (is_pending st)
                           (records_from fuel (is_disk st) used (is_pos st)))).
Proof.
  revert st. induction fuel as [|fuel IH];
    intros st Hpos Hused Hfuel Hpend Hlen Hlive; [lia|].
  cbn [install_loop records_from] in *.
  rewrite install_step_record_at by done.
  destruct (record_at (is_disk st) used (is_pos st)) as [r|] eqn:Hr.
  2:{ exists st. simpl. split; [done|]. split; [done|lia]. }
  pose proof (record_at_bound _ _ _ _ Hr) as Hb.
  pose proof (record_at_wf _ _ _ _ Hr) as Hwf.
  pose proof Hused as Hused'. rewrite journal_capacity_bytes_eq in Hused'.
  destruct r as [bno img|]; cbn [record_size transactions_from record_wf] in *.
  - destruct (Z.of_nat (length (is_pending st)) >=? INSTALL_PENDING_MAX) eqn:Hfull.
    { unfold INSTALL_PENDING_MAX in Hfull. lia. }
    set (st1 := {| is_disk := is_disk st; is_pos := is_pos st + 4104;
                   is_pending := is_pending st ++ [ {| block_no := bno; image := img |} ];
                   is_commits := is_commits st |}).
    destruct (IH st1) as (st' & Hrun & Hd & Hc); subst st1;
      cbn [is_pos is_pending is_disk is_commits]; try done; try lia.
    + rewrite length_app. cbn [length]. lia.
    + apply Forall_app. split; [done|]. constructor; [|constructor]. apply Hwf.
    + exists st'. done.
  - inversion Hlive as [|? ? Hlp Hlive']; subst.
    set (st1 := {| is_disk := write_pending (is_disk st) (is_pending st);
                   is_pos := is_pos st + 4; is_pending := [];
                   is_commits := is_commits st + 1 |}).
    assert (records_from fuel (is_disk st1) used (is_pos st + 4)
            = records_from fuel (is_disk st) used (is_pos st + 4)) as Hsame.
    { apply records_from_ext; [lia|done|].
      intros x Hx. subst st1. cbn [is_disk]. by apply write_pending_journal. }
    destruct (IH st1) as (st' & Hrun & Hd & Hc); subst st1;
      cbn [is_pos is_pending is_disk is_commits] in *; try done; try lia.
    + cbn [length]. lia.
    + by rewrite Hsame.
    + exists st'. rewrite Hsame in Hd, Hc. split; [done|]. split; [done|].
      cbn [length]. lia.
Qed.

(** ** Journal header and region *)

Lemma length_encode_journal_header (jh : journal_header) :
  length (encode_journal_header jh) = 8%nat.
Proof. unfold encode_journal_header. by rewrite length_app, !length_le_split. Qed.

Lemma decode_encode_journal_header (jh : journal_header) :
  0 ≤ magic jh < 2 ^ 32 → 0 ≤ nbytes_used jh < 2 ^ 32 →
  decode_journal_header (encode_journal_header jh) = jh.
Proof.
  intros Hm Hu. destruct jh as [m u]. simpl in *.
  unfold decode_journal_header, encode_journal_header. cbn [magic nbytes_used].
  f_equal.
  - rewrite get_u32_le_split. by apply Z.mod_small.
  - unfold get_u32. change (Z.to_nat 4) with 4%nat.
    rewrite drop_app_length' by (by rewrite length_le_split).
    rewrite firstn_all2 by (by rewrite length_le_split).
    rewrite (le_combine_split 4). by apply Z.mod_small.
Qed.

Lemma journal_read_write_header (d : disk) (jh : journal_header) :
  0 ≤ magic jh < 2 ^ 32 → 0 ≤ nbytes_used jh < 2 ^ 32 →
  journal_read_header (journal_write_header d jh) = jh.
Proof.
  intros Hm Hu. unfold journal_read_header, journal_write_header.
  change SIZEOF_JOURNAL_HEADER with (Z.of_nat 8).
  rewrite <- (length_encode_journal_header jh).
  rewrite pread_pwrite_same. by apply decode_encode_journal_header.
Qed.

Lemma journal_write_header_outside (d : disk) (jh : journal_header) (x : Z) :
  x < journal_base_off ∨ journal_base_off + 8 ≤ x →
  journal_write_header d jh x = d x.
Proof.
  intros Hx. unfold journal_write_header. apply pwrite_outside.
  rewrite length_encode_journal_header. lia.
Qed.

Lemma journal_read_header_ext (d d' : disk) :
  (∀ x, journal_base_off ≤ x < journal_base_off + 8 → d x = d' x) →
  journal_read_header d = journal_read_header d'.
Proof.
  intros H. unfold journal_read_header. f_equal. apply pread_ext.
  intros x Hx. apply H. layout_lia.
Qed.

Lemma zero_bytes_lookup (n : Z) (i : nat) :
  Z.of_nat i < n → zero_bytes n !!! i = Byte.x00.
Proof.
  intros Hi. unfold zero_bytes.
  apply list_lookup_total_correct, lookup_replicate_2. lia.
Qed.

Lemma length_zero_bytes (n : Z) : length (zero_bytes n) = Z.to_nat n.
Proof. unfold zero_bytes. apply length_replicate. Qed.

Lemma clear_blocks_outside (l : list Z) (d : disk) (x : Z) :
  (∀ i, i ∈ l → x < (JOURNAL_START_BLK + i) * BLOCK_SIZE
               ∨ (JOURNAL_START_BLK + i) * BLOCK_SIZE + BLOCK_SIZE ≤ x) →
  foldl (λ d i, write_block d (JOURNAL_START_BLK + i) (zero_bytes BLOCK_SIZE)) d l x
  = d x.
Proof.
  revert d. induction l as [|i l IH]; intros d Hout; simpl; [done|].
  rewrite IH.
  - apply write_block_outside; [apply length_zero_bytes|].
    apply Hout. by left.
  - intros j Hj. apply Hout. by right.
Qed.

Lemma clear_blocks_inside (l : list Z) (d : disk) (x : Z) :
  (∃ i, i ∈ l ∧ (JOURNAL_START_BLK + i) * BLOCK_SIZE ≤ x
               < (JOURNAL_START_BLK + i) * BLOCK_SIZE + BLOCK_SIZE) →
  foldl (λ d i, write_block d (JOURNAL_START_BLK + i) (zero_bytes BLOCK_SIZE)) d l x
  = Byte.x00.
Proof.
  revert d. induction l as [|i l IH] using rev_ind; intros d (j & Hj & Hx).
  { by apply elem_of_nil in Hj. }
  rewrite foldl_app. simpl.
  destruct (decide ((JOURNAL_START_BLK + i) * BLOCK_SIZE ≤ x
                    < (JOURNAL_START_BLK + i) * BLOCK_SIZE + BLOCK_SIZE)) as [Hin|Hout].
  - unfold write_block. rewrite pwrite_inside.
    + apply zero_bytes_lookup. lia.
    + rewrite length_zero_bytes. unfold BLOCK_SIZE in *. lia.
  - rewrite write_block_outside; [|apply length_zero_bytes|lia].
    apply IH. exists j. split; [|done].
    apply elem_of_app in Hj as [Hj|Hj]; [done|].
    apply list_elem_of_singleton in Hj. subst j. lia.
Qed.

Lemma journal_clear_region_inside (d : disk) (x : Z) :
  in_journal x → journal_clear_region d x = Byte.x00.
Proof.
  intros Hx. unfold journal_clear_region. apply clear_blocks_inside.
  exists (x / 4096 - 1). split.
  - apply elem_of_seqZ. layout_lia.
  - layout_lia.
Qed.

Lemma journal_clear_region_outside (d : disk) (x : Z) :
  ¬ in_journal x → journal_clear_region d x = d x.
Proof.
  intros Hx. unfold journal_clear_region. apply clear_blocks_outside.
  intros i Hi. apply elem_of_seqZ in Hi. layout_lia.
Qed.

Lemma record_at_type (d : disk) (used pos : Z) (r : record) :
  record_at d used pos = Some r →
  rh_type (read_rec_header d pos) = match r with DATA _ _ => 1 | COMMIT => 2 end.
Proof.
  unfold record_at. intros H.
  set (rh := read_rec_header d pos) in *. cbv zeta in H.
  destruct (pos + 4 <=? used); [|done].
  destruct ((rh_size rh <? 4) || (pos + rh_size rh >? used)); [done|].
  destruct (rh_type rh =? 1) eqn:H1.
  - destruct (rh_size rh =? 4104); [|done]. inversion H; subst.
    by apply Z.eqb_eq in H1.
  - destruct (rh_type rh =? 2) eqn:H2; [|done].
    destruct (rh_size rh =? 4); [|done]. inversion H; subst.
    by apply Z.eqb_eq in H2.
Qed.

Lemma install_trace_bound (used : Z) (fuel : nat) (st : install_state) (k : Z) :
  0 ≤ is_pos st ≤ used → used ≤ journal_capacity_bytes →
  8 + 4104 * k ≤ is_pos st →
  Z.of_nat (length (is_pending st)) ≤ k →
  Forall (λ s, Z.of_nat (length (is_pending s)) ≤ 15
               ∧ install_step used s ≠ Abort TxnTooLarge)
         (install_trace fuel used st)
  ∧ k + install_data_records fuel used st ≤ 15.
Proof.
  revert st k. induction fuel as [|fuel IH]; intros st k Hpos Hused Hk Hpend;
    pose proof Hused as Hused'; rewrite journal_capacity_bytes_eq in Hused';
    cbn [install_trace install_data_records].
  - split; [|lia]. constructor; [|constructor]. split; [lia|].
    rewrite install_step_record_at by (done || lia).
    destruct (record_at (is_disk st) used (is_pos st)) as [[bno img|]|]; try done.
    destruct (Z.of_nat (length (is_pending st)) >=? INSTALL_PENDING_MAX) eqn:Hfull;
      [|done].
    unfold INSTALL_PENDING_MAX in Hfull. lia.
  - rewrite install_step_record_at by (done || lia).
    destruct (record_at (is_disk st) used (is_pos st)) as [[bno img|]|] eqn:Hr.
    + destruct (Z.of_nat (length (is_pending st)) >=? INSTALL_PENDING_MAX) eqn:Hfull.
      { unfold INSTALL_PENDING_MAX in Hfull. lia. }
      pose proof (record_at_bound _ _ _ _ Hr) as Hb. cbn [record_size] in Hb.
      rewrite (record_at_type _ _ _ _ Hr). change (1 =? REC_DATA) with true.
      match goal with |- context [install_trace fuel used ?s] =>
        destruct (IH s (k + 1)) as [IH1 IH2] end;
        cbn [is_pos is_pending]; try lia.
      { rewrite length_app. cbn [length]. lia. }
      split; [|lia].
      constructor; [|done]. split; [lia|].
      rewrite install_step_record_at, Hr, Hfull by (done || lia). done.
    + pose proof (record_at_bound _ _ _ _ Hr) as Hb. cbn [record_size] in Hb.
      rewrite (record_at_type _ _ _ _ Hr). change (2 =? REC_DATA) with false.
      match goal with |- context [install_trace fuel used ?s] =>
        destruct (IH s k) as [IH1 IH2] end;
        cbn [is_pos is_pending length]; try lia.
      split; [|lia].
      constructor; [|done]. split; [lia|].
      rewrite install_step_record_at, Hr by (done || lia). done.
    + split; [|lia].
      constructor; [|constructor]. split; [lia|].
      rewrite install_step_record_at, Hr by (done || lia). done.
Qed.

Lemma install_init_eq (d : disk) :
  install_init d = {| is_disk := d; is_pos := 8; is_pending := []; is_commits := 0 |}.
Proof. reflexivity. Qed.

Lemma install_loop_valid (d : disk) (jh : journal_header) :
  journal_header_ok jh = true →
  ∃ st, install_loop (scan_fuel jh) (nbytes_used jh) (install_init d) = Ok st.
Proof.
  intros Hok. apply journal_header_ok_bounds in Hok as [_ Hused].
  apply install_loop_ok; rewrite ?install_init_eq, ?journal_capacity_bytes_eq;
    unfold scan_fuel; simpl; lia.
Qed.

(** The abort of a loop iteration is the only way the loop exits. *)
Lemma install_loop_exit (used : Z) (fuel : nat) (st : install_state) (e : error) :
  install_loop fuel used st = Exit e →
  Exists (λ s, install_step used s = Abort e) (install_trace fuel used st).
Proof.
  revert st. induction fuel as [|fuel IH]; intros st; [done|].
  cbn [install_loop install_trace].
  destruct (install_step used st) as [st'| |e'] eqn:Hstep; [|done|].
  - intros H. apply Exists_cons_tl. by apply IH.
  - intros [= ->]. by apply Exists_cons_hd.
Qed.

Lemma cmd_install_unfold (d : disk) :
  cmd_install d =
    let jh := journal_read_header d in
    if journal_header_ok jh then
      match install_loop (scan_fuel jh) (nbytes_used jh) (install_init d) with
      | Ok st =>
          Ok (journal_write_header (journal_clear_region (is_disk st)) fresh_header,
              is_commits st)
      | Exit e => Exit e
      | OutOfFuel => OutOfFuel
      end
    else Exit JournalMissing.
Proof.
  unfold cmd_install, journal_fail_if_missing. cbv zeta.
  destruct (journal_header_ok (journal_read_header d)); [|done].
  cbn [mbind result_bind].
  by destruct (install_loop _ _ _).
Qed.

(** C9.  For every journal header accepted by install's validation, the
    install scan reads at most 15 DATA records in total, its pending array
    never holds more than 15 entries, no iteration takes the
    "too many records" exit, and so the command never exits with
    [TxnTooLarge]. *)
Theorem install_pending_never_full (d : disk) :
  journal_header_ok (journal_read_header d) = true →
  let jh := journal_read_header d in
  let trace := install_trace (scan_fuel jh) (nbytes_used jh) (install_init d) in
  install_data_records (scan_fuel jh) (nbytes_used jh) (install_init d) ≤ 15
  ∧ Forall (λ st, Z.of_nat (length (is_pending st)) ≤ 15
                  ∧ Z.of_nat (length (is_pending st)) < INSTALL_PENDING_MAX
                  ∧ install_step (nbytes_used jh) st ≠ Abort TxnTooLarge) trace
  ∧ cmd_install d ≠ Exit TxnTooLarge.
Proof.
  intros Hok jh trace. subst trace.
  pose proof (journal_header_ok_bounds _ Hok) as [_ Hused]. fold jh in Hused, Hok.
  destruct (install_trace_bound (nbytes_used jh) (scan_fuel jh) (install_init d) 0)
    as [Htr Hcount].
  { rewrite install_init_eq. cbn [is_pos]. lia. }
  { rewrite journal_capacity_bytes_eq. lia. }
  { rewrite install_init_eq. cbn [is_pos]. lia. }
  { rewrite install_init_eq. cbn [is_pending length]. lia. }
  split; [lia|]. split.
  - eapply Forall_impl; [exact Htr|]. intros st [H1 H2].
    unfold INSTALL_PENDING_MAX. split; [done|]. split; [lia|done].
  - rewrite cmd_install_unfold. cbv zeta. fold jh. rewrite Hok.
    destruct (install_loop_valid d jh Hok) as [st ->]. done.
Qed.

Lemma fresh_header_eq : fresh_header = {| magic := JOURNAL_MAGIC; nbytes_used := 8 |}.
Proof. reflexivity. Qed.

(** The journal region after [journal_clear_region] and a fresh header. *)
Lemma journal_reset_region (d : disk) :
  pread (journal_write_header (journal_clear_region d) fresh_header)
        (JOURNAL_BLOCKS * BLOCK_SIZE) journal_base_off
  = encode_journal_header fresh_header ++ zero_bytes (JOURNAL_BLOCKS * BLOCK_SIZE - 8).
Proof.
  apply list_eq. intros i.
  destruct (decide (Z.of_nat i < JOURNAL_BLOCKS * BLOCK_SIZE)) as [Hi|Hi].
  - rewrite lookup_pread by done.
    destruct (decide (i < 8)%nat) as [Hh|Hh].
    + unfold journal_write_header.
      rewrite pwrite_inside by (rewrite length_encode_journal_header; lia).
      rewrite lookup_app_l by (rewrite length_encode_journal_header; lia).
      replace (Z.to_nat (journal_base_off + Z.of_nat i - journal_base_off)) with i by lia.
      symmetry. apply list_lookup_lookup_total_lt.
      rewrite length_encode_journal_header. lia.
    + rewrite journal_write_header_outside by lia.
      rewrite journal_clear_region_inside by layout_lia.
      rewrite lookup_app_r by (rewrite length_encode_journal_header; lia).
      rewrite length_encode_journal_header. unfold zero_bytes.
      symmetry. apply lookup_replicate_2. layout_lia.
  - rewrite !lookup_ge_None_2; [done| |].
    + rewrite length_app, length_encode_journal_header, length_zero_bytes. layout_lia.
    + rewrite length_pread. lia.
Qed.

(** C5.  For every valid journal header, [install] returns normally and
    leaves the 16-block journal region holding a fresh header (magic
    0x4A524E4C, [nbytes_used = 8]) followed by zeros only, whatever records
    the scan met. *)
Theorem install_resets_journal (d : disk) :
  journal_header_ok (journal_read_header d) = true →
  ∃ d' commits,
    cmd_install d = Ok (d', commits)
    ∧ journal_read_header d' = {| magic := 0x4A524E4C; nbytes_used := 8 |}
    ∧ pread d' (JOURNAL_BLOCKS * BLOCK_SIZE) journal_base_off
      = encode_journal_header {| magic := 0x4A524E4C; nbytes_used := 8 |}
        ++ zero_bytes (JOURNAL_BLOCKS * BLOCK_SIZE - 8).
Proof.
  intros Hok. rewrite cmd_install_unfold. cbv zeta. rewrite Hok.
  destruct (install_loop_valid d _ Hok) as [st ->].
  eexists _, _. split; [done|]. split.
  - by rewrite journal_read_write_header.
  - apply journal_reset_region.
Qed.

(** C6.  Running [install] twice in a row gives the image that running it
    once gives: after the first run the header has [nbytes_used = 8], the
    second run applies zero commits and changes no byte of the image. *)
Theorem install_idempotent (d : disk) :
  journal_header_ok (journal_read_header d) = true →
  ∃ d1 commits d2,
    cmd_install d = Ok (d1, commits)
    ∧ nbytes_used (journal_read_header d1) = 8
    ∧ cmd_install d1 = Ok (d2, 0)
    ∧ ∀ x, d2 x = d1 x.
Proof.
  intros Hok. rewrite cmd_install_unfold. cbv zeta. rewrite Hok.
  destruct (install_loop_valid d _ Hok) as [st ->].
  set (d1 := journal_write_header (journal_clear_region (is_disk st)) fresh_header).
  assert (journal_read_header d1 = fresh_header) as Hjh.
  { subst d1. by rewrite journal_read_write_header. }
  exists d1, (is_commits st), (journal_write_header (journal_clear_region d1) fresh_header).
  split; [done|]. split; [by rewrite Hjh|]. split.
  - rewrite cmd_install_unfold. cbv zeta. rewrite Hjh. done.
  - intros x.
    destruct (decide (journal_base_off ≤ x < journal_base_off + 8)) as [Hh|Hh].
    + subst d1. unfold journal_write_header.
      by rewrite !pwrite_inside by (rewrite length_encode_journal_header; lia).
    + rewrite journal_write_header_outside by lia.
      destruct (decide (in_journal x)) as [Hj|Hj].
      * rewrite journal_clear_region_inside by done.
        subst d1. rewrite journal_write_header_outside by lia.
        by rewrite journal_clear_region_inside.
      * by rewrite journal_clear_region_outside.
Qed.

(** ** Decoding what the append functions encode *)

Lemma pread_sub (d : disk) (n off : Z) (bs : list byte) (k m : Z) :
  pread d n off = bs → 0 ≤ k → 0 ≤ m → k + m ≤ n →
  pread d m (off + k) = take (Z.to_nat m) (drop (Z.to_nat k) bs).
Proof.
  intros <- Hk Hm Hn.
  replace n with (k + (m + (n - k - m))) by lia.
  rewrite pread_app by lia. rewrite pread_app by lia.
  rewrite drop_app_length' by (rewrite length_pread; lia).
  rewrite take_app_length' by (rewrite length_pread; lia).
  done.
Qed.

Lemma length_encode_rec_header (rh : rec_header) : length (encode_rec_header rh) = 4%nat.
Proof. unfold encode_rec_header. by rewrite length_app, !length_le_split. Qed.

Lemma decode_encode_rec_header (rh : rec_header) (rest : list byte) :
  0 ≤ rh_type rh < 2 ^ 16 → 0 ≤ rh_size rh < 2 ^ 16 →
  decode_rec_header (take 4 (encode_rec_header rh ++ rest)) = rh.
Proof.
  intros Ht Hs. destruct rh as [t s]. cbn [rh_type rh_size] in *.
  rewrite take_app_length' by (by rewrite length_encode_rec_header).
  unfold decode_rec_header, encode_rec_header. cbn [rh_type rh_size].
  f_equal.
  - rewrite get_u16_le_split. by apply Z.mod_small.
  - unfold get_u16. change (Z.to_nat 2) with 2%nat.
    rewrite drop_app_length' by (by rewrite length_le_split).
    rewrite firstn_all2 by (by rewrite length_le_split).
    rewrite (le_combine_split 2). by apply Z.mod_small.
Qed.

Lemma length_encode_record (r : record) :
  record_wf r → Z.of_nat (length (encode_record r)) = record_size r.
Proof.
  destruct r as [bno img|]; cbn [encode_record record_wf record_size].
  - intros [_ Hlen]. rewrite !length_app, length_encode_rec_header, length_le_split, Hlen.
    unfold BLOCK_SIZE. lia.
  - intros _. by rewrite length_encode_rec_header.
Qed.

Lemma record_at_encoded (d : disk) (used pos : Z) (r : record) :
  record_wf r → 0 ≤ pos → pos + record_size r ≤ used →
  pread d (record_size r) (journal_base_off + pos) = encode_record r →
  record_at d used pos = Some r.
Proof.
  intros Hwf Hpos Hused Hbytes. unfold record_at.
  pose proof (record_size_pos r) as Hsz.
  destruct (pos + 4 <=? used) eqn:Hle; [|lia].
  assert (read_rec_header d pos =
          match r with
          | DATA _ _ => {| rh_type := 1; rh_size := 4104 |}
          | COMMIT => {| rh_type := 2; rh_size := 4 |}
          end) as Hrh.
  { unfold read_rec_header. change SIZEOF_REC_HEADER with 4.
    replace (journal_base_off + pos) with (journal_base_off + pos + 0) by lia.
    rewrite (pread_sub _ _ _ _ 0 4 Hbytes) by lia.
    change (Z.to_nat 0) with 0%nat. rewrite drop_0. change (Z.to_nat 4) with 4%nat.
    destruct r; cbn [encode_record].
    - by rewrite decode_encode_rec_header.
    - rewrite <- (app_nil_r (encode_rec_header _)).
      by rewrite decode_encode_rec_header. }
  rewrite Hrh. destruct r as [bno img|]; cbn [rh_type rh_size record_size] in *.
  - destruct (pos + 4104 >? used) eqn:Hgt; [lia|]. simpl.
    destruct Hwf as [Hbno Himg].
    f_equal. f_equal.
    + unfold read_rec_block_no. change SIZEOF_U32 with 4. change SIZEOF_REC_HEADER with 4.
      rewrite (pread_sub _ _ _ _ 4 4 Hbytes) by lia.
      cbn [encode_record]. change (Z.to_nat 4) with 4%nat.
      rewrite drop_app_length' by (by rewrite length_encode_rec_header).
      rewrite take_app_length' by (by rewrite length_le_split).
      rewrite (le_combine_split 4). by apply Z.mod_small.
    + unfold read_rec_image. change SIZEOF_U32 with 4. change SIZEOF_REC_HEADER with 4.
      replace (journal_base_off + pos + 4 + 4) with (journal_base_off + pos + 8) by lia.
      rewrite (pread_sub _ _ _ _ 8 BLOCK_SIZE Hbytes) by (unfold BLOCK_SIZE; lia).
      cbn [encode_record]. rewrite app_assoc.
      rewrite drop_app_length'
        by (rewrite length_app, length_encode_rec_header, length_le_split; lia).
      apply firstn_all2. lia.
  - destruct (pos + 4 >? used) eqn:Hgt; [lia|]. done.
Qed.

Lemma records_from_mono (fuel fuel' : nat) (d : disk) (used pos : Z) :
  Z.max 0 (used - pos) < 4 * Z.of_nat fuel → (fuel ≤ fuel')%nat →
  records_from fuel' d used pos = records_from fuel d used pos.
Proof.
  revert fuel' pos. induction fuel as [|fuel IH]; intros fuel' pos Hfuel Hle; [lia|].
  destruct fuel' as [|fuel']; [lia|]. cbn [records_from].
  destruct (record_at d used pos) as [r|] eqn:Hr; [|done].
  pose proof (record_at_bound _ _ _ _ Hr). pose proof (record_size_pos r).
  f_equal. apply IH; lia.
Qed.

Lemma records_from_encoded (d : disk) (used : Z) (recs : list record) (fuel : nat) (pos : Z) :
  Forall record_wf recs → 0 ≤ pos →
  pos + Z.of_nat (length (encode_records recs)) ≤ used →
  Z.max 0 (used - pos) < 4 * Z.of_nat fuel →
  pread d (Z.of_nat (length (encode_records recs))) (journal_base_off + pos)
    = encode_records recs →
  records_from fuel d used pos
  = recs ++ records_from fuel d used (pos + Z.of_nat (length (encode_records recs))).
Proof.
  revert fuel pos. induction recs as [|r recs IH]; intros fuel pos Hwf Hpos Hused Hfuel Hb.
  { simpl. by rewrite Z.add_0_r. }
  inversion Hwf as [|? ? Hr Hrecs]; subst.
  cbn [encode_records] in *. rewrite length_app, Nat2Z.inj_add in *.
  pose proof (length_encode_record r Hr) as Hlen. pose proof (record_size_pos r) as Hsz.
  destruct fuel as [|fuel]; [lia|].
  rewrite (records_from_mono fuel (S fuel) d used
             (pos + (Z.of_nat (length (encode_record r))
                     + Z.of_nat (length (encode_records recs))))) by lia.
  cbn [records_from].
  rewrite (record_at_encoded d used pos r); [|done|done|lia|].
  2:{ replace (journal_base_off + pos) with (journal_base_off + pos + 0) by lia.
      rewrite (pread_sub _ _ _ _ 0 (record_size r) Hb) by lia.
      change (Z.to_nat 0) with 0%nat. rewrite drop_0.
      apply take_app_length'. lia. }
  cbn [app]. f_equal.
  rewrite (IH fuel (pos + record_size r)); [|done|lia|lia|lia|].
  - do 2 f_equal. lia.
  - replace (journal_base_off + (pos + record_size r))
      with (journal_base_off + pos + record_size r) by lia.
    rewrite (pread_sub _ _ _ _ (record_size r) _ Hb) by lia.
    rewrite drop_app_length' by lia. rewrite Nat2Z.id. apply firstn_all.
Qed.

(** ** A transaction cut short *)

Lemma transactions_from_data_only (ds : list record) (cur : list logged_image) :
  Forall (λ r, r ≠ COMMIT) ds → transactions_from cur ds = [].
Proof.
  revert cur. induction ds as [|r ds IH]; intros cur Hds; [done|].
  inversion Hds as [|? ? Hr Hds']; subst.
  destruct r as [bno img|]; [|done]. simpl. by apply IH.
Qed.

Lemma transactions_from_app_data (recs ds : list record) (cur : list logged_image) :
  Forall (λ r, r ≠ COMMIT) ds →
  transactions_from cur (recs ++ ds) = transactions_from cur recs.
Proof.
  intros Hds. revert cur. induction recs as [|r recs IH]; intros cur; simpl.
  - by apply transactions_from_data_only.
  - destruct r; [apply IH|]. f_equal. apply IH.
Qed.

Lemma records_from_partial (d : disk) (used : Z) (txn : list logged_image)
    (fuel : nat) (pos : Z) (tail rest : list byte) :
  Forall (λ p, record_wf (data_record p)) txn →
  tail ++ rest = encode_records (transaction_records txn) → rest ≠ [] →
  0 ≤ pos → used = pos + Z.of_nat (length tail) →
  pread d (Z.of_nat (length tail)) (journal_base_off + pos) = tail →
  Forall (λ r, r ≠ COMMIT) (records_from fuel d used pos).
Proof.
  revert fuel pos tail.
  induction txn as [|p txn IH]; intros fuel pos tail Hwf Hsplit Hrest Hpos Hused Hb;
    (destruct fuel as [|fuel]; [constructor|]); cbn [records_from].
  - assert (length tail < 4)%nat as Hlt.
    { apply (f_equal length) in Hsplit. rewrite length_app in Hsplit.
      cbn in Hsplit. destruct rest; [done|]. simpl in Hsplit. lia. }
    unfold record_at. destruct (pos + 4 <=? used) eqn:Hle; [lia|]. constructor.
  - apply Forall_cons in Hwf as [Hp Hwf'].
    unfold transaction_records in Hsplit. cbn [map app encode_records] in Hsplit.
    fold (transaction_records txn) in Hsplit.
    pose proof (length_encode_record _ Hp) as Hlen.
    cbn [record_size data_record] in Hlen. fold (data_record p) in Hlen.
    destruct (decide (4104 ≤ Z.of_nat (length tail))) as [Hlong|Hshort].
    + assert (tail = encode_record (data_record p) ++ drop 4104 tail) as Htail.
      { rewrite <- (take_drop 4104 tail) at 1. f_equal.
        apply (f_equal (take 4104)) in Hsplit.
        rewrite take_app_le in Hsplit by lia.
        rewrite take_app_length' in Hsplit by lia. done. }
      rewrite (record_at_encoded d _ pos (data_record p));
        cbn [record_size data_record]; [|done|done|lia|].
      2:{ replace (journal_base_off + pos) with (journal_base_off + pos + 0) by lia.
          rewrite (pread_sub _ _ _ _ 0 4104 Hb) by lia.
          change (Z.to_nat 0) with 0%nat. rewrite drop_0. rewrite Htail.
          apply take_app_length'. lia. }
      constructor; [done|]. cbn [data_record record_size].
      apply (IH fuel (pos + 4104) (drop 4104 tail)); try done; try lia.
      * rewrite Htail in Hsplit. rewrite <- app_assoc in Hsplit.
        by apply app_inv_head in Hsplit.
      * rewrite length_drop. lia.
      * rewrite length_drop.
        replace (journal_base_off + (pos + 4104)) with (journal_base_off + pos + 4104) by lia.
        rewrite (pread_sub _ _ _ _ 4104 _ Hb) by lia.
        change (Z.to_nat 4104) with 4104%nat.
        apply firstn_all2. rewrite length_drop. lia.
    + unfold record_at. destruct (pos + 4 <=? used) eqn:Hle; [|constructor].
      apply Z.leb_le in Hle.
      assert (read_rec_header d pos = {| rh_type := 1; rh_size := 4104 |}) as ->.
      { unfold read_rec_header. change SIZEOF_REC_HEADER with 4.
        replace (journal_base_off + pos) with (journal_base_off + pos + 0) by lia.
        rewrite (pread_sub _ _ _ _ 0 4 Hb) by lia.
        change (Z.to_nat 0) with 0%nat. rewrite drop_0. change (Z.to_nat 4) with 4%nat.
        apply (f_equal (take 4)) in Hsplit.
        rewrite take_app_le in Hsplit by lia. rewrite Hsplit.
        cbn [data_record encode_record]. rewrite <- !app_assoc.
        by rewrite decode_encode_rec_header. }
      cbn [rh_size rh_type].
      destruct (pos + 4104 >? used) eqn:Hgt; [|lia]. constructor.
Qed.

Lemma journal_records_truncated (d : disk) (used : Z) (recs : list record)
    (txn : list logged_image) (tail rest : list byte) :
  Forall record_wf recs →
  Forall (λ p, record_wf (data_record p)) txn →
  tail ++ rest = encode_records (transaction_records txn) → rest ≠ [] →
  used = 8 + Z.of_nat (length (encode_records recs)) + Z.of_nat (length tail) →
  pread d (used - 8) (journal_base_off + 8) = encode_records recs ++ tail →
  committed_transactions (journal_records d used) = committed_transactions recs.
Proof.
  intros Hwf Htxn Hsplit Hrest Hused Hb.
  unfold committed_transactions, journal_records.
  rewrite (records_from_encoded d used recs); [|done|lia|lia|lia|].
  - apply transactions_from_app_data.
    apply (records_from_partial d used txn _ _ tail rest); try done; try lia.
    replace (journal_base_off + (8 + Z.of_nat (length (encode_records recs))))
      with (journal_base_off + 8 + Z.of_nat (length (encode_records recs))) by lia.
    rewrite (pread_sub _ _ _ _ _ _ Hb) by lia.
    rewrite !Nat2Z.id, drop_app_length. apply firstn_all.
  - replace (journal_base_off + 8) with (journal_base_off + 8 + 0) in Hb |- * by lia.
    rewrite (pread_sub _ _ _ _ 0 _ Hb) by lia.
    change (Z.to_nat 0) with 0%nat. rewrite drop_0, Nat2Z.id.
    by rewrite take_app_length.
Qed.

Lemma records_from_at_end (fuel : nat) (d : disk) (used pos : Z) :
  used < pos + 4 → records_from fuel d used pos = [].
Proof.
  intros H. destruct fuel; [done|]. cbn [records_from]. unfold record_at.
  destruct (pos + 4 <=? used) eqn:Hle; [lia|done].
Qed.

(** ** The records the record area holds *)

Lemma le_split_le_combine4 (b : list byte) :
  length b = 4%nat →
  le_split 2 (le_combine (take 2 b)) ++ le_split 2 (le_combine (take 2 (drop 2 b))) = b.
Proof.
  intros Hlen.
  rewrite (split_le_combine' (take 2 b)) by (rewrite length_take; lia).
  rewrite (split_le_combine' (take 2 (drop 2 b)))
    by (rewrite length_take, length_drop; lia).
  rewrite (take_ge (drop 2 b)) by (rewrite length_drop; lia).
  apply take_drop.
Qed.

(** What the scan decodes at a position is what is encoded there. *)
Lemma record_at_decoded (d : disk) (used pos : Z) (r : record) :
  record_at d used pos = Some r →
  pread d (record_size r) (journal_base_off + pos) = encode_record r.
Proof.
  unfold record_at. destruct (pos + 4 <=? used); [|done].
  unfold read_rec_header, decode_rec_header. cbn [rh_type rh_size].
  change SIZEOF_REC_HEADER with 4.
  set (hdr := pread d 4 (journal_base_off + pos)).
  assert (length hdr = 4%nat) as Hhdr by (subst hdr; by rewrite length_pread).
  pose proof (le_split_le_combine4 hdr Hhdr) as Hsplit.
  unfold get_u16. change (Z.to_nat 0) with 0%nat. change (Z.to_nat 2) with 2%nat.
  rewrite drop_0.
  destruct ((le_combine (take 2 (drop 2 hdr)) <? 4)
            || (pos + le_combine (take 2 (drop 2 hdr)) >? used)); [done|].
  destruct (le_combine (take 2 hdr) =? 1) eqn:Ht.
  - destruct (le_combine (take 2 (drop 2 hdr)) =? 4104) eqn:Hs; [|done].
    intros [= <-]. apply Z.eqb_eq in Ht, Hs. rewrite Ht, Hs in Hsplit.
    cbn [record_size encode_record].
    unfold read_rec_block_no, read_rec_image. change SIZEOF_U32 with 4.
    change SIZEOF_REC_HEADER with 4.
    change 4104 with (4 + (4 + BLOCK_SIZE)).
    rewrite pread_app by (unfold BLOCK_SIZE; lia).
    rewrite pread_app by (unfold BLOCK_SIZE; lia).
    fold hdr. unfold encode_rec_header. cbn [rh_type rh_size].
    change REC_DATA with 1. change DATA_REC_SIZE with 4104. rewrite Hsplit.
    rewrite (split_le_combine' (pread d 4 (journal_base_off + pos + 4)))
      by (by rewrite length_pread).
    done.
  - destruct (le_combine (take 2 hdr) =? 2) eqn:Ht2; [|done].
    destruct (le_combine (take 2 (drop 2 hdr)) =? 4) eqn:Hs; [|done].
    intros [= <-]. apply Z.eqb_eq in Ht2, Hs. rewrite Ht2, Hs in Hsplit.
    cbn [record_size encode_record]. fold hdr.
    unfold encode_rec_header. cbn [rh_type rh_size]. done.
Qed.

Lemma records_from_decoded (fuel : nat) (d : disk) (used pos : Z) :
  pos ≤ used → Z.max 0 (used - pos) < 4 * Z.of_nat fuel →
  let recs := records_from fuel d used pos in
  let len := Z.of_nat (length (encode_records recs)) in
  pos + len ≤ used
  ∧ pread d len (journal_base_off + pos) = encode_records recs
  ∧ record_at d used (pos + len) = None.
Proof.
  revert pos. induction fuel as [|fuel IH]; intros pos Hpos Hfuel; [lia|].
  cbv zeta. cbn [records_from].
  destruct (record_at d used pos) as [r|] eqn:Hr.
  - pose proof (record_at_bound _ _ _ _ Hr) as Hb.
    pose proof (record_size_pos r) as Hsz.
    pose proof (record_at_wf _ _ _ _ Hr) as Hwf.
    pose proof (record_at_decoded _ _ _ _ Hr) as Hdec.
    destruct (Z.eq_dec (pos + record_size r) used) as [Hend|Hmore].
    + rewrite records_from_at_end by lia.
      cbn [encode_records]. rewrite app_nil_r, (length_encode_record r Hwf).
      split; [lia|]. split; [done|].
      unfold record_at. destruct (pos + record_size r + 4 <=? used) eqn:Hle; [lia|done].
    + destruct (IH (pos + record_size r)) as (I1 & I2 & I3); [lia|lia|].
      cbv zeta in I1, I2, I3.
      cbn [encode_records]. rewrite length_app, Nat2Z.inj_add, (length_encode_record r Hwf).
      split; [lia|]. split.
      * rewrite pread_app by lia. rewrite Hdec. f_equal.
        by replace (journal_base_off + pos + record_size r)
          with (journal_base_off + (pos + record_size r)) by lia.
      * by replace (pos + (record_size r + Z.of_nat (length (encode_records
                      (records_from fuel d used (pos + record_size r))))))
          with (pos + record_size r + Z.of_nat (length (encode_records
                      (records_from fuel d used (pos + record_size r))))) by lia.
  - cbn [encode_records length]. rewrite Z.add_0_r. split; [lia|]. split; [|done].
    reflexivity.
Qed.

Lemma journal_records_hold (d : disk) (used : Z) :
  8 ≤ used → record_area_holds d used (journal_records d used).
Proof.
  intros Hused. unfold record_area_holds, journal_records. cbv zeta.
  destruct (records_from_decoded (Z.to_nat used) d used 8) as (H1 & H2 & H3);
    [lia|lia|]. cbv zeta in H1, H2, H3.
  split; [apply records_from_wf|]. split; [done|]. split; [done|].
  intros r Hwf Hfit Hbytes.
  rewrite (record_at_encoded d used _ r) in H3; [done|done|lia|lia|].
  by replace (journal_base_off + (8 + Z.of_nat (length (encode_records
                (records_from (Z.to_nat used) d used 8)))))
    with (journal_base_off + 8 + Z.of_nat (length (encode_records
                (records_from (Z.to_nat used) d used 8)))) by lia.
Qed.

Lemma record_area_holds_unique (d : disk) (used : Z) (recs : list record) :
  record_area_holds d used recs → journal_records d used = recs.
Proof.
  intros (Hwf & Hfit & Hbytes & Hmax). cbv zeta in *.
  pose proof (Nat2Z.is_nonneg (length (encode_records recs))) as Hnn.
  unfold journal_records.
  rewrite (records_from_encoded d used recs) by (done || lia).
  set (pos := 8 + Z.of_nat (length (encode_records recs))) in *.
  destruct (Z.to_nat used) as [|fuel] eqn:Hf; [lia|]. cbn [records_from].
  destruct (record_at d used pos) as [r|] eqn:Hr; [|by rewrite app_nil_r].
  exfalso. apply (Hmax r).
  - by eapply record_at_wf.
  - apply record_at_bound in Hr. lia.
  - apply record_at_decoded in Hr.
    by replace (journal_base_off + 8 + Z.of_nat (length (encode_records recs)))
      with (journal_base_off + pos) by (subst pos; lia).
Qed.

(** C1.  For every journal whose header is valid, the record area holds a
    list of records (the encodings [journal_append_data] and
    [journal_append_commit] lay out, back to back from offset 8, up to the
    first position that holds no further record below [nbytes_used]); and
    for the records it holds, the committed-view overlay built by
    [journal_collect_latest_committed] maps each block number to the
    4096-byte image of the last DATA record for that block in the latest
    committed transaction that mentions it.  Blocks that no committed
    transaction mentions, and the DATA records after the final COMMIT,
    have no entry. *)
Theorem overlay_latest_committed (d : disk) (jh : journal_header) :
  journal_header_ok jh = true →
  (∃ recs, record_area_holds d (nbytes_used jh) recs)
  ∧ ∀ recs, record_area_holds d (nbytes_used jh) recs →
      ∃ latest,
        journal_collect_latest_committed (scan_fuel jh) d jh LATEST_MAX = Ok latest
        ∧ (∀ bno, logged_image_find latest bno
                  = spec_overlay (committed_transactions recs) bno)
        ∧ (∀ bno img, logged_image_find latest bno = Some img →
                      length img = Z.to_nat BLOCK_SIZE).
Proof.
  intros Hok. pose proof (journal_header_ok_bounds jh Hok) as [_ Hused].
  split.
  - exists (journal_records d (nbytes_used jh)). apply journal_records_hold. lia.
  - intros recs Hholds. apply record_area_holds_unique in Hholds.
    destruct (collect_valid_header d jh Hok) as (latest & Hrun & Hfind & Hlen).
    exists latest. split; [done|]. split; [|done].
    intros bno. by rewrite Hfind, Hholds.
Qed.

(** [install] writes the committed transactions through, in order, and
    resets the journal, as long as no logged block lies inside the journal
    region itself. *)
Lemma cmd_install_spec (d : disk) :
  let jh := journal_read_header d in
  let txns := committed_transactions (journal_records d (nbytes_used jh)) in
  journal_header_ok jh = true →
  Forall (Forall (λ p, live_block (block_no p))) txns →
  cmd_install d
  = Ok (journal_write_header (journal_clear_region (install_transactions d txns))
                             fresh_header,
        Z.of_nat (length txns)).
Proof.
  intros jh txns Hok Hlive. subst txns.
  pose proof (journal_header_ok_bounds _ Hok) as [_ Hused].
  rewrite cmd_install_unfold. cbv zeta. fold jh. rewrite Hok.
  destruct (install_loop_records (nbytes_used jh) (scan_fuel jh) (install_init d))
    as (st & -> & Hd & Hc).
  - rewrite install_init_eq. cbn [is_pos]. lia.
  - rewrite journal_capacity_bytes_eq. lia.
  - rewrite install_init_eq. cbn [is_pos]. unfold scan_fuel. lia.
  - rewrite install_init_eq. cbn [is_pos is_pending length]. lia.
  - rewrite install_init_eq. constructor.
  - exact Hlive.
  - rewrite install_init_eq in Hd, Hc. cbn [is_disk is_pos is_pending is_commits] in Hd, Hc.
    rewrite Hd, Hc. unfold committed_transactions, journal_records, scan_fuel.
    do 2 f_equal.
Qed.

(** C2.  Let the record area hold the encoding of the records [recs]
    followed by a strict prefix [tail] of the encoding of one more
    transaction (its DATA records and its COMMIT), with [nbytes_used]
    ending at that prefix: the journal a crash leaves between the first
    append of the transaction and the header update behind its COMMIT,
    whatever bytes lie beyond.  Then the overlay is the overlay of the
    transactions committed in [recs] alone: the cut transaction contributes
    none of its blocks.  And when every committed DATA record of [recs]
    names a block outside the journal region (blocks 1..16), so that
    [install] does not write into the record area it is reading, [install]
    writes exactly the transactions committed in [recs] and reports their
    number: it writes none of the blocks of the cut transaction. *)
Theorem truncated_transaction_invisible (d : disk) (recs : list record)
    (txn : list logged_image) (tail rest : list byte) :
  let jh := journal_read_header d in
  journal_header_ok jh = true →
  Forall record_wf recs →
  Forall (λ p, record_wf (data_record p)) txn →
  tail ++ rest = encode_records (transaction_records txn) → rest ≠ [] →
  nbytes_used jh = 8 + Z.of_nat (length (encode_records recs)) + Z.of_nat (length tail) →
  pread d (nbytes_used jh - 8) (journal_base_off + 8) = encode_records recs ++ tail →
  (∃ latest,
      journal_collect_latest_committed (scan_fuel jh) d jh LATEST_MAX = Ok latest
      ∧ ∀ bno, logged_image_find latest bno
               = spec_overlay (committed_transactions recs) bno)
  ∧ (Forall (Forall (λ p, live_block (block_no p))) (committed_transactions recs) →
     cmd_install d
     = Ok (journal_write_header
             (journal_clear_region
                (install_transactions d (committed_transactions recs)))
             fresh_header,
           Z.of_nat (length (committed_transactions recs)))).
Proof.
  intros jh Hok Hwf Htxn Hsplit Hrest Hused Hb.
  pose proof (journal_records_truncated d (nbytes_used jh) recs txn tail rest
                Hwf Htxn Hsplit Hrest Hused Hb) as Hrecs.
  split.
  - destruct (collect_valid_header d jh Hok) as (latest & Hrun & Hfind & _).
    exists latest. split; [done|]. intros bno. by rewrite Hfind, Hrecs.
  - intros Hlive. rewrite cmd_install_spec; fold jh; rewrite ?Hrecs; done.
Qed.

(** ** Appending to the journal *)

Lemma journal_append_bytes_spec (d : disk) (jh : journal_header) (src : list byte) :
  0 ≤ magic jh < 2 ^ 32 → 8 ≤ nbytes_used jh →
  nbytes_used jh + Z.of_nat (length src) ≤ journal_capacity_bytes →
  ∃ d' jh', journal_append_bytes d jh src = Ok (d', jh') ∧ appended d jh d' jh' src.
Proof.
  intros Hm Hlo Hhi. rewrite journal_capacity_bytes_eq in Hhi.
  unfold journal_append_bytes. cbv zeta.
  rewrite u32_small by lia. rewrite journal_capacity_bytes_eq.
  destruct (nbytes_used jh + Z.of_nat (length src) >? 65536) eqn:Hgt; [lia|].
  eexists _, _. split; [done|]. unfold appended. cbn [magic nbytes_used].
  split; [done|]. split; [done|]. split; [|split].
  - apply journal_read_write_header; cbn [magic nbytes_used]; lia.
  - unfold journal_write_header.
    rewrite pread_pwrite_disjoint by (rewrite length_encode_journal_header; lia).
    apply pread_pwrite_same.
  - intros x Hx1 Hx2. rewrite journal_write_header_outside by lia.
    apply pwrite_outside. lia.
Qed.

Lemma appended_trans (d d1 d2 : disk) (jh jh1 jh2 : journal_header) (b1 b2 : list byte) :
  8 ≤ nbytes_used jh →
  appended d jh d1 jh1 b1 → appended d1 jh1 d2 jh2 b2 →
  appended d jh d2 jh2 (b1 ++ b2).
Proof.
  intros Hlo (Hm1 & Hu1 & Hh1 & Hb1 & Hf1) (Hm2 & Hu2 & Hh2 & Hb2 & Hf2).
  unfold appended. rewrite length_app, Nat2Z.inj_add.
  split; [congruence|]. split; [lia|]. split; [done|]. split.
  - rewrite pread_app by lia. f_equal.
    + etrans; [|exact Hb1]. apply pread_ext. intros x Hx. apply Hf2; lia.
    + etrans; [|exact Hb2]. f_equal. lia.
  - intros x Hx1 Hx2. rewrite Hf2 by lia. apply Hf1; lia.
Qed.

Lemma appended_nil (d : disk) (jh : journal_header) :
  journal_read_header d = jh → appended d jh d jh [].
Proof.
  intros H. unfold appended. simpl. split; [done|]. split; [lia|]. done.
Qed.

Lemma journal_append_data_spec (d : disk) (jh : journal_header) (bno : Z) (img : list byte) :
  0 ≤ magic jh < 2 ^ 32 → 8 ≤ nbytes_used jh →
  length img = Z.to_nat BLOCK_SIZE →
  nbytes_used jh + 4104 ≤ journal_capacity_bytes →
  ∃ d' jh', journal_append_data d jh bno img = Ok (d', jh')
    ∧ appended d jh d' jh' (encode_record (DATA bno img)).
Proof.
  intros Hm Hlo Himg Hhi. unfold journal_append_data. cbv zeta.
  destruct (journal_append_bytes_spec d jh
              (encode_rec_header {| rh_type := REC_DATA; rh_size := DATA_REC_SIZE |}))
    as (d1 & jh1 & -> & Ha1); [done|done|rewrite length_encode_rec_header; lia|].
  cbn [mbind result_bind].
  pose proof Ha1 as (Hm1 & Hu1 & _). rewrite length_encode_rec_header in Hu1.
  destruct (journal_append_bytes_spec d1 jh1 (le_split 4 bno))
    as (d2 & jh2 & -> & Ha2); [lia|lia|rewrite length_le_split; lia|].
  cbn [mbind result_bind].
  pose proof Ha2 as (Hm2 & Hu2 & _). rewrite length_le_split in Hu2.
  destruct (journal_append_bytes_spec d2 jh2 img)
    as (d3 & jh3 & -> & Ha3); [lia|lia|rewrite Himg; unfold BLOCK_SIZE; lia|].
  eexists _, _. split; [done|]. cbn [encode_record].
  eapply appended_trans; [done|exact Ha1|].
  eapply appended_trans; [lia|exact Ha2|exact Ha3].
Qed.

Lemma journal_append_commit_spec (d : disk) (jh : journal_header) :
  0 ≤ magic jh < 2 ^ 32 → 8 ≤ nbytes_used jh →
  nbytes_used jh + 4 ≤ journal_capacity_bytes →
  ∃ d' jh', journal_append_commit d jh = Ok (d', jh')
    ∧ appended d jh d' jh' (encode_record COMMIT).
Proof.
  intros Hm Hlo Hhi. unfold journal_append_commit. cbv zeta.
  cbn [encode_record].
  apply journal_append_bytes_spec; [done|done|].
  rewrite length_encode_rec_header. lia.
Qed.

(** ** Inode allocation *)

Lemma find_free_from_spec (bm : list byte) (i : Z) (n : nat) :
  (find_free_from bm i n = u32 (-1)
   ∧ ∀ j, i ≤ j < i + Z.of_nat n → bitmap_test bm j ≠ 0)
  ∨ (i ≤ find_free_from bm i n < i + Z.of_nat n
     ∧ bitmap_test bm (find_free_from bm i n) = 0
     ∧ ∀ j, i ≤ j < find_free_from bm i n → bitmap_test bm j ≠ 0).
Proof.
  revert i. induction n as [|n IH]; intros i; cbn [find_free_from].
  { left. split; [done|]. lia. }
  destruct (bitmap_test bm i =? 0) eqn:Hi.
  - right. apply Z.eqb_eq in Hi. split; [lia|]. split; [done|]. lia.
  - apply Z.eqb_neq in Hi. destruct (IH (i + 1)) as [[Hnone Hall]|(Hr & Hfree & Hmin)].
    + left. split; [done|]. intros j Hj.
      destruct (decide (j = i)) as [->|]; [done|]. apply Hall. lia.
    + right. split; [lia|]. split; [done|]. intros j Hj.
      destruct (decide (j = i)) as [->|]; [done|]. apply Hmin. lia.
Qed.

Lemma find_free_inode_spec (bm : list byte) :
  (find_free_inode bm = u32 (-1) ∧ ∀ j, 1 ≤ j < 64 → bitmap_test bm j ≠ 0)
  ∨ (1 ≤ find_free_inode bm < 64
     ∧ bitmap_test bm (find_free_inode bm) = 0
     ∧ ∀ j, 1 ≤ j < find_free_inode bm → bitmap_test bm j ≠ 0).
Proof.
  unfold find_free_inode.
  destruct (find_free_from_spec bm 1 63) as [[H1 H2]|(H1 & H2 & H3)].
  - left. split; [done|]. intros j Hj. apply H2. lia.
  - right. split; [lia|]. done.
Qed.

(** ** Lengths of the images [create] builds *)

Lemma length_bitmap_set (bm : list byte) (i : Z) : length (bitmap_set bm i) = length bm.
Proof. unfold bitmap_set. apply length_insert. Qed.

Lemma length_set_bytes (buf : list byte) (off : Z) (src : list byte) :
  0 ≤ off → off + Z.of_nat (length src) ≤ Z.of_nat (length buf) →
  length (set_bytes buf off src) = length buf.
Proof.
  intros Hoff Hfit. unfold set_bytes.
  rewrite !length_app, length_take, length_drop. lia.
Qed.

Lemma length_new_inode_bytes (now : Z) : length (new_inode_bytes now) = 128%nat.
Proof.
  unfold new_inode_bytes.
  rewrite !length_app, !length_le_split, !length_zero_bytes. done.
Qed.

Lemma length_strncpy (n : nat) (src : list byte) : length (strncpy n src) = n.
Proof.
  revert src. induction n as [|n IH]; intros src; [done|].
  cbn [strncpy]. destruct src as [|c rest]; [apply length_replicate|].
  destruct (is_nul c); [apply length_replicate|]. simpl. by rewrite IH.
Qed.

Lemma length_new_dirent_bytes (inum : Z) (name : list byte) :
  length (new_dirent_bytes inum name) = 32%nat.
Proof.
  unfold new_dirent_bytes.
  rewrite !length_app, length_le_split, length_strncpy. done.
Qed.

Lemma overlay_or_length (latest : list logged_image) (bno : Z) (live : list byte) :
  (∀ b img, logged_image_find latest b = Some img → length img = Z.to_nat BLOCK_SIZE) →
  length live = Z.to_nat BLOCK_SIZE →
  length (overlay_or latest bno live) = Z.to_nat BLOCK_SIZE.
Proof.
  intros Hl Hlive. unfold overlay_or.
  destruct (logged_image_find latest bno) as [img|] eqn:Hf; [|done]. by eapply Hl.
Qed.

(** ** The view [create] works on *)

Lemma fresh_header_ok : journal_header_ok fresh_header = true.
Proof. reflexivity. Qed.

Lemma journal_init_if_needed_spec (d : disk) :
  journal_header_ok (snd (journal_init_if_needed d)) = true
  ∧ journal_read_header (fst (journal_init_if_needed d)) = snd (journal_init_if_needed d)
  ∧ (∀ x, ¬ in_journal x → fst (journal_init_if_needed d) x = d x)
  ∧ (journal_header_ok (journal_read_header d) = true →
     journal_init_if_needed d = (d, journal_read_header d)).
Proof.
  unfold journal_init_if_needed. cbv zeta.
  destruct (journal_header_ok (journal_read_header d)) eqn:Hok; cbn [fst snd].
  - done.
  - split; [done|]. split; [by rewrite journal_read_write_header|]. split; [|done].
    intros x Hx. rewrite journal_write_header_outside by layout_lia.
    by apply journal_clear_region_outside.
Qed.

Lemma create_view_spec (d : disk) (v : view) :
  create_view d = Ok v →
  view_wf v
  ∧ v_disk v = fst (journal_init_if_needed d)
  ∧ v_jh v = snd (journal_init_if_needed d).
Proof.
  unfold create_view.
  destruct (journal_init_if_needed_spec d) as (Hok & Hread & _ & _).
  destruct (journal_init_if_needed d) as [d1 jh]. cbn [fst snd] in *.
  destruct (negb (inode_type (read_block d1 (INODE_TABLE_BLK + 0)) 0 =? 2)); [done|].
  destruct (inode_direct0 (read_block d1 (INODE_TABLE_BLK + 0)) 0 =? 0) eqn:Hrd; [done|].
  apply Z.eqb_neq in Hrd.
  pose proof (get_u32_range (read_block d1 (INODE_TABLE_BLK + 0)) (inode_off 0 + 8)) as Hrng.
  fold (inode_direct0 (read_block d1 (INODE_TABLE_BLK + 0)) 0) in Hrng.
  destruct (nbytes_used jh >? SIZEOF_JOURNAL_HEADER).
  - destruct (collect_valid_header d1 jh Hok) as (latest & -> & _ & Hlen).
    cbn [mbind result_bind].
    set (itbl19 := overlay_or latest (INODE_TABLE_BLK + 0) _).
    destruct (negb (inode_type itbl19 0 =? 2)); [done|].
    destruct (inode_direct0 itbl19 0 =? 0) eqn:Hrd'; [done|].
    apply Z.eqb_neq in Hrd'.
    pose proof (get_u32_range itbl19 (inode_off 0 + 8)) as Hrng'.
    fold (inode_direct0 itbl19 0) in Hrng'.
    intros [= <-]. unfold view_wf. cbn.
    repeat split; try done; try lia;
      apply overlay_or_length; try done; apply read_block_length.
  - intros [= <-]. unfold view_wf. cbn.
    repeat split; try done; try lia; apply read_block_length.
Qed.

Lemma mutate_images_length (name : list byte) (now : Z) (v : view)
    (new_inum inode_block_index inode_slot used_entries : Z) :
  view_wf v → 0 ≤ inode_slot < 32 → 0 ≤ used_entries < 128 →
  let im := mutate_images name now v new_inum inode_block_index inode_slot
                          used_entries in
  length (im_inode_bm im) = Z.to_nat BLOCK_SIZE
  ∧ length (im_itbl19 im) = Z.to_nat BLOCK_SIZE
  ∧ length (im_itbl20 im) = Z.to_nat BLOCK_SIZE
  ∧ length (im_root_dir_img im) = Z.to_nat BLOCK_SIZE.
Proof.
  intros (_ & _ & Hbm & H19 & H20 & Hrd & _) Hslot Hused.
  unfold mutate_images. cbv zeta. cbn [im_inode_bm im_itbl19 im_itbl20 im_root_dir_img].
  assert (∀ tbl, length tbl = Z.to_nat BLOCK_SIZE →
            length (set_bytes tbl (inode_off inode_slot) (new_inode_bytes now))
            = Z.to_nat BLOCK_SIZE) as Hslotlen.
  { intros tbl Htbl.
    rewrite length_set_bytes; [done|unfold inode_off, INODE_SIZE; lia|].
    rewrite length_new_inode_bytes, Htbl. unfold inode_off, INODE_SIZE, BLOCK_SIZE. lia. }
  assert (∀ tbl off z, length tbl = Z.to_nat BLOCK_SIZE → 0 ≤ off ≤ 4092 →
            length (set_bytes tbl off (le_split 4 z)) = Z.to_nat BLOCK_SIZE) as Hfield.
  { intros tbl off z Htbl Hoff.
    rewrite length_set_bytes; [done|lia|].
    rewrite length_le_split, Htbl. unfold BLOCK_SIZE. lia. }
  split; [by rewrite length_bitmap_set|]. split; [|split].
  - apply Hfield; [|unfold inode_off, INODE_SIZE; lia].
    apply Hfield; [|unfold inode_off, INODE_SIZE; lia].
    destruct (inode_block_index =? 0); [by apply Hslotlen|done].
  - destruct (inode_block_index =? 0); [done|by apply Hslotlen].
  - rewrite length_set_bytes; [done|unfold dirent_off, SIZEOF_DIRENT; lia|].
    rewrite length_new_dirent_bytes, Hrd. unfold dirent_off, SIZEOF_DIRENT, BLOCK_SIZE. lia.
Qed.

Lemma used_entries_of_lower (itbl19 : list byte) : 2 ≤ used_entries_of itbl19.
Proof. unfold used_entries_of. cbv zeta. case_if; lia. Qed.

Lemma length_encode_records_app (r1 r2 : list record) :
  encode_records (r1 ++ r2) = encode_records r1 ++ encode_records r2.
Proof.
  induction r1 as [|r r1 IH]; simpl; [done|]. by rewrite IH, app_assoc.
Qed.

Lemma journal_append_records_spec (recs : list record) (d : disk) (jh : journal_header) :
  Forall record_wf recs →
  0 ≤ magic jh < 2 ^ 32 → 8 ≤ nbytes_used jh →
  journal_read_header d = jh →
  nbytes_used jh + Z.of_nat (length (encode_records recs)) ≤ journal_capacity_bytes →
  ∃ d' jh', journal_append_records d jh recs = Ok (d', jh')
    ∧ appended d jh d' jh' (encode_records recs).
Proof.
  revert d jh. induction recs as [|r recs IH]; intros d jh Hwf Hm Hlo Hread Hhi.
  { eexists _, _. split; [done|]. by apply appended_nil. }
  apply Forall_cons in Hwf as [Hr Hwf].
  cbn [encode_records] in *. rewrite length_app, Nat2Z.inj_add in Hhi.
  pose proof (length_encode_record r Hr) as Hlen.
  assert (∃ d1 jh1,
            match r with
            | DATA bno img => journal_append_data d jh bno img
            | COMMIT => journal_append_commit d jh
            end = Ok (d1, jh1)
            ∧ appended d jh d1 jh1 (encode_record r)) as (d1 & jh1 & Hrun & Ha).
  { destruct r as [bno img|]; cbn [record_size record_wf] in *.
    - apply journal_append_data_spec; [done|done|apply Hr|lia].
    - apply journal_append_commit_spec; [done|done|lia]. }
  pose proof Ha as (Hm1 & Hu1 & Hh1 & _).
  destruct (IH d1 jh1) as (d2 & jh2 & Hrun2 & Ha2); [done|lia|lia|done|lia|].
  exists d2, jh2. split.
  - cbn [journal_append_records]. destruct r; rewrite Hrun; cbn; exact Hrun2.
  - by eapply appended_trans.
Qed.

(** The append sequence of lines 477-490 is the append of the records of
    [create_transaction]. *)
Lemma create_txn_unfold (name : list byte) (now : Z) (v : view) :
  create_txn name now v =
    let new_inum := find_free_inode (v_inode_bm v) in
    if new_inum =? u32 (-1) then Exit NoFreeInode
    else if new_inum / INODES_PER_BLOCK >=? INODE_TABLE_BLKS then Exit InodeOutOfRange
    else if negb (inode_type (if new_inum / INODES_PER_BLOCK =? 0
                              then v_itbl19 v else v_itbl20 v)
                             (new_inum mod INODES_PER_BLOCK) =? 0)
    then Exit CorruptBitmap
    else if used_entries_of (v_itbl19 v) >=? NENTS then Exit DirFull
    else if name_exists (v_root_dir_img v) (used_entries_of (v_itbl19 v)) name
    then Exit FileExists
    else if u32 (nbytes_used (v_jh v)
                 + u32 (u32 ((3 + (if new_inum / INODES_PER_BLOCK =? 1 then 1 else 0))
                             * u32 DATA_REC_SIZE) + SIZEOF_REC_HEADER))
            >? journal_capacity_bytes
    then Exit JournalFull
    else
      match journal_append_records (v_disk v) (v_jh v)
              (transaction_records (create_transaction name now v)) with
      | Ok (d, _) => Ok d
      | Exit e => Exit e
      | OutOfFuel => OutOfFuel
      end.
Proof.
  unfold create_txn, create_transaction, transaction_records. cbv zeta.
  repeat (case_if; [done|]).
  set (im := mutate_images _ _ _ _ _ _ _).
  cbn [map app data_record block_no image journal_append_records].
  destruct (journal_append_data (v_disk v) (v_jh v) INODE_BMAP_BLK (im_inode_bm im))
    as [[d1 jh1]| |]; cbn [mbind result_bind]; [|done..].
  destruct (journal_append_data d1 jh1 (INODE_TABLE_BLK + 0) (im_itbl19 im))
    as [[d2 jh2]| |]; cbn [mbind result_bind]; [|done..].
  destruct (find_free_inode (v_inode_bm v) / INODES_PER_BLOCK =? 1);
    cbn [map app data_record block_no image journal_append_records mbind result_bind].
  - destruct (journal_append_data d2 jh2 (INODE_TABLE_BLK + 1) (im_itbl20 im))
      as [[d3 jh3]| |]; cbn [mbind result_bind]; [|done..].
    destruct (journal_append_data d3 jh3 (v_root_dir_block_no v) (im_root_dir_img im))
      as [[d4 jh4]| |]; cbn [mbind result_bind]; [|done..].
    by destruct (journal_append_commit d4 jh4) as [[d5 jh5]| |].
  - destruct (journal_append_data d2 jh2 (v_root_dir_block_no v) (im_root_dir_img im))
      as [[d4 jh4]| |]; cbn [mbind result_bind]; [|done..].
    by destruct (journal_append_commit d4 jh4) as [[d5 jh5]| |].
Qed.

Lemma create_transaction_wf (name : list byte) (now : Z) (v : view) :
  view_wf v →
  1 ≤ find_free_inode (v_inode_bm v) < 64 →
  used_entries_of (v_itbl19 v) < 128 →
  Forall (λ p, record_wf (data_record p)) (create_transaction name now v)
  ∧ (length (create_transaction name now v)
     = if find_free_inode (v_inode_bm v) / 32 =? 1 then 4%nat else 3%nat).
Proof.
  intros Hwf Hrange Hused.
  pose proof (used_entries_of_lower (v_itbl19 v)) as Hlow.
  assert (0 ≤ find_free_inode (v_inode_bm v) mod 32 < 32) as Hslot
    by (apply Z.mod_pos_bound; lia).
  destruct (mutate_images_length name now v (find_free_inode (v_inode_bm v))
              (find_free_inode (v_inode_bm v) / 32)
              (find_free_inode (v_inode_bm v) mod 32)
              (used_entries_of (v_itbl19 v)) Hwf Hslot) as (Hl1 & Hl2 & Hl3 & Hl4);
    [lia|].
  destruct Hwf as (_ & _ & _ & _ & _ & _ & Hrd).
  unfold create_transaction. cbv zeta. change INODES_PER_BLOCK with 32.
  assert (∀ bno img, 0 ≤ bno < 2 ^ 32 → length img = Z.to_nat BLOCK_SIZE →
            record_wf (data_record {| block_no := bno; image := img |})) as Hrec.
  { intros bno img Hb Hi. unfold data_record. by cbn [block_no image record_wf]. }
  assert (0 ≤ INODE_BMAP_BLK < 2 ^ 32) as Hb17
    by (unfold INODE_BMAP_BLK, JOURNAL_START_BLK, JOURNAL_BLOCKS; lia).
  assert (0 ≤ INODE_TABLE_BLK + 0 < 2 ^ 32 ∧ 0 ≤ INODE_TABLE_BLK + 1 < 2 ^ 32)
    as [Hb19 Hb20]
    by (unfold INODE_TABLE_BLK, DATA_BMAP_BLK, INODE_BMAP_BLK, JOURNAL_START_BLK,
          JOURNAL_BLOCKS; lia).
  destruct (find_free_inode (v_inode_bm v) / 32 =? 1); (split; [|reflexivity]);
    cbn [app]; repeat first [apply Forall_nil_2 | apply Forall_cons_2];
    apply Hrec; first [assumption | lia].
Qed.

(** [create_txn] on a well-formed view: when it returns normally, every
    check of lines 387-450 passed and the transaction was appended. *)
Lemma create_txn_ok (name : list byte) (now : Z) (v : view) (d' : disk) :
  view_wf v → create_txn name now v = Ok d' →
  (1 ≤ find_free_inode (v_inode_bm v) < 64
   ∧ inode_type (if find_free_inode (v_inode_bm v) / 32 =? 0
                 then v_itbl19 v else v_itbl20 v)
                (find_free_inode (v_inode_bm v) mod 32) = 0
   ∧ used_entries_of (v_itbl19 v) < 128
   ∧ name_exists (v_root_dir_img v) (used_entries_of (v_itbl19 v)) name = false)
  ∧ ∃ jh', appended (v_disk v) (v_jh v) d' jh'
             (encode_records (transaction_records (create_transaction name now v)))
           ∧ nbytes_used jh' ≤ journal_capacity_bytes.
Proof.
  intros Hwf. pose proof Hwf as (Hok & Hread & _).
  apply journal_header_ok_bounds in Hok as [Hmagic Hused].
  rewrite create_txn_unfold. cbv zeta.
  change INODES_PER_BLOCK with 32. change INODE_TABLE_BLKS with 2. change NENTS with 128.
  destruct (find_free_inode_spec (v_inode_bm v)) as [[Hnone _]|(Hrange & Hfree & Hmin)].
  { rewrite Hnone, Z.eqb_refl. done. }
  set (new_inum := find_free_inode (v_inode_bm v)) in *.
  destruct (new_inum =? u32 (-1)) eqn:Hsent.
  { apply Z.eqb_eq in Hsent. rewrite Hsent in Hrange. by vm_compute in Hrange. }
  destruct (new_inum / 32 >=? 2) eqn:Hidx; [done|].
  destruct (inode_type _ (new_inum mod 32) =? 0) eqn:Htype; [|done].
  cbn [negb]. apply Z.eqb_eq in Htype.
  destruct (used_entries_of (v_itbl19 v) >=? 128) eqn:Hfull; [done|].
  destruct (name_exists _ _ name) eqn:Hex; [done|].
  destruct (create_transaction_wf name now v Hwf Hrange) as [Htxn Hlen]; [lia|].
  fold new_inum in Hlen.
  set (nmods := 3 + (if new_inum / 32 =? 1 then 1 else 0)).
  assert (3 ≤ nmods ≤ 4) as Hnmods by (subst nmods; case_if; lia).
  change (u32 DATA_REC_SIZE) with 4104. change SIZEOF_REC_HEADER with 4.
  rewrite (u32_small (nmods * 4104)) by lia.
  rewrite (u32_small (nmods * 4104 + 4)) by lia.
  rewrite (u32_small (nbytes_used (v_jh v) + (nmods * 4104 + 4))) by lia.
  rewrite journal_capacity_bytes_eq.
  destruct (nbytes_used (v_jh v) + (nmods * 4104 + 4) >? 65536) eqn:Hcap; [done|].
  assert (Forall record_wf (transaction_records (create_transaction name now v))) as Hrecs.
  { unfold transaction_records. apply Forall_app. split.
    - by apply Forall_fmap.
    - by repeat constructor. }
  assert (Z.of_nat (length (encode_records
            (transaction_records (create_transaction name now v))))
          = nmods * 4104 + 4) as Hbytes.
  { unfold transaction_records. rewrite length_encode_records_app, length_app.
    cbn [encode_records encode_record]. rewrite app_nil_r, length_encode_rec_header.
    assert (∀ txn, Forall (λ p, record_wf (data_record p)) txn →
              Z.of_nat (length (encode_records (map data_record txn)))
              = 4104 * Z.of_nat (length txn)) as Hdata.
    { clear. induction txn as [|p txn IH]; intros Hwf; [done|].
      apply Forall_cons in Hwf as [Hp Hwf].
      cbn [map encode_records length]. rewrite length_app, Nat2Z.inj_add, IH by done.
      rewrite (length_encode_record _ Hp). cbn [data_record record_size]. lia. }
    rewrite Nat2Z.inj_add, Hdata by done. rewrite Hlen. subst nmods.
    destruct (new_inum / 32 =? 1); lia. }
  destruct (journal_append_records_spec _ (v_disk v) (v_jh v) Hrecs)
    as (d1 & jh1 & -> & Ha);
    [by rewrite Hmagic|lia|done|rewrite Hbytes, journal_capacity_bytes_eq; lia|].
  intros [= <-]. split.
  { split; [done|]. split; [done|]. split; [lia|done]. }
  exists jh1. split; [done|].
  destruct Ha as (_ & Hu & _). rewrite Hbytes in Hu. lia.
Qed.

(** ** Appending to a journal that decodes to its end *)

Lemma record_at_extend (d d' : disk) (used used' pos : Z) (r : record) :
  0 ≤ pos → used ≤ used' →
  (∀ x, journal_base_off + pos ≤ x < journal_base_off + used → d' x = d x) →
  record_at d used pos = Some r → record_at d' used' pos = Some r.
Proof.
  intros Hpos Hused Heq Hr.
  pose proof (record_at_bound _ _ _ _ Hr) as Hb.
  pose proof (record_at_wf _ _ _ _ Hr) as Hwf.
  pose proof (record_size_pos r) as Hsz.
  assert (read_rec_header d' pos = read_rec_header d pos) as Hrh.
  { unfold read_rec_header. f_equal. apply pread_ext. intros x Hx. apply Heq.
    change SIZEOF_REC_HEADER with 4 in Hx. lia. }
  revert Hr. unfold record_at. rewrite Hrh.
  set (rh := read_rec_header d pos). cbv zeta.
  destruct (pos + 4 <=? used) eqn:H0; [|done].
  destruct (pos + 4 <=? used') eqn:H0'; [|lia].
  destruct (rh_size rh <? 4) eqn:H1; cbn [orb]; [done|].
  destruct (pos + rh_size rh >? used) eqn:H2; cbn [orb]; [done|].
  destruct (pos + rh_size rh >? used') eqn:H2'; cbn [orb]; [lia|].
  destruct (rh_type rh =? 1); [|done].
  destruct (rh_size rh =? 4104) eqn:H4; [|done].
  intros [= <-]. cbn [record_size] in Hb. f_equal. f_equal.
  - unfold read_rec_block_no. f_equal. apply pread_ext. intros x Hx. apply Heq.
    change SIZEOF_REC_HEADER with 4 in Hx. change SIZEOF_U32 with 4 in Hx. lia.
  - unfold read_rec_image. apply pread_ext. intros x Hx. apply Heq.
    change SIZEOF_REC_HEADER with 4 in Hx. change SIZEOF_U32 with 4 in Hx.
    change BLOCK_SIZE with 4096 in Hx. lia.
Qed.

Lemma scan_end_bounds (fuel : nat) (d : disk) (used pos : Z) :
  pos ≤ used → pos ≤ scan_end fuel d used pos ≤ used.
Proof.
  revert pos. induction fuel as [|fuel IH]; intros pos Hpos; cbn [scan_end]; [lia|].
  destruct (record_at d used pos) as [r|] eqn:Hr; [|lia].
  pose proof (record_at_bound _ _ _ _ Hr). pose proof (record_size_pos r).
  specialize (IH (pos + record_size r)). lia.
Qed.

Lemma records_from_extend (fuel : nat) (d d' : disk) (used used' pos : Z) :
  0 ≤ pos ≤ used → used ≤ used' →
  (∀ x, journal_base_off + pos ≤ x < journal_base_off + used → d' x = d x) →
  Z.max 0 (used' - pos) < 4 * Z.of_nat fuel →
  records_from fuel d' used' pos
  = records_from fuel d used pos
    ++ records_from fuel d' used' (scan_end fuel d used pos).
Proof.
  revert pos. induction fuel as [|fuel IH]; intros pos Hpos Hused Heq Hfuel; [lia|].
  cbn [scan_end].
  change (records_from (S fuel) d used pos)
    with (match record_at d used pos with
          | Some r => r :: records_from fuel d used (pos + record_size r)
          | None => []
          end).
  destruct (record_at d used pos) as [r|] eqn:Hr; [|done].
  pose proof (record_at_bound _ _ _ _ Hr) as Hb. pose proof (record_size_pos r) as Hsz.
  pose proof (scan_end_bounds fuel d used (pos + record_size r) Hb) as Hend.
  rewrite (records_from_mono fuel (S fuel) d' used' (scan_end _ _ _ _)) by lia.
  cbn [records_from]. rewrite (record_at_extend d d' used used' pos r) by (done || lia).
  cbn [app]. f_equal. apply IH; try lia.
  intros x Hx. apply Heq. lia.
Qed.

(** Appending well-formed records to a clean journal appends them to the
    decoded record list. *)
Lemma journal_records_appended (d d' : disk) (jh jh' : journal_header)
    (recs : list record) :
  8 ≤ nbytes_used jh → nbytes_used jh' ≤ journal_capacity_bytes →
  Forall record_wf recs →
  appended d jh d' jh' (encode_records recs) →
  journal_clean d (nbytes_used jh) →
  journal_records d' (nbytes_used jh') = journal_records d (nbytes_used jh) ++ recs.
Proof.
  intros Hlo Hhi Hwf (Hm & Hu & Hh & Hb & Hf) Hclean.
  unfold journal_records, journal_clean in *.
  rewrite (records_from_extend _ d d' (nbytes_used jh)); [|lia|lia| |lia].
  2:{ intros x Hx. apply Hf; change journal_base_off with 4096 in *; lia. }
  rewrite (records_from_mono (Z.to_nat (nbytes_used jh)) (Z.to_nat (nbytes_used jh'))
             d (nbytes_used jh) 8) by lia.
  f_equal.
  assert (scan_end (Z.to_nat (nbytes_used jh')) d (nbytes_used jh) 8 = nbytes_used jh)
    as ->.
  { pose proof (scan_end_bounds (Z.to_nat (nbytes_used jh')) d (nbytes_used jh) 8 Hlo).
    assert (∀ fuel fuel' pos, (fuel ≤ fuel')%nat → pos ≤ nbytes_used jh →
              scan_end fuel d (nbytes_used jh) pos
              ≤ scan_end fuel' d (nbytes_used jh) pos) as Hmono.
    { clear. induction fuel as [|fuel IH]; intros fuel' pos Hle Hpos.
      - cbn [scan_end]. apply scan_end_bounds. done.
      - destruct fuel' as [|fuel']; [lia|]. cbn [scan_end].
        destruct (record_at d (nbytes_used jh) pos) as [r|] eqn:Hr; [|lia].
        apply IH; [lia|]. by apply record_at_bound in Hr. }
    specialize (Hmono (Z.to_nat (nbytes_used jh)) (Z.to_nat (nbytes_used jh')) 8).
    lia. }
  rewrite (records_from_encoded d' (nbytes_used jh') recs); [|done|lia|lia|lia|done].
  rewrite records_from_at_end by lia. by rewrite app_nil_r.
Qed.

(** ** create *)

Lemma cmd_create_ok (name : list byte) (now : Z) (d d' : disk) :
  cmd_create name now d = Ok d' →
  ∃ v, create_view d = Ok v ∧ create_txn name now v = Ok d'.
Proof.
  unfold cmd_create.
  destruct (match name with [] => true | c :: _ => is_nul c end); [done|].
  destruct (strlen name >=? NAME_LEN); [done|].
  destruct (create_view d) as [v| |]; cbn [mbind result_bind]; [|done..].
  intros H. by exists v.
Qed.

Lemma transactions_from_app (r1 r2 : list record) (cur : list logged_image) :
  transactions_from cur (r1 ++ r2)
  = transactions_from cur r1 ++ transactions_from (pending_from cur r1) r2.
Proof.
  revert cur. induction r1 as [|r r1 IH]; intros cur; simpl; [done|].
  destruct r; [apply IH|]. by rewrite IH.
Qed.

Lemma transactions_from_transaction (txn cur : list logged_image) :
  transactions_from cur (transaction_records txn) = [cur ++ txn].
Proof.
  unfold transaction_records. revert cur.
  induction txn as [|p txn IH]; intros cur; simpl.
  - by rewrite app_nil_r.
  - rewrite IH. rewrite <- app_assoc. by destruct p.
Qed.


(** ** Bitmap bits *)

Lemma bitmap_test_testbit (bm : list byte) (i : Z) :
  bitmap_test bm i
  = Z.b2z (Z.testbit (byte.unsigned (bm !!! Z.to_nat (i / 8))) (i mod 8)).
Proof.
  unfold bitmap_test. change 1 with (Z.ones 1). rewrite Z.land_ones by lia.
  change (2 ^ 1) with 2. rewrite <- Z.bit0_mod.
  rewrite Z.shiftr_spec by lia. by rewrite Z.add_0_l.
Qed.

Lemma bitmap_set_byte (b : byte) (m n : Z) :
  0 ≤ m < 8 → 0 ≤ n < 8 →
  Z.testbit (byte.unsigned (byte.of_Z (Z.lor (byte.unsigned b)
                                             (byte.wrap (Z.shiftl 1 m))))) n
  = Z.testbit (byte.unsigned b) n || (n =? m).
Proof.
  intros Hm Hn. rewrite byte.unsigned_of_Z. unfold byte.wrap.
  rewrite !Z.mod_pow2_bits_low by lia.
  rewrite Z.lor_spec. rewrite Z.mod_pow2_bits_low by lia.
  rewrite Z.shiftl_spec by lia. f_equal.
  destruct (n =? m) eqn:Hnm.
  - apply Z.eqb_eq in Hnm. subst. by rewrite Z.sub_diag.
  - apply Z.eqb_neq in Hnm. destruct (decide (n < m)).
    + by rewrite Z.testbit_neg_r by lia.
    + replace (n - m) with (Z.succ (n - m - 1)) by lia.
      rewrite (Z.bits_above_log2 1); [done|lia|]. simpl. lia.
Qed.

Lemma bitmap_test_set_same (bm : list byte) (k : Z) :
  0 ≤ k → k / 8 < Z.of_nat (length bm) →
  bitmap_test (bitmap_set bm k) k = 1.
Proof.
  intros Hk Hlen. rewrite bitmap_test_testbit. unfold bitmap_set.
  rewrite list_lookup_total_insert_eq by (apply Nat2Z.inj_lt; rewrite Z2Nat.id; [lia|];
                                       apply Z.div_pos; lia).
  rewrite bitmap_set_byte by (apply Z.mod_pos_bound; lia).
  by rewrite Z.eqb_refl, orb_true_r.
Qed.

Lemma bitmap_test_set_other (bm : list byte) (k j : Z) :
  0 ≤ k → 0 ≤ j → j ≠ k →
  bitmap_test (bitmap_set bm k) j = bitmap_test bm j.
Proof.
  intros Hk Hj Hne. rewrite !bitmap_test_testbit. unfold bitmap_set.
  destruct (decide (j / 8 = k / 8)) as [Heq|Hdiff].
  - rewrite Heq.
    destruct (decide (Z.to_nat (k / 8) < length bm)%nat) as [Hin|Hout].
    + rewrite list_lookup_total_insert_eq by done.
      rewrite bitmap_set_byte by (apply Z.mod_pos_bound; lia).
      destruct (j mod 8 =? k mod 8) eqn:Hm; [|by rewrite orb_false_r].
      apply Z.eqb_eq in Hm.
      pose proof (Z.div_mod j 8). pose proof (Z.div_mod k 8). lia.
    + by rewrite list_insert_ge by lia.
  - rewrite list_lookup_total_insert_ne; [done|].
    pose proof (Z.div_pos k 8). pose proof (Z.div_pos j 8). lia.
Qed.

(** ** Fields stored by [set_bytes] *)

Lemma get_u32_set_bytes (buf : list byte) (off z : Z) (rest : list byte) :
  0 ≤ off ≤ Z.of_nat (length buf) → 0 ≤ z < 2 ^ 32 →
  get_u32 (set_bytes buf off (le_split 4 z ++ rest)) off = z.
Proof.
  intros Hoff Hz. unfold get_u32, set_bytes.
  rewrite drop_app_length' by (rewrite length_take; lia).
  rewrite <- app_assoc.
  rewrite take_app_length' by (by rewrite length_le_split).
  rewrite (le_combine_split 4). by apply Z.mod_small.
Qed.

(** ** The exits of [create] *)

Lemma journal_append_bytes_exit (d : disk) (jh : journal_header) (src : list byte) :
  match journal_append_bytes d jh src with
  | Ok _ => True
  | Exit e => e = JournalFull
  | OutOfFuel => False
  end.
Proof. unfold journal_append_bytes. cbv zeta. by case_if. Qed.

Lemma journal_append_data_exit (d : disk) (jh : journal_header) (bno : Z) (img : list byte) :
  match journal_append_data d jh bno img with
  | Ok _ => True
  | Exit e => e = JournalFull
  | OutOfFuel => False
  end.
Proof.
  unfold journal_append_data. cbv zeta.
  pose proof (journal_append_bytes_exit d jh
                (encode_rec_header {| rh_type := REC_DATA; rh_size := DATA_REC_SIZE |})) as H1.
  destruct (journal_append_bytes d jh _) as [[d1 jh1]| |]; cbn [mbind result_bind]; [|done..].
  pose proof (journal_append_bytes_exit d1 jh1 (le_split 4 bno)) as H2.
  destruct (journal_append_bytes d1 jh1 _) as [[d2 jh2]| |]; cbn [mbind result_bind]; [|done..].
  apply journal_append_bytes_exit.
Qed.

Lemma journal_append_records_exit (recs : list record) (d : disk) (jh : journal_header) :
  match journal_append_records d jh recs with
  | Ok _ => True
  | Exit e => e = JournalFull
  | OutOfFuel => False
  end.
Proof.
  revert d jh. induction recs as [|r recs IH]; intros d jh; [done|].
  cbn [journal_append_records]. destruct r as [bno img|].
  - pose proof (journal_append_data_exit d jh bno img) as H.
    destruct (journal_append_data d jh bno img) as [[d1 jh1]| |];
      cbn [mbind result_bind]; [apply IH|done..].
  - pose proof (journal_append_bytes_exit d jh
                  (encode_rec_header {| rh_type := REC_COMMIT;
                                        rh_size := SIZEOF_REC_HEADER |})) as H.
    unfold journal_append_commit. cbv zeta.
    destruct (journal_append_bytes d jh _) as [[d1 jh1]| |];
      cbn [mbind result_bind]; [apply IH|done..].
Qed.

Lemma create_view_exit (d : disk) :
  match create_view d with
  | Ok _ => True
  | Exit e => e = RootNotDir ∨ e = RootNoBlock
  | OutOfFuel => False
  end.
Proof.
  unfold create_view.
  destruct (journal_init_if_needed_spec d) as (Hok & _).
  destruct (journal_init_if_needed d) as [d1 jh]. cbn [fst snd] in *.
  case_if; [by left|]. case_if; [by right|]. case_if; [|done].
  destruct (collect_valid_header d1 jh Hok) as (latest & -> & _).
  cbn [mbind result_bind].
  case_if; [by left|]. case_if; [by right|]. done.
Qed.

Lemma find_free_inode_range (bm : list byte) :
  find_free_inode bm = u32 (-1)
  ∨ (1 ≤ find_free_inode bm ≤ 63
     ∧ (find_free_inode bm / INODES_PER_BLOCK = 0
        ∨ find_free_inode bm / INODES_PER_BLOCK = 1)).
Proof.
  destruct (find_free_inode_spec bm) as [[H _]|(H & _)]; [by left|right].
  split; [lia|]. change INODES_PER_BLOCK with 32.
  pose proof (Z.div_mod (find_free_inode bm) 32).
  pose proof (Z.mod_pos_bound (find_free_inode bm) 32). nia.
Qed.

Lemma create_txn_exit (name : list byte) (now : Z) (v : view) :
  match create_txn name now v with
  | Ok _ => True
  | Exit e => e = NoFreeInode ∨ e = CorruptBitmap ∨ e = DirFull ∨ e = FileExists
              ∨ e = JournalFull
  | OutOfFuel => False
  end.
Proof.
  rewrite create_txn_unfold. cbv zeta.
  case_if; [by left|].
  destruct (find_free_inode_range (v_inode_bm v)) as [Hs|[_ Hidx]].
  { rewrite Hs, Z.eqb_refl in *. done. }
  case_if.
  { change INODE_TABLE_BLKS with 2 in *. lia. }
  case_if; [right; by left|]. case_if; [do 2 right; by left|].
  case_if; [do 3 right; by left|]. case_if; [do 4 right; done|].
  pose proof (journal_append_records_exit
                (transaction_records (create_transaction name now v))
                (v_disk v) (v_jh v)) as H.
  destruct (journal_append_records _ _ _) as [[d1 jh1]| |]; [done| |done].
  do 4 right. done.
Qed.

(** C10.  Every inode number produced by the allocation scan of [create]
    lies in 1..63, so its inode-table block index is 0 or 1, and no run of
    [create] takes the "inode index out of range" exit. *)
Theorem inode_index_always_in_range :
  (∀ bm : list byte,
     find_free_inode bm ≠ u32 (-1) →
     1 ≤ find_free_inode bm ≤ 63
     ∧ (find_free_inode bm / INODES_PER_BLOCK = 0
        ∨ find_free_inode bm / INODES_PER_BLOCK = 1)
     ∧ (find_free_inode bm / INODES_PER_BLOCK >=? INODE_TABLE_BLKS) = false)
  ∧ ∀ (name : list byte) (now : Z) (d : disk),
      cmd_create name now d ≠ Exit InodeOutOfRange.
Proof.
  split.
  - intros bm Hne. destruct (find_free_inode_range bm) as [|[H1 H2]]; [done|].
    split; [done|]. split; [done|]. change INODE_TABLE_BLKS with 2. lia.
  - intros name now d. unfold cmd_create.
    case_if; [done|]. case_if; [done|].
    pose proof (create_view_exit d) as Hv.
    destruct (create_view d) as [v|e|]; cbn [mbind result_bind]; [| |done].
    + pose proof (create_txn_exit name now v) as Ht.
      destruct (create_txn name now v) as [d'|e|]; [done| |done].
      intros [= ->]. by repeat destruct Ht as [Ht|Ht].
    + intros [= ->]. by destruct Hv.
Qed.

Lemma cmd_create_unfold (name : list byte) (now : Z) (d : disk) (v : view) :
  name_ok name = true → create_view d = Ok v →
  cmd_create name now d = create_txn name now v.
Proof.
  unfold name_ok, cmd_create. intros Hname ->.
  apply andb_true_iff in Hname as [H1 H2].
  apply negb_true_iff in H1, H2. by rewrite H1, H2.
Qed.

(** C7.  On the view that [create] works on, the new inode number is the
    smallest index in 1..63 whose bitmap bit is clear: when all of bits
    1..63 are set the command exits with [NoFreeInode]; when [i] is that
    smallest index and inode slot [i mod 32] of inode-table block [i / 32]
    does not have type 0 it exits with [CorruptBitmap]; and when it returns
    normally the transaction it logs sets bit [i] of the bitmap, leaves the
    other bits, and stores [i] in the new directory entry. *)
Theorem create_allocates_first_free_inode (name : list byte) (now : Z)
    (d : disk) (v : view) :
  name_ok name = true → create_view d = Ok v →
  let bm := v_inode_bm v in
  ((∀ j, 1 ≤ j < 64 → bitmap_test bm j ≠ 0) →
   cmd_create name now d = Exit NoFreeInode)
  ∧ ∀ i, 1 ≤ i < 64 → bitmap_test bm i = 0 →
         (∀ j, 1 ≤ j < i → bitmap_test bm j ≠ 0) →
      find_free_inode bm = i
      ∧ (inode_type (if i / 32 =? 0 then v_itbl19 v else v_itbl20 v) (i mod 32) ≠ 0 →
         cmd_create name now d = Exit CorruptBitmap)
      ∧ ∀ d', cmd_create name now d = Ok d' →
          let txn := create_transaction name now v in
          let used_entries := used_entries_of (v_itbl19 v) in
          inode_type (if i / 32 =? 0 then v_itbl19 v else v_itbl20 v) (i mod 32) = 0
          ∧ pread d' (Z.of_nat (length (encode_records (transaction_records txn))))
                  (journal_base_off + nbytes_used (v_jh v))
            = encode_records (transaction_records txn)
          ∧ head txn = Some {| block_no := INODE_BMAP_BLK; image := bitmap_set bm i |}
          ∧ bitmap_test (bitmap_set bm i) i = 1
          ∧ (∀ j, 0 ≤ j → j ≠ i → bitmap_test (bitmap_set bm i) j = bitmap_test bm j)
          ∧ ∃ dir, last txn = Some {| block_no := v_root_dir_block_no v; image := dir |}
                   ∧ dirent_inode dir used_entries = i.
Proof.
  intros Hname Hview bm. subst bm.
  rewrite (cmd_create_unfold name now d v Hname Hview).
  destruct (create_view_spec d v Hview) as (Hwf & _).
  split.
  - intros Hall. rewrite create_txn_unfold. cbv zeta.
    destruct (find_free_inode_spec (v_inode_bm v)) as [[-> _]|(Hr & Hfree & _)]; [done|].
    exfalso. by apply (Hall (find_free_inode (v_inode_bm v))).
  - intros i Hi Hfree Hmin.
    assert (find_free_inode (v_inode_bm v) = i) as Hfind.
    { destruct (find_free_inode_spec (v_inode_bm v)) as [[_ Hall]|(Hr & Hf & Hm)].
      - exfalso. by apply (Hall i).
      - destruct (Z.lt_trichotomy (find_free_inode (v_inode_bm v)) i) as [Hlt|[Heq|Hgt]]; [|done|].
        + exfalso. apply (Hmin (find_free_inode (v_inode_bm v))); [lia|done].
        + exfalso. apply (Hm i); [lia|done]. }
    split; [done|]. split.
    + intros Htype. rewrite create_txn_unfold. cbv zeta. rewrite Hfind.
      change INODES_PER_BLOCK with 32. change INODE_TABLE_BLKS with 2.
      destruct (i =? u32 (-1)) eqn:Hs.
      { apply Z.eqb_eq in Hs. change (u32 (-1)) with 4294967295 in Hs. lia. }
      destruct (i / 32 >=? 2) eqn:Hidx.
      { pose proof (Z.div_mod i 32). pose proof (Z.mod_pos_bound i 32). lia. }
      apply Z.eqb_neq in Htype. by rewrite Htype.
    + intros d' Hrun.
      destruct (create_txn_ok name now v d' Hwf Hrun)
        as ((_ & Htype & Hents & _) & jh' & (_ & _ & _ & Hb & _) & _).
      rewrite Hfind in Htype.
      pose proof Hwf as (_ & _ & Hbmlen & _ & _ & Hrdlen & _).
      pose proof (used_entries_of_lower (v_itbl19 v)) as Hlow.
      cbv zeta. split; [done|]. split; [done|].
      unfold create_transaction. cbv zeta. rewrite Hfind.
      cbn [head app mutate_images im_inode_bm im_root_dir_img]. split; [done|].
      split.
      { apply bitmap_test_set_same; [lia|]. rewrite Hbmlen.
        pose proof (Z.div_mod i 8). pose proof (Z.mod_pos_bound i 8).
        unfold BLOCK_SIZE. lia. }
      split.
      { intros j Hj Hne. apply bitmap_test_set_other; lia. }
      exists (set_bytes (v_root_dir_img v) (dirent_off (used_entries_of (v_itbl19 v)))
                        (new_dirent_bytes i name)).
      split.
      { change INODES_PER_BLOCK with 32. by destruct (i / 32 =? 1). }
      unfold dirent_inode, new_dirent_bytes. apply get_u32_set_bytes; [|lia].
      rewrite Hrdlen. unfold dirent_off, SIZEOF_DIRENT, BLOCK_SIZE. lia.
Qed.

(** ** The latest array never fills *)

Lemma upsert_pending_never_fails (pending latest : list logged_image) (max : Z) :
  Z.of_nat (length latest) + Z.of_nat (length pending) ≤ max →
  upsert_pending_fails pending latest max = false.
Proof.
  revert latest. induction pending as [|p pending IH]; intros latest Hlen; [done|].
  cbn [upsert_pending_fails length] in *.
  destruct (logged_image_upsert_spec latest max (block_no p) (image p))
    as (latest' & -> & Hlen' & _); [lia|].
  apply IH. lia.
Qed.

Lemma collect_trace_bound (d : disk) (used : Z) (fuel : nat) (st : collect_state) :
  0 ≤ cs_pos st ≤ used → used ≤ journal_capacity_bytes →
  8 + 4104 * (Z.of_nat (length (cs_latest st)) + Z.of_nat (length (cs_pending st)))
  ≤ cs_pos st →
  Forall (λ s, Z.of_nat (length (cs_latest s)) + Z.of_nat (length (cs_pending s)) ≤ 15
               ∧ Z.of_nat (length (cs_latest s)) < LATEST_MAX
               ∧ upsert_pending_fails (cs_pending s) (cs_latest s) LATEST_MAX = false)
         (collect_trace fuel d used LATEST_MAX st).
Proof.
  revert st. induction fuel as [|fuel IH]; intros st Hpos Hused Hinv;
    pose proof Hused as Hused'; rewrite journal_capacity_bytes_eq in Hused';
    cbn [collect_trace].
  - constructor; [|constructor].
    split; [lia|]. split; [unfold LATEST_MAX; lia|].
    apply upsert_pending_never_fails. unfold LATEST_MAX. lia.
  - constructor.
    { split; [lia|]. split; [unfold LATEST_MAX; lia|].
      apply upsert_pending_never_fails. unfold LATEST_MAX. lia. }
    rewrite collect_step_record_at by (done || lia).
    destruct (record_at d used (cs_pos st)) as [[bno img|]|] eqn:Hr; [| |constructor].
    + destruct (Z.of_nat (length (cs_pending st)) >=? OVERLAY_PENDING_MAX);
        [constructor|].
      pose proof (record_at_bound _ _ _ _ Hr) as Hb. cbn [record_size] in Hb.
      apply IH; cbn [cs_pos cs_pending cs_latest]; [lia|done|].
      rewrite length_app. cbn [length]. lia.
    + pose proof (record_at_bound _ _ _ _ Hr) as Hb. cbn [record_size] in Hb.
      destruct (upsert_pending_spec (cs_pending st) (cs_latest st) LATEST_MAX)
        as [Hlen _]; [unfold LATEST_MAX; lia|].
      apply IH; cbn [cs_pos cs_pending cs_latest length]; [lia|done|lia].
Qed.


(** * The theorems at concrete images *)

Lemma cut_disk_header_ok : journal_header_ok (journal_read_header cut_disk) = true.
Proof. vm_compute. reflexivity. Qed.

(** The overlay theorem on the journal with a cut transaction: the record
    area holds the committed DATA record for block 17 and its COMMIT, and
    the overlay gives block 17 the logged image and block 19 none. *)
Lemma overlay_latest_committed_witness :
  ∃ latest,
    journal_collect_latest_committed (scan_fuel (journal_read_header cut_disk))
      cut_disk (journal_read_header cut_disk) LATEST_MAX = Ok latest
    ∧ logged_image_find latest 17 = Some (replicate (Z.to_nat BLOCK_SIZE) Byte.x01)
    ∧ logged_image_find latest 19 = None.
Proof.
  destruct (overlay_latest_committed cut_disk (journal_read_header cut_disk))
    as [_ Hscan].
  - vm_compute. reflexivity.
  - destruct (Hscan cut_recs) as (latest & Hrun & Hfind & _).
    + unfold record_area_holds. cbv zeta.
      split; [repeat constructor; vm_compute; congruence|].
      split; [vm_compute; discriminate|].
      split; [vm_compute; reflexivity|].
      intros [bno img|] Hwf Hfit.
      * exfalso. revert Hfit. vm_compute. intros Hfit. apply Hfit. reflexivity.
      * vm_compute. discriminate.
    + exists latest. split; [exact Hrun|]. rewrite !Hfind.
      split; vm_compute; reflexivity.
Defined.

Lemma truncated_transaction_invisible_witness :
  (∃ latest,
      journal_collect_latest_committed (scan_fuel (journal_read_header cut_disk))
        cut_disk (journal_read_header cut_disk) LATEST_MAX = Ok latest
      ∧ ∀ bno, logged_image_find latest bno
               = spec_overlay (committed_transactions cut_recs) bno)
  ∧ cmd_install cut_disk
    = Ok (journal_write_header
            (journal_clear_region
               (install_transactions cut_disk (committed_transactions cut_recs)))
            fresh_header,
          Z.of_nat (length (committed_transactions cut_recs))).
Proof.
  destruct (truncated_transaction_invisible cut_disk cut_recs cut_txn cut_tail cut_rest)
    as [Hoverlay Hinstall].
  - vm_compute. reflexivity.
  - repeat constructor; vm_compute; congruence.
  - repeat constructor; vm_compute; congruence.
  - vm_compute. reflexivity.
  - vm_compute. discriminate.
  - vm_compute. reflexivity.
  - vm_compute. reflexivity.
  - split; [exact Hoverlay|]. apply Hinstall.
    assert (committed_transactions cut_recs
            = [[ {| block_no := 17;
                    image := replicate (Z.to_nat BLOCK_SIZE) Byte.x01 |} ]]) as ->
      by (vm_compute; reflexivity).
    apply Forall_cons_2; [|apply Forall_nil_2].
    apply Forall_cons_2; [|apply Forall_nil_2].
    right. vm_compute. discriminate.
Defined.

Lemma install_resets_journal_witness :
  journal_header_ok (journal_read_header cut_disk) = true
  ∧ ∃ d' commits,
      cmd_install cut_disk = Ok (d', commits)
      ∧ journal_read_header d' = {| magic := 0x4A524E4C; nbytes_used := 8 |}
      ∧ pread d' (JOURNAL_BLOCKS * BLOCK_SIZE) journal_base_off
        = encode_journal_header {| magic := 0x4A524E4C; nbytes_used := 8 |}
          ++ zero_bytes (JOURNAL_BLOCKS * BLOCK_SIZE - 8).
Proof.
  split; [vm_compute; reflexivity|].
  apply (install_resets_journal cut_disk). vm_compute. reflexivity.
Defined.

Lemma install_idempotent_witness :
  journal_header_ok (journal_read_header cut_disk) = true
  ∧ ∃ d1 commits d2,
      cmd_install cut_disk = Ok (d1, commits)
      ∧ nbytes_used (journal_read_header d1) = 8
      ∧ cmd_install d1 = Ok (d2, 0)
      ∧ ∀ x, d2 x = d1 x.
Proof.
  split; [vm_compute; reflexivity|].
  apply (install_idempotent cut_disk). vm_compute. reflexivity.
Defined.

Lemma install_pending_never_full_witness :
  journal_header_ok (journal_read_header cut_disk) = true
  ∧ install_data_records (scan_fuel (journal_read_header cut_disk))
      (nbytes_used (journal_read_header cut_disk)) (install_init cut_disk) ≤ 15
  ∧ cmd_install cut_disk ≠ Exit TxnTooLarge.
Proof.
  split; [vm_compute; reflexivity|].
  destruct (install_pending_never_full cut_disk) as (H1 & _ & H3).
  - vm_compute. reflexivity.
  - split; [exact H1|exact H3].
Defined.


Lemma create_allocates_first_free_inode_witness :
  ∃ v, create_view (fresh_image 0) = Ok v
       ∧ find_free_inode (v_inode_bm v) = 1
       ∧ ∀ d', cmd_create name_a 1000 (fresh_image 0) = Ok d' →
               bitmap_test (bitmap_set (v_inode_bm v) 1) 1 = 1.
Proof.
  assert (is_ok (create_view (fresh_image 0)) = true) as Hok
    by (vm_compute; reflexivity).
  destruct (create_view (fresh_image 0)) as [v| |] eqn:Hv; [|discriminate Hok..].
  exists v. split; [reflexivity|].
  assert (match create_view (fresh_image 0) with
          | Ok v => (bitmap_test (v_inode_bm v) 1 =? 0)
          | _ => false
          end = true) as Hbit by (vm_compute; reflexivity).
  rewrite Hv in Hbit. apply Z.eqb_eq in Hbit.
  destruct (create_allocates_first_free_inode name_a 1000 (fresh_image 0) v
              eq_refl Hv) as [_ Hfirst].
  destruct (Hfirst 1 ltac:(lia) Hbit ltac:(lia)) as (Hfind & _ & Hlog).
  split; [exact Hfind|].
  intros d' Hrun. destruct (Hlog d' Hrun) as (_ & _ & _ & Hset & _). exact Hset.
Defined.

Lemma inode_index_always_in_range_witness :
  1 ≤ find_free_inode (Byte.x01 :: zero_bytes (BLOCK_SIZE - 1)) ≤ 63
  ∧ cmd_create name_a 1000 (fresh_image 0) ≠ Exit InodeOutOfRange.
Proof.
  destruct inode_index_always_in_range as [Hscan Hrun].
  split; [|apply Hrun].
  apply (Hscan (Byte.x01 :: zero_bytes (BLOCK_SIZE - 1))).
  vm_compute. discriminate.
Defined.


(** * The overlay scan past a full latest array *)

Lemma collect_loop_run (n fuel : nat) (d : disk) (used latest_max : Z)
    (st st' : collect_state) :
  collect_run n d used latest_max st = Some st' →
  collect_loop (n + fuel) d used latest_max st = collect_loop fuel d used latest_max st'.
Proof.
  revert st. induction n as [|n IH]; intros st; cbn [collect_run].
  { by intros [= ->]. }
  cbn [Nat.add collect_loop].
  destruct (collect_step d used latest_max st) as [st1| |]; [|done..].
  apply IH.
Qed.

(** A failed upsert at a COMMIT does not stop the scan: whatever
    [upsert_pending] returns, the iteration falls through to
    [pos += rh.size]. *)
Lemma collect_step_commit (d : disk) (used latest_max : Z) (st : collect_state) :
  cs_pos st + 4 ≤ used → u32 (cs_pos st + 4) ≤ used →
  read_rec_header d (cs_pos st) = {| rh_type := REC_COMMIT; rh_size := SIZEOF_REC_HEADER |} →
  collect_step d used latest_max st
  = Next {| cs_pos := u32 (cs_pos st + 4);
            cs_pending := [];
            cs_latest := upsert_pending (cs_pending st) (cs_latest st) latest_max |}.
Proof.
  intros H1 H2 Hrh. unfold collect_step. cbv zeta. rewrite Hrh. cbn [rh_type rh_size].
  change SIZEOF_REC_HEADER with 4.
  destruct (cs_pos st + 4 <=? used) eqn:Hle; [|lia]. cbn [negb].
  destruct (u32 (cs_pos st + 4) >? used) eqn:Hgt; [lia|]. done.
Qed.


(** The same behaviour on a journal within capacity, when the caller passes
    a latest array of one entry: the upsert of block 101 at the first COMMIT
    fails, and the second transaction still replaces the image of block
    100. *)
Lemma overlay_scan_continues_narrow_latest :
  journal_header_ok narrow_header = true
  ∧ journal_read_header narrow_disk = narrow_header
  ∧ logged_image_upsert
      [ {| block_no := 100; image := replicate (Z.to_nat BLOCK_SIZE) Byte.xaa |} ]
      1 101 (replicate (Z.to_nat BLOCK_SIZE) Byte.xbb) = None
  ∧ ∃ latest,
      journal_collect_latest_committed (scan_fuel narrow_header) narrow_disk
        narrow_header 1 = Ok latest
      ∧ logged_image_find latest 100 = Some (replicate (Z.to_nat BLOCK_SIZE) Byte.xdd)
      ∧ logged_image_find latest 101 = None.
Proof.
  split; [vm_compute; reflexivity|].
  split; [vm_compute; reflexivity|].
  split; [vm_compute; reflexivity|].
  assert (match journal_collect_latest_committed (scan_fuel narrow_header) narrow_disk
                  narrow_header 1 with
          | Ok latest =>
              logged_image_find latest 100
                = Some (replicate (Z.to_nat BLOCK_SIZE) Byte.xdd)
              ∧ logged_image_find latest 101 = None
          | _ => False
          end) as Hrun
    by (vm_compute; repeat split).
  destruct (journal_collect_latest_committed (scan_fuel narrow_header) narrow_disk
              narrow_header 1) as [latest| |]; [|contradiction..].
  exists latest. split; [reflexivity|exact Hrun].
Qed.

(** * Scenario S3 on a fresh image *)

(** C4, evaluated.  On a freshly formatted image whose root inode has
    [size = 0], [create a], [create b], [create c] and [install] leave inode
    bitmap byte 0 equal to 0x0F and report three committed transactions,
    but every [create] wrote its entry at index 2: byte offset 64 of the
    root directory block holds inode 3 named [c], and offsets 96 and 128
    hold no entry. *)
Theorem scenario_s3_from_empty_root :
  ∃ d, scenario_s3 (fresh_image 0) 1000 1001 1002 = Ok (d, 3)
       ∧ byte.unsigned (d (INODE_BMAP_BLK * BLOCK_SIZE)) = 0x0F
       ∧ dirent_at d 64 = (3, name_c)
       ∧ dirent_at d 96 = (0, [])
       ∧ dirent_at d 128 = (0, [])
       ∧ inode_size (read_block d INODE_TABLE_BLK) 0 = 96.
Proof.
  assert (match scenario_s3 (fresh_image 0) 1000 1001 1002 with
          | Ok (d, n) =>
              n = 3
              ∧ byte.unsigned (d (INODE_BMAP_BLK * BLOCK_SIZE)) = 0x0F
              ∧ dirent_at d 64 = (3, name_c)
              ∧ dirent_at d 96 = (0, [])
              ∧ dirent_at d 128 = (0, [])
              ∧ inode_size (read_block d INODE_TABLE_BLK) 0 = 96
          | _ => False
          end) as Hrun
    by (vm_compute; repeat split).
  destruct (scenario_s3 (fresh_image 0) 1000 1001 1002) as [[d n]| |];
    [|contradiction..].
  destruct Hrun as (-> & Hrest). exists d. split; [reflexivity|exact Hrest].
Qed.

(** The same commands on an image whose root inode already accounts for the
    two reserved entries ([size = 64]) give the three entries at offsets 64,
    96 and 128. *)
Lemma scenario_s3_from_root_size_64 :
  ∃ d, scenario_s3 (fresh_image 64) 1000 1001 1002 = Ok (d, 3)
       ∧ byte.unsigned (d (INODE_BMAP_BLK * BLOCK_SIZE)) = 0x0F
       ∧ dirent_at d 64 = (1, name_a)
       ∧ dirent_at d 96 = (2, name_b)
       ∧ dirent_at d 128 = (3, name_c).
Proof.
  assert (match scenario_s3 (fresh_image 64) 1000 1001 1002 with
          | Ok (d, n) =>
              n = 3
              ∧ byte.unsigned (d (INODE_BMAP_BLK * BLOCK_SIZE)) = 0x0F
              ∧ dirent_at d 64 = (1, name_a)
              ∧ dirent_at d 96 = (2, name_b)
              ∧ dirent_at d 128 = (3, name_c)
          | _ => False
          end) as Hrun
    by (vm_compute; repeat split).
  destruct (scenario_s3 (fresh_image 64) 1000 1001 1002) as [[d n]| |];
    [|contradiction..].
  destruct Hrun as (-> & Hrest). exists d. split; [reflexivity|exact Hrest].
Qed.

(** * A cut transaction that install writes *)

(** Where C2 as stated fails: [planted_disk].  The record area
    holds the committed records [planted_recs] followed by a strict prefix
    of the transaction [planted_txn], with [nbytes_used] at the end of the
    prefix, and block 17 is all zero.  [install] writes the committed image
    of block 3 over record-area offsets 8192..12287 while it scans, then
    reads the DATA record for block 17 and finds a COMMIT header at offset
    8220: it counts two commits and writes the image of the cut
    transaction to block 17. *)
Lemma install_writes_cut_transaction :
  journal_header_ok (journal_read_header planted_disk) = true
  ∧ Forall record_wf planted_recs
  ∧ Forall (λ p, record_wf (data_record p)) planted_txn
  ∧ planted_tail ++ planted_rest = encode_records (transaction_records planted_txn)
  ∧ planted_rest ≠ []
  ∧ nbytes_used (journal_read_header planted_disk)
    = 8 + Z.of_nat (length (encode_records planted_recs))
      + Z.of_nat (length planted_tail)
  ∧ pread planted_disk (nbytes_used (journal_read_header planted_disk) - 8)
          (journal_base_off + 8)
    = encode_records planted_recs ++ planted_tail
  ∧ length (committed_transactions planted_recs) = 1%nat
  ∧ read_block planted_disk 17 = zero_bytes BLOCK_SIZE
  ∧ ∃ d', cmd_install planted_disk = Ok (d', 2)
          ∧ read_block d' 17 = replicate (Z.to_nat BLOCK_SIZE) Byte.x11.
Proof.
  split; [vm_compute; reflexivity|].
  split; [repeat constructor; vm_compute; congruence|].
  split; [repeat constructor; vm_compute; congruence|].
  split; [apply take_drop|].
  split; [vm_compute; discriminate|].
  split; [vm_compute; reflexivity|].
  split; [vm_compute; reflexivity|].
  split; [vm_compute; reflexivity|].
  split; [vm_compute; reflexivity|].
  assert (match cmd_install planted_disk with
          | Ok (d', n) =>
              n = 2 ∧ read_block d' 17 = replicate (Z.to_nat BLOCK_SIZE) Byte.x11
          | _ => False
          end) as Hrun
    by (vm_compute; split; reflexivity).
  destruct (cmd_install planted_disk) as [[d' n]| |]; [|contradiction..].
  destruct Hrun as (-> & Hblk). exists d'. split; [reflexivity|exact Hblk].
Qed.

(** * A create that leaves no committed transaction *)


(** * Further properties of the journal functions *)

(** ** Bitmaps *)

(** X1.  [bitmap_set] followed by [bitmap_test]: inside the array, setting
    bit [i] makes bit [i] read 1, leaves every other bit as it read before,
    and keeps the length of the array. *)
Theorem bitmap_set_then_test (bm : list byte) (i j : Z) :
  0 ≤ i → i / 8 < Z.of_nat (length bm) → 0 ≤ j →
  bitmap_test (bitmap_set bm i) j = (if j =? i then 1 else bitmap_test bm j)
  ∧ length (bitmap_set bm i) = length bm.
Proof.
  intros Hi Hlen Hj. split; [|apply length_bitmap_set].
  destruct (j =? i) eqn:Hji.
  - apply Z.eqb_eq in Hji. subst j. by apply bitmap_test_set_same.
  - apply Z.eqb_neq in Hji. by apply bitmap_test_set_other.
Qed.

Lemma bitmap_set_then_test_witness :
  bitmap_test (bitmap_set (Byte.x01 :: zero_bytes 7) 10) 10 = 1
  ∧ bitmap_test (bitmap_set (Byte.x01 :: zero_bytes 7) 10) 0 = 1
  ∧ bitmap_test (bitmap_set (Byte.x01 :: zero_bytes 7) 10) 9 = 0.
Proof.
  split; [|split].
  - apply (bitmap_set_then_test (Byte.x01 :: zero_bytes 7) 10 10);
      vm_compute; congruence.
  - reflexivity.
  - reflexivity.
Defined.

(** ** The array of logged images *)

Lemma logged_image_find_None (arr : list logged_image) (bno : Z) :
  logged_image_find arr bno = None ↔ bno ∉ block_no <$> arr.
Proof.
  induction arr as [|e arr IH]; cbn [logged_image_find fmap list_fmap].
  - split; [intros _; apply not_elem_of_nil|done].
  - rewrite not_elem_of_cons. destruct (block_no e =? bno) eqn:Hb.
    + apply Z.eqb_eq in Hb. split; [done|]. intros [Hne _]. by destruct Hne.
    + apply Z.eqb_neq in Hb. rewrite IH. split; [intros ?; split; congruence|by intros [_ ?]].
Qed.

Lemma upsert_existing_block_nos (arr arr' : list logged_image) (bno : Z) (img : list byte) :
  upsert_existing arr bno img = Some arr' → block_no <$> arr' = block_no <$> arr.
Proof.
  revert arr'. induction arr as [|e arr IH]; intros arr'; cbn [upsert_existing]; [done|].
  destruct (block_no e =? bno).
  - by intros [= <-].
  - destruct (upsert_existing arr bno img) as [arr1|]; [|done].
    intros [= <-]. cbn [fmap list_fmap]. f_equal. by apply IH.
Qed.

(** X2.  [logged_image_upsert] and [logged_image_find].  The upsert returns
    0 exactly when the block is absent and the array already holds [max]
    entries.  When it returns 1, a lookup of the block gives the new image,
    every other lookup is unchanged, a block already present keeps its
    place, an absent one is appended, and block numbers stay distinct. *)
Theorem logged_image_upsert_find (arr : list logged_image) (max bno : Z)
    (img : list byte) :
  (logged_image_upsert arr max bno img = None
   ↔ logged_image_find arr bno = None ∧ max ≤ Z.of_nat (length arr))
  ∧ ∀ arr', logged_image_upsert arr max bno img = Some arr' →
      (∀ b, logged_image_find arr' b
            = if b =? bno then Some img else logged_image_find arr b)
      ∧ block_no <$> arr'
        = match logged_image_find arr bno with
          | Some _ => block_no <$> arr
          | None => (block_no <$> arr) ++ [bno]
          end
      ∧ (NoDup (block_no <$> arr) → NoDup (block_no <$> arr')).
Proof.
  unfold logged_image_upsert.
  destruct (upsert_existing arr bno img) as [arr1|] eqn:Hex.
  - assert (logged_image_find arr bno ≠ None) as Hfound.
    { intros Hnone. apply (proj2 (upsert_existing_None arr bno img)) in Hnone.
      congruence. }
    split; [split; [done|by intros [? _]]|].
    intros arr' [= <-].
    pose proof (upsert_existing_block_nos _ _ _ _ Hex) as Hnos.
    split; [by apply (upsert_existing_Some arr arr1 bno img)|].
    destruct (logged_image_find arr bno); [|done].
    split; [done|]. by rewrite Hnos.
  - apply upsert_existing_None in Hex. rewrite Hex.
    destruct (Z.of_nat (length arr) >=? max) eqn:Hfull.
    + split; [|done]. split; [intros _; split; [done|lia]|done].
    + split; [split; [done|intros [_ ?]; lia]|].
      intros arr' [= <-]. split; [|split].
      * intros b. rewrite logged_image_find_app. cbn [logged_image_find block_no image].
        rewrite (Z.eqb_sym bno b).
        destruct (b =? bno) eqn:Hb.
        -- apply Z.eqb_eq in Hb. subst b. by rewrite Hex.
        -- by destruct (logged_image_find arr b).
      * by rewrite fmap_app.
      * intros Hnd. rewrite fmap_app. apply NoDup_app. split; [done|].
        split; [|apply NoDup_singleton].
        intros b Hb Hb'. apply list_elem_of_singleton in Hb'. subst b.
        by apply logged_image_find_None in Hex.
Qed.

Lemma logged_image_upsert_find_witness :
  ∃ arr',
    logged_image_upsert [ {| block_no := 17; image := [Byte.x01] |} ] 2 19 [Byte.x02]
      = Some arr'
    ∧ logged_image_find arr' 19 = Some [Byte.x02]
    ∧ logged_image_find arr' 17 = Some [Byte.x01]
    ∧ NoDup (block_no <$> arr').
Proof.
  destruct (logged_image_upsert_find
              [ {| block_no := 17; image := [Byte.x01] |} ] 2 19 [Byte.x02])
    as [_ Hsome].
  eexists. split; [reflexivity|].
  destruct (Hsome _ eq_refl) as (Hfind & _ & Hnd).
  split; [by rewrite Hfind|]. split; [by rewrite Hfind|].
  apply Hnd. apply NoDup_singleton.
Defined.

(** ** The journal header *)

(** X3.  A header written by [journal_write_header] is the header
    [journal_read_header] reads back, and the write changes only the eight
    bytes at the journal base. *)
Theorem journal_header_round_trip (d : disk) (jh : journal_header) :
  0 ≤ magic jh < 2 ^ 32 → 0 ≤ nbytes_used jh < 2 ^ 32 →
  journal_read_header (journal_write_header d jh) = jh
  ∧ ∀ x, x < journal_base_off ∨ journal_base_off + 8 ≤ x →
         journal_write_header d jh x = d x.
Proof.
  intros Hm Hu. split; [by apply journal_read_write_header|].
  intros x Hx. by apply journal_write_header_outside.
Qed.

Lemma journal_header_round_trip_witness :
  journal_read_header
    (journal_write_header (fun _ => Byte.xff) {| magic := JOURNAL_MAGIC; nbytes_used := 12324 |})
  = {| magic := JOURNAL_MAGIC; nbytes_used := 12324 |}.
Proof.
  apply (journal_header_round_trip (fun _ => Byte.xff)
           {| magic := JOURNAL_MAGIC; nbytes_used := 12324 |});
    vm_compute; split; congruence.
Defined.

(** X4.  [journal_init_if_needed] returns a valid header that is the one
    on the image, and never touches a byte outside the journal region.  A
    valid journal is left exactly as it was; an invalid one is replaced by
    a fresh header followed by zeros.  Running it again changes nothing. *)
Theorem journal_init_if_needed_idempotent (d : disk) :
  let d1 := fst (journal_init_if_needed d) in
  let jh1 := snd (journal_init_if_needed d) in
  journal_header_ok jh1 = true
  ∧ journal_read_header d1 = jh1
  ∧ (∀ x, ¬ in_journal x → d1 x = d x)
  ∧ (journal_header_ok (journal_read_header d) = true →
     d1 = d ∧ jh1 = journal_read_header d)
  ∧ (journal_header_ok (journal_read_header d) = false →
     jh1 = {| magic := JOURNAL_MAGIC; nbytes_used := 8 |}
     ∧ pread d1 (JOURNAL_BLOCKS * BLOCK_SIZE) journal_base_off
       = encode_journal_header jh1 ++ zero_bytes (JOURNAL_BLOCKS * BLOCK_SIZE - 8))
  ∧ journal_init_if_needed d1 = (d1, jh1).
Proof.
  cbv zeta.
  destruct (journal_init_if_needed_spec d) as (Hok & Hread & Hframe & Hvalid).
  split; [done|]. split; [done|]. split; [done|]. split; [|split].
  - intros Hd. by rewrite (Hvalid Hd).
  - intros Hbad. unfold journal_init_if_needed. cbv zeta. rewrite Hbad. cbn [fst snd].
    split; [apply fresh_header_eq|]. apply journal_reset_region.
  - destruct (journal_init_if_needed_spec (fst (journal_init_if_needed d)))
      as (_ & _ & _ & Hagain).
    rewrite Hagain, Hread; [done|]. by rewrite Hread.
Qed.

Lemma journal_init_if_needed_idempotent_witness :
  snd (journal_init_if_needed (fun _ => Byte.xff))
  = {| magic := JOURNAL_MAGIC; nbytes_used := 8 |}.
Proof.
  destruct (journal_init_if_needed_idempotent (fun _ => Byte.xff))
    as (_ & _ & _ & _ & Hbad & _).
  apply Hbad. vm_compute. reflexivity.
Defined.

(** X5.  [install] exits with "journal not initialized" exactly when the
    header on the image fails the validity test, and in every other case
    runs to its end: it has no other exit, and its scan stops within the
    iterations the header allows. *)
Theorem install_fails_only_when_journal_missing (d : disk) :
  (journal_header_ok (journal_read_header d) = false
   ↔ cmd_install d = Exit JournalMissing)
  ∧ (journal_header_ok (journal_read_header d) = true
     ↔ ∃ d' commits, cmd_install d = Ok (d', commits)).
Proof.
  rewrite cmd_install_unfold. cbv zeta.
  destruct (journal_header_ok (journal_read_header d)) eqn:Hok.
  - destruct (install_loop_valid d (journal_read_header d) Hok) as [st ->].
    split; [split; done|]. split; [|done]. intros _. by eexists _, _.
  - split; [done|]. split; [done|]. by intros (d' & n & ?).
Qed.

Lemma install_fails_only_when_journal_missing_witness :
  cmd_install (fun _ => Byte.x00) = Exit JournalMissing.
Proof.
  apply (install_fails_only_when_journal_missing (fun _ => Byte.x00)).
  vm_compute. reflexivity.
Defined.

(** ** Appending to the record area *)

(** X6.  [journal_append_bytes] on a valid header, for a source short
    enough that the 32-bit sum cannot wrap: it exits with "journal full"
    exactly when the bytes do not fit in the 16 blocks; otherwise the
    header advances by the length of the source and stays valid, the bytes
    read back at the old end of the record area, and nothing outside the
    journal region and nothing in the record area logged before changes. *)
Theorem journal_append_bytes_within_capacity (d : disk) (jh : journal_header)
    (src : list byte) :
  let n := Z.of_nat (length src) in
  journal_header_ok jh = true → n < 2 ^ 32 - 65536 →
  if nbytes_used jh + n >? JOURNAL_BLOCKS * BLOCK_SIZE
  then journal_append_bytes d jh src = Exit JournalFull
  else ∃ d' jh',
      journal_append_bytes d jh src = Ok (d', jh')
      ∧ jh' = {| magic := magic jh; nbytes_used := nbytes_used jh + n |}
      ∧ journal_header_ok jh' = true
      ∧ journal_read_header d' = jh'
      ∧ pread d' n (journal_base_off + nbytes_used jh) = src
      ∧ (∀ x, ¬ in_journal x → d' x = d x)
      ∧ (∀ x, journal_base_off + 8 ≤ x < journal_base_off + nbytes_used jh →
              d' x = d x).
Proof.
  intros n Hok Hn. pose proof (journal_header_ok_bounds jh Hok) as [Hmagic Hused].
  change (JOURNAL_BLOCKS * BLOCK_SIZE) with 65536.
  destruct (nbytes_used jh + n >? 65536) eqn:Hfit.
  - unfold journal_append_bytes. cbv zeta. fold n.
    rewrite u32_small by lia. rewrite journal_capacity_bytes_eq. by rewrite Hfit.
  - destruct (journal_append_bytes_spec d jh src) as (d' & jh' & Hrun & Happ).
    { rewrite Hmagic. by vm_compute. }
    { lia. }
    { rewrite journal_capacity_bytes_eq. fold n. lia. }
    destruct Happ as (Hm & Hu & Hh & Hb & Hf). fold n in Hu, Hb, Hf.
    exists d', jh'. split; [done|].
    assert (jh' = {| magic := magic jh; nbytes_used := nbytes_used jh + n |}) as Hjh'.
    { destruct jh' as [m u]. cbn [magic nbytes_used] in *. congruence. }
    split; [done|]. split.
    { rewrite Hjh'. unfold journal_header_ok. cbn [magic nbytes_used].
      rewrite Hmagic, journal_capacity_bytes_eq.
      change SIZEOF_JOURNAL_HEADER with 8.
      rewrite Z.eqb_refl. cbn [negb orb].
      destruct (nbytes_used jh + n <? 8) eqn:H1; [lia|]. by rewrite Hfit. }
    split; [done|]. split; [done|]. split.
    + intros x Hx. rewrite in_journal_iff in Hx.
      apply Hf; change journal_base_off with 4096; lia.
    + intros x Hx. apply Hf; lia.
Qed.

Lemma journal_append_bytes_within_capacity_witness :
  ∃ d' jh',
    journal_append_bytes (journal_write_header (fun _ => Byte.x00) fresh_header)
                         fresh_header [Byte.x02; Byte.x00; Byte.x04; Byte.x00]
      = Ok (d', jh')
    ∧ nbytes_used jh' = 12.
Proof.
  pose proof (journal_append_bytes_within_capacity
                (journal_write_header (fun _ => Byte.x00) fresh_header)
                fresh_header [Byte.x02; Byte.x00; Byte.x04; Byte.x00]
                eq_refl eq_refl) as H.
  cbv beta iota zeta in H.
  change (nbytes_used fresh_header
          + Z.of_nat (length [Byte.x02; Byte.x00; Byte.x04; Byte.x00])
          >? JOURNAL_BLOCKS * BLOCK_SIZE) with false in H.
  destruct H as (d' & jh' & Hrun & Hjh & _).
  exists d', jh'. split; [exact Hrun|]. rewrite Hjh. reflexivity.
Defined.

(** ** What the scans read *)

Lemma record_at_local (d d' : disk) (used pos : Z) :
  0 ≤ pos →
  (∀ x, journal_base_off + pos ≤ x < journal_base_off + used → d' x = d x) →
  record_at d' used pos = record_at d used pos.
Proof.
  intros Hpos Heq.
  destruct (record_at d used pos) as [r|] eqn:Hr.
  - by apply (record_at_extend d d' used used pos r).
  - destruct (record_at d' used pos) as [r'|] eqn:Hr'; [|done].
    apply (record_at_extend d' d used used pos r') in Hr'; [congruence|done|lia|].
    intros x Hx. symmetry. by apply Heq.
Qed.

Lemma records_from_local (fuel : nat) (d d' : disk) (used pos : Z) :
  0 ≤ pos →
  (∀ x, journal_base_off + pos ≤ x < journal_base_off + used → d' x = d x) →
  records_from fuel d' used pos = records_from fuel d used pos.
Proof.
  revert pos. induction fuel as [|fuel IH]; intros pos Hpos Heq; [done|].
  cbn [records_from]. rewrite (record_at_local d d' used pos) by done.
  destruct (record_at d used pos) as [r|]; [|done].
  pose proof (record_size_pos r). f_equal. apply IH; [lia|].
  intros x Hx. apply Heq. lia.
Qed.

Lemma collect_as_records (d : disk) (jh : journal_header) (latest_max : Z) :
  journal_header_ok jh = true →
  journal_collect_latest_committed (scan_fuel jh) d jh latest_max
  = Ok (overlay_of_records (journal_records d (nbytes_used jh)) [] [] latest_max).
Proof.
  intros Hok. pose proof (journal_header_ok_bounds jh Hok) as [_ Hused].
  unfold journal_collect_latest_committed. rewrite collect_init_eq.
  rewrite collect_loop_records; cbn [cs_pos cs_pending cs_latest length].
  - done.
  - lia.
  - rewrite journal_capacity_bytes_eq. lia.
  - unfold scan_fuel. lia.
  - lia.
Qed.

(** X7.  The overlay scan reads nothing but the record area below
    [nbytes_used]: on two images that agree on the bytes from offset 8 of
    the journal up to [nbytes_used], it returns the same array, whatever
    the caller passes as [latest_max] and whatever lies beyond. *)
Theorem overlay_reads_only_used_area (d d' : disk) (jh : journal_header)
    (latest_max : Z) :
  journal_header_ok jh = true →
  (∀ x, journal_base_off + 8 ≤ x < journal_base_off + nbytes_used jh → d' x = d x) →
  journal_collect_latest_committed (scan_fuel jh) d' jh latest_max
  = journal_collect_latest_committed (scan_fuel jh) d jh latest_max.
Proof.
  intros Hok Heq. rewrite !collect_as_records by done.
  unfold journal_records. by rewrite (records_from_local _ d d') by (done || lia).
Qed.

Lemma overlay_reads_only_used_area_witness :
  journal_collect_latest_committed 4126
    (pwrite cut_disk [Byte.xff; Byte.xff] (journal_base_off + 4126))
    {| magic := JOURNAL_MAGIC; nbytes_used := 4126 |} LATEST_MAX
  = journal_collect_latest_committed 4126 cut_disk
      {| magic := JOURNAL_MAGIC; nbytes_used := 4126 |} LATEST_MAX.
Proof.
  apply (overlay_reads_only_used_area cut_disk
           (pwrite cut_disk [Byte.xff; Byte.xff] (journal_base_off + 4126))
           {| magic := JOURNAL_MAGIC; nbytes_used := 4126 |} LATEST_MAX).
  - reflexivity.
  - intros x Hx. cbn [nbytes_used] in Hx. apply pwrite_outside. lia.
Defined.

(** ** What install leaves on the live blocks *)

Lemma read_write_block_same (d : disk) (bno : Z) (img : list byte) :
  length img = Z.to_nat BLOCK_SIZE → read_block (write_block d bno img) bno = img.
Proof.
  intros Hlen. unfold read_block, write_block.
  assert (BLOCK_SIZE = Z.of_nat (length img)) as Hn by (rewrite Hlen; done).
  rewrite Hn at 2. apply pread_pwrite_same.
Qed.

Lemma read_write_block_other (d : disk) (bno bno' : Z) (img : list byte) :
  length img = Z.to_nat BLOCK_SIZE → bno ≠ bno' →
  read_block (write_block d bno img) bno' = read_block d bno'.
Proof.
  intros Hlen Hne. unfold read_block, write_block.
  apply pread_pwrite_disjoint. rewrite Hlen. unfold BLOCK_SIZE. lia.
Qed.

Lemma last_image_snoc (txn : list logged_image) (p : logged_image) (b : Z) :
  last_image (txn ++ [p]) b
  = if block_no p =? b then Some (image p) else last_image txn b.
Proof.
  induction txn as [|q txn IH]; cbn [app].
  - rewrite last_image_cons, last_image_nil. done.
  - rewrite !last_image_cons, IH.
    destruct (block_no p =? b); [done|]. done.
Qed.

Lemma write_pending_read (pending : list logged_image) (d : disk) (b : Z) :
  Forall (λ p, length (image p) = Z.to_nat BLOCK_SIZE) pending →
  read_block (write_pending d pending) b
  = match last_image pending b with
    | Some img => img
    | None => read_block d b
    end.
Proof.
  induction pending as [|p pending IH] using rev_ind; intros Hlen.
  { by rewrite last_image_nil. }
  apply Forall_app in Hlen as [Hlen Hp].
  pose proof (proj1 (Forall_singleton _ _) Hp) as Hp1. cbv beta in Hp1.
  unfold write_pending. rewrite foldl_app. cbn [foldl].
  fold (write_pending d pending). rewrite last_image_snoc.
  destruct (block_no p =? b) eqn:Hb.
  - apply Z.eqb_eq in Hb. subst b. by apply read_write_block_same.
  - apply Z.eqb_neq in Hb. rewrite read_write_block_other by done. by apply IH.
Qed.

Lemma spec_overlay_nil (b : Z) : spec_overlay [] b = None.
Proof. reflexivity. Qed.

Lemma install_transactions_read (txns : list (list logged_image)) (d : disk) (b : Z) :
  Forall (Forall (λ p, length (image p) = Z.to_nat BLOCK_SIZE)) txns →
  read_block (install_transactions d txns) b = committed_block d txns b.
Proof.
  unfold committed_block.
  induction txns as [|txn txns IH] using rev_ind; intros Hlen.
  { rewrite spec_overlay_nil. reflexivity. }
  apply Forall_app in Hlen as [Hlen Htxn].
  pose proof (proj1 (Forall_singleton _ _) Htxn) as Htxn1.
  unfold install_transactions. rewrite foldl_app. cbn [foldl].
  fold (install_transactions d txns).
  rewrite write_pending_read by done. rewrite spec_overlay_snoc.
  destruct (last_image txn b); [done|]. by apply IH.
Qed.

Lemma journal_records_images (d : disk) (used : Z) :
  Forall (Forall (λ p, length (image p) = Z.to_nat BLOCK_SIZE))
         (committed_transactions (journal_records d used)).
Proof.
  apply transactions_from_wf; [apply records_from_wf|constructor].
Qed.

Lemma read_block_live (d d' : disk) (bno : Z) :
  (∀ x, ¬ in_journal x → d' x = d x) → live_block bno →
  read_block d' bno = read_block d bno.
Proof.
  intros Hframe Hlive. unfold read_block. apply pread_ext. intros x Hx.
  apply Hframe. layout_lia.
Qed.

Lemma cmd_install_read (d : disk) :
  let jh := journal_read_header d in
  let txns := committed_transactions (journal_records d (nbytes_used jh)) in
  journal_header_ok jh = true →
  Forall (Forall (λ p, live_block (block_no p))) txns →
  ∃ d', cmd_install d = Ok (d', Z.of_nat (length txns))
        ∧ journal_read_header d' = fresh_header
        ∧ ∀ bno, live_block bno → read_block d' bno = committed_block d txns bno.
Proof.
  intros jh txns Hok Hlive. eexists. split; [by apply cmd_install_spec|].
  split.
  { apply journal_read_write_header; rewrite fresh_header_eq; by vm_compute. }
  intros bno Hbno.
  rewrite <- (install_transactions_read txns d bno) by apply journal_records_images.
  apply read_block_live; [|done].
  intros x Hx. rewrite journal_write_header_outside by layout_lia.
  by apply journal_clear_region_outside.
Qed.

(** X8.  [install] and the overlay scan agree.  On a valid journal whose
    committed records name blocks outside the journal region, [install]
    reports the number of committed transactions, and afterwards every
    block outside the journal region holds the image the overlay scan
    finds for it, or what it held before when the scan finds none. *)
Theorem install_writes_overlay (d : disk) :
  let jh := journal_read_header d in
  let txns := committed_transactions (journal_records d (nbytes_used jh)) in
  journal_header_ok jh = true →
  Forall (Forall (λ p, live_block (block_no p))) txns →
  ∃ d' latest,
    cmd_install d = Ok (d', Z.of_nat (length txns))
    ∧ journal_collect_latest_committed (scan_fuel jh) d jh LATEST_MAX = Ok latest
    ∧ ∀ bno, live_block bno →
             read_block d' bno = overlay_or latest bno (read_block d bno).
Proof.
  intros jh txns Hok Hlive.
  destruct (cmd_install_read d Hok Hlive) as (d' & Hrun & _ & Hread).
  destruct (collect_valid_header d jh Hok) as (latest & Hscan & Hfind & _).
  exists d', latest. split; [done|]. split; [done|].
  intros bno Hbno. rewrite (Hread bno Hbno).
  unfold overlay_or, committed_block. by rewrite Hfind.
Qed.

Lemma install_writes_overlay_witness :
  ∃ d' latest,
    cmd_install cut_disk
    = Ok (d', Z.of_nat (length (committed_transactions
                                  (journal_records cut_disk
                                     (nbytes_used (journal_read_header cut_disk))))))
    ∧ journal_collect_latest_committed (scan_fuel (journal_read_header cut_disk))
        cut_disk (journal_read_header cut_disk) LATEST_MAX = Ok latest
    ∧ read_block d' INODE_BMAP_BLK
      = overlay_or latest INODE_BMAP_BLK (read_block cut_disk INODE_BMAP_BLK).
Proof.
  destruct (install_writes_overlay cut_disk) as (d' & latest & Hrun & Hscan & Hread).
  - vm_compute. reflexivity.
  - assert (committed_transactions
              (journal_records cut_disk (nbytes_used (journal_read_header cut_disk)))
            = [[ {| block_no := 17;
                    image := replicate (Z.to_nat BLOCK_SIZE) Byte.x01 |} ]]) as ->
      by (vm_compute; reflexivity).
    apply Forall_cons_2; [|apply Forall_nil_2].
    apply Forall_cons_2; [|apply Forall_nil_2].
    right. vm_compute. discriminate.
  - exists d', latest. split; [exact Hrun|]. split; [exact Hscan|].
    apply Hread. right. vm_compute. discriminate.
Defined.

(** ** The view create works on *)

Lemma journal_records_empty (d : disk) : journal_records d 8 = [].
Proof. unfold journal_records. apply records_from_at_end. lia. Qed.

Lemma create_view_eq (d : disk) :
  create_view d =
    let d1 := fst (journal_init_if_needed d) in
    let jh := snd (journal_init_if_needed d) in
    let txns := committed_transactions (journal_records d1 (nbytes_used jh)) in
    let live19 := read_block d1 (INODE_TABLE_BLK + 0) in
    let itbl19 := committed_block d1 txns (INODE_TABLE_BLK + 0) in
    if negb (inode_type live19 0 =? 2) then Exit RootNotDir
    else if inode_direct0 live19 0 =? 0 then Exit RootNoBlock
    else if negb (inode_type itbl19 0 =? 2) then Exit RootNotDir
    else if inode_direct0 itbl19 0 =? 0 then Exit RootNoBlock
    else Ok (mk_view d1 jh (committed_block d1 txns INODE_BMAP_BLK) itbl19
                     (committed_block d1 txns (INODE_TABLE_BLK + 1))
                     (inode_direct0 itbl19 0)
                     (committed_block d1 txns (inode_direct0 itbl19 0))).
Proof.
  unfold create_view.
  destruct (journal_init_if_needed_spec d) as (Hok & _).
  destruct (journal_init_if_needed d) as [d1 jh]. cbn [fst snd] in *. cbv zeta.
  pose proof (journal_header_ok_bounds jh Hok) as [_ Hused].
  destruct (negb (inode_type (read_block d1 (INODE_TABLE_BLK + 0)) 0 =? 2)) eqn:Ht;
    [done|].
  destruct (inode_direct0 (read_block d1 (INODE_TABLE_BLK + 0)) 0 =? 0) eqn:Hd; [done|].
  destruct (nbytes_used jh >? SIZEOF_JOURNAL_HEADER) eqn:Hgt.
  - destruct (collect_valid_header d1 jh Hok) as (latest & -> & Hfind & _).
    cbn [mbind result_bind]. unfold overlay_or, committed_block.
    by rewrite !Hfind.
  - assert (nbytes_used jh = 8) as -> by (change SIZEOF_JOURNAL_HEADER with 8 in Hgt; lia).
    rewrite journal_records_empty. unfold committed_block.
    change (spec_overlay (committed_transactions []) ?b) with (@None (list byte)).
    cbv beta iota. by rewrite Ht, Hd.
Qed.

Lemma create_view_committed (d : disk) (v : view) :
  create_view d = Ok v →
  let txns := committed_transactions
                (journal_records (v_disk v) (nbytes_used (v_jh v))) in
  v_inode_bm v = committed_block (v_disk v) txns INODE_BMAP_BLK
  ∧ v_itbl19 v = committed_block (v_disk v) txns (INODE_TABLE_BLK + 0)
  ∧ v_itbl20 v = committed_block (v_disk v) txns (INODE_TABLE_BLK + 1)
  ∧ v_root_dir_block_no v = inode_direct0 (v_itbl19 v) 0
  ∧ v_root_dir_img v = committed_block (v_disk v) txns (v_root_dir_block_no v)
  ∧ inode_type (v_itbl19 v) 0 = 2
  ∧ inode_type (read_block (v_disk v) (INODE_TABLE_BLK + 0)) 0 = 2
  ∧ inode_direct0 (read_block (v_disk v) (INODE_TABLE_BLK + 0)) 0 ≠ 0.
Proof.
  intros Hview. rewrite create_view_eq in Hview. cbv zeta in Hview.
  destruct (negb (inode_type (read_block _ _) 0 =? 2)) eqn:Ht1 in Hview;
    [discriminate Hview|].
  destruct (inode_direct0 (read_block _ _) 0 =? 0) eqn:Hd1 in Hview;
    [discriminate Hview|].
  destruct (negb (inode_type (committed_block _ _ _) 0 =? 2)) eqn:Ht2 in Hview;
    [discriminate Hview|].
  destruct (inode_direct0 (committed_block _ _ _) 0 =? 0) eqn:Hd2 in Hview;
    [discriminate Hview|].
  injection Hview as <-. cbn [v_disk v_jh v_inode_bm v_itbl19 v_itbl20
                               v_root_dir_block_no v_root_dir_img]. cbv zeta.
  apply negb_false_iff, Z.eqb_eq in Ht1, Ht2. apply Z.eqb_neq in Hd1.
  done.
Qed.

Lemma metadata_blocks_live :
  live_block INODE_BMAP_BLK
  ∧ live_block (INODE_TABLE_BLK + 0)
  ∧ live_block (INODE_TABLE_BLK + 1).
Proof. repeat split; right; by vm_compute. Qed.

(** X9.  The view [create] works on is the image [install] would leave.
    When [create_view] succeeds on an image whose committed records name
    blocks outside the journal region, running [install] on that image
    instead leaves the inode bitmap block and the two inode-table blocks
    equal to the three block images of the view, and the root directory
    block equal to the view's directory image when that block lies outside
    the journal region. *)
Theorem create_sees_installed_image (d : disk) (v : view) :
  create_view d = Ok v →
  Forall (Forall (λ p, live_block (block_no p)))
         (committed_transactions (journal_records (v_disk v) (nbytes_used (v_jh v)))) →
  ∃ d' commits,
    cmd_install (v_disk v) = Ok (d', commits)
    ∧ read_block d' INODE_BMAP_BLK = v_inode_bm v
    ∧ read_block d' (INODE_TABLE_BLK + 0) = v_itbl19 v
    ∧ read_block d' (INODE_TABLE_BLK + 1) = v_itbl20 v
    ∧ (live_block (v_root_dir_block_no v) →
       read_block d' (v_root_dir_block_no v) = v_root_dir_img v).
Proof.
  intros Hview Hlive.
  destruct (create_view_spec d v Hview) as ((Hok & Hread & _) & _ & _).
  destruct (create_view_committed d v Hview) as (H17 & H19 & H20 & _ & Hroot & _).
  destruct (cmd_install_read (v_disk v)) as (d' & Hrun & _ & Hblk).
  { by rewrite Hread. }
  { by rewrite Hread. }
  rewrite Hread in Hrun, Hblk.
  exists d'. eexists. split; [exact Hrun|].
  rewrite H17, H19, H20, Hroot.
  destruct metadata_blocks_live as (L17 & L19 & L20).
  split; [by apply Hblk|]. split; [by apply Hblk|].
  split; [by apply Hblk|]. apply Hblk.
Qed.

Lemma all_live_spec (txns : list (list logged_image)) :
  all_live txns = true → Forall (Forall (λ p, live_block (block_no p))) txns.
Proof.
  unfold all_live. rewrite forallb_forall, Forall_forall. intros H txn Htxn.
  apply list_elem_of_In in Htxn. specialize (H txn Htxn).
  rewrite forallb_forall in H. apply Forall_forall. intros p Hp.
  apply list_elem_of_In in Hp. specialize (H p Hp).
  unfold live_blockb in H. unfold live_block.
  apply orb_true_iff in H as [H|H]; [left|right]; lia.
Qed.

(** ** The journal after create *)

Lemma scan_end_records (fuel : nat) (d : disk) (used pos : Z) :
  scan_end fuel d used pos
  = pos + Z.of_nat (length (encode_records (records_from fuel d used pos))).
Proof.
  revert pos. induction fuel as [|fuel IH]; intros pos; cbn [scan_end records_from].
  { cbn [encode_records length]. lia. }
  destruct (record_at d used pos) as [r|] eqn:Hr.
  - cbn [encode_records]. rewrite length_app, Nat2Z.inj_add.
    rewrite (length_encode_record r) by (by eapply record_at_wf).
    rewrite IH. lia.
  - cbn [encode_records length]. lia.
Qed.

Lemma journal_clean_iff (d : disk) (used : Z) :
  journal_clean d used
  ↔ 8 + Z.of_nat (length (encode_records (journal_records d used))) = used.
Proof. unfold journal_clean, journal_records. by rewrite scan_end_records. Qed.

Lemma pending_from_app (r1 r2 : list record) (cur : list logged_image) :
  pending_from cur (r1 ++ r2) = pending_from (pending_from cur r1) r2.
Proof.
  revert cur. induction r1 as [|[bno img|] r1 IH]; intros cur; cbn [app pending_from];
    [done|apply IH|apply IH].
Qed.

Lemma pending_from_transaction (txn cur : list logged_image) :
  pending_from cur (transaction_records txn) = [].
Proof.
  unfold transaction_records. rewrite pending_from_app. cbn [pending_from]. done.
Qed.

Lemma cmd_create_journal (name : list byte) (now : Z) (d d' : disk) (v : view) :
  cmd_create name now d = Ok d' → create_view d = Ok v →
  let txn := create_transaction name now v in
  let used := nbytes_used (v_jh v) in
  let used' := used + Z.of_nat (length (encode_records (transaction_records txn))) in
  view_wf v
  ∧ (1 ≤ find_free_inode (v_inode_bm v) < 64
     ∧ inode_type (if find_free_inode (v_inode_bm v) / 32 =? 0
                   then v_itbl19 v else v_itbl20 v)
                  (find_free_inode (v_inode_bm v) mod 32) = 0
     ∧ used_entries_of (v_itbl19 v) < 128
     ∧ name_exists (v_root_dir_img v) (used_entries_of (v_itbl19 v)) name = false)
  ∧ Forall (λ p, record_wf (data_record p)) txn
  ∧ (∀ x, ¬ in_journal x → d' x = v_disk v x)
  ∧ journal_read_header d' = {| magic := JOURNAL_MAGIC; nbytes_used := used' |}
  ∧ used < used' ≤ 65536
  ∧ (journal_clean (v_disk v) used →
     journal_records d' used' = journal_records (v_disk v) used ++ transaction_records txn).
Proof.
  intros Hrun Hview. apply cmd_create_ok in Hrun as (v0 & Hview0 & Htxn).
  rewrite Hview in Hview0. injection Hview0 as <-.
  destruct (create_view_spec d v Hview) as (Hwf & _ & _).
  pose proof Hwf as (Hok & Hread & _).
  apply journal_header_ok_bounds in Hok as [Hmagic Hused].
  destruct (create_txn_ok name now v d' Hwf Htxn)
    as (Hchecks & jh' & Happ & Hcap).
  pose proof Hchecks as (Hrange & _ & Hents & _).
  destruct (create_transaction_wf name now v Hwf Hrange Hents) as [Hrecwf Hlen].
  pose proof Happ as (Hm & Hu & Hh & Hb & Hf).
  rewrite journal_capacity_bytes_eq in Hcap.
  assert (Forall record_wf (transaction_records (create_transaction name now v))) as Hrecs.
  { unfold transaction_records. apply Forall_app. split.
    - by apply Forall_fmap.
    - by repeat constructor. }
  assert (0 < Z.of_nat (length (encode_records
                (transaction_records (create_transaction name now v))))) as Hpos.
  { unfold transaction_records. rewrite length_encode_records_app, length_app.
    cbn [encode_records encode_record]. rewrite app_nil_r, length_encode_rec_header. lia. }
  cbv zeta. split; [done|]. split; [done|]. split; [done|]. split.
  { intros x Hx. rewrite in_journal_iff in Hx.
    apply Hf; change journal_base_off with 4096; lia. }
  split. { rewrite Hh. destruct jh' as [m u]. cbn [magic nbytes_used] in *. congruence. }
  split; [lia|].
  intros Hclean. rewrite <- Hu.
  apply (journal_records_appended (v_disk v) d' (v_jh v) jh'); try done; try lia.
Qed.

Lemma journal_closed_fresh (d : disk) :
  journal_read_header d = fresh_header → journal_closed d.
Proof.
  intros Hh. unfold journal_closed. cbv zeta. rewrite Hh.
  split; [apply fresh_header_ok|].
  change (nbytes_used fresh_header) with 8.
  rewrite journal_clean_iff, journal_records_empty. done.
Qed.

Lemma create_view_closed (d : disk) (v : view) :
  create_view d = Ok v →
  (journal_header_ok (journal_read_header d) = true → journal_closed d) →
  journal_closed (v_disk v).
Proof.
  intros Hview Hinv. destruct (create_view_spec d v Hview) as (_ & Hvd & _).
  rewrite Hvd. unfold journal_init_if_needed. cbv zeta.
  destruct (journal_header_ok (journal_read_header d)) eqn:Hok; cbn [fst].
  - by apply Hinv.
  - apply journal_closed_fresh.
    apply journal_read_write_header; rewrite fresh_header_eq; by vm_compute.
Qed.

Lemma cmd_create_closed (name : list byte) (now : Z) (d d' : disk) (v : view) :
  cmd_create name now d = Ok d' → create_view d = Ok v →
  journal_closed (v_disk v) →
  journal_closed d'
  ∧ committed_transactions (journal_records d' (nbytes_used (journal_read_header d')))
    = committed_transactions (journal_records (v_disk v) (nbytes_used (v_jh v)))
      ++ [create_transaction name now v].
Proof.
  intros Hrun Hview Hclosed.
  destruct (cmd_create_journal name now d d' v Hrun Hview)
    as (Hwf & _ & _ & _ & Hh & Hused & Hrecs). cbv zeta in *.
  destruct Hwf as (_ & Hread & _).
  destruct Hclosed as (_ & Hclean & Htail). rewrite Hread in Hclean, Htail.
  specialize (Hrecs Hclean).
  unfold journal_closed. cbv zeta. rewrite Hh. cbn [nbytes_used]. rewrite Hrecs.
  split; [split; [|split]|].
  - unfold journal_header_ok. cbn [magic nbytes_used].
    rewrite journal_capacity_bytes_eq. change SIZEOF_JOURNAL_HEADER with 8.
    rewrite Z.eqb_refl. cbn [negb orb].
    pose proof (journal_header_ok_bounds (v_jh v)) as Hb.
    destruct (_ <? 8) eqn:H1; [|destruct (_ >? 65536) eqn:H2; [lia|done]].
    apply journal_clean_iff in Hclean. lia.
  - rewrite journal_clean_iff, Hrecs, length_encode_records_app, length_app.
    apply journal_clean_iff in Hclean. lia.
  - unfold uncommitted_tail. rewrite pending_from_app. apply pending_from_transaction.
  - unfold committed_transactions. rewrite transactions_from_app.
    rewrite transactions_from_transaction. unfold uncommitted_tail in Htail.
    by rewrite Htail.
Qed.

(** X10.  The journal stays closed.  A journal is closed when its header
    is valid, its record area decodes into records up to [nbytes_used],
    and no DATA record follows the last COMMIT.  Every successful
    [install] leaves a closed (empty) journal, and every successful
    [create] leaves a closed journal provided the journal it found was
    closed or had no valid header. *)
Theorem commands_keep_journal_closed :
  (∀ d d' commits, cmd_install d = Ok (d', commits) → journal_closed d')
  ∧ (∀ name now d d',
       cmd_create name now d = Ok d' →
       (journal_header_ok (journal_read_header d) = true → journal_closed d) →
       journal_closed d').
Proof.
  split.
  - intros d d' commits Hrun. rewrite cmd_install_unfold in Hrun. cbv zeta in Hrun.
    destruct (journal_header_ok (journal_read_header d)); [|discriminate Hrun].
    destruct (install_loop _ _ _) as [st| |]; [|discriminate Hrun..].
    injection Hrun as <- _. apply journal_closed_fresh.
    apply journal_read_write_header; rewrite fresh_header_eq; by vm_compute.
  - intros name now d d' Hrun Hinv.
    destruct (cmd_create_ok name now d d' Hrun) as (v & Hview & _).
    pose proof (create_view_closed d v Hview Hinv) as Hclosed.
    by destruct (cmd_create_closed name now d d' v Hrun Hview Hclosed).
Qed.

(** ** Fields of a block image after [memcpy] into it *)

Lemma set_bytes_lookup_other (buf src : list byte) (off : Z) (i : nat) :
  0 ≤ off → off + Z.of_nat (length src) ≤ Z.of_nat (length buf) →
  Z.of_nat i < off ∨ off + Z.of_nat (length src) ≤ Z.of_nat i →
  set_bytes buf off src !! i = buf !! i.
Proof.
  intros Hoff Hfit [Hlt|Hge]; unfold set_bytes.
  - rewrite lookup_app_l by (rewrite length_take; lia).
    rewrite lookup_take. destruct (decide (i < Z.to_nat off)%nat); [done|lia].
  - rewrite lookup_app_r by (rewrite length_take; lia).
    rewrite lookup_app_r by (rewrite length_take; lia).
    rewrite lookup_drop, length_take. f_equal. lia.
Qed.

Lemma set_bytes_lookup_same (buf src : list byte) (off : Z) (i : nat) :
  0 ≤ off → off + Z.of_nat (length src) ≤ Z.of_nat (length buf) →
  (i < length src)%nat →
  set_bytes buf off src !! (Z.to_nat off + i)%nat = src !! i.
Proof.
  intros Hoff Hfit Hi. unfold set_bytes.
  rewrite lookup_app_r by (rewrite length_take; lia).
  rewrite length_take. rewrite lookup_app_l by lia. f_equal. lia.
Qed.

Lemma slice_set_bytes_other (buf src : list byte) (off a : Z) (n : nat) :
  0 ≤ off → off + Z.of_nat (length src) ≤ Z.of_nat (length buf) → 0 ≤ a →
  a + Z.of_nat n ≤ off ∨ off + Z.of_nat (length src) ≤ a →
  take n (drop (Z.to_nat a) (set_bytes buf off src)) = take n (drop (Z.to_nat a) buf).
Proof.
  intros Hoff Hfit Ha Hdisj. apply list_eq. intros k.
  rewrite !lookup_take. destruct (decide (k < n)%nat); [|done].
  rewrite !lookup_drop. apply set_bytes_lookup_other; lia.
Qed.

Lemma slice_set_bytes_same (buf src : list byte) (off : Z) :
  0 ≤ off → off + Z.of_nat (length src) ≤ Z.of_nat (length buf) →
  take (length src) (drop (Z.to_nat off) (set_bytes buf off src)) = src.
Proof.
  intros Hoff Hfit. unfold set_bytes.
  rewrite drop_app_length' by (rewrite length_take; lia).
  by rewrite take_app_length.
Qed.

Lemma get_u16_set_bytes_other (buf src : list byte) (off a : Z) :
  0 ≤ off → off + Z.of_nat (length src) ≤ Z.of_nat (length buf) → 0 ≤ a →
  a + 2 ≤ off ∨ off + Z.of_nat (length src) ≤ a →
  get_u16 (set_bytes buf off src) a = get_u16 buf a.
Proof.
  intros. unfold get_u16. by rewrite slice_set_bytes_other by (done || lia).
Qed.

Lemma get_u32_set_bytes_other (buf src : list byte) (off a : Z) :
  0 ≤ off → off + Z.of_nat (length src) ≤ Z.of_nat (length buf) → 0 ≤ a →
  a + 4 ≤ off ∨ off + Z.of_nat (length src) ≤ a →
  get_u32 (set_bytes buf off src) a = get_u32 buf a.
Proof.
  intros. unfold get_u32. by rewrite slice_set_bytes_other by (done || lia).
Qed.

(** ** The images create logs *)

Lemma mutate_images_root (name : list byte) (now : Z) (v : view)
    (new_inum inode_block_index inode_slot used_entries : Z) :
  view_wf v → 0 ≤ inode_slot < 32 → (inode_block_index = 0 → 1 ≤ inode_slot) →
  let im := mutate_images name now v new_inum inode_block_index inode_slot
                          used_entries in
  inode_type (im_itbl19 im) 0 = inode_type (v_itbl19 v) 0
  ∧ inode_direct0 (im_itbl19 im) 0 = inode_direct0 (v_itbl19 v) 0
  ∧ inode_size (im_itbl19 im) 0 = u32 (inode_size (v_itbl19 v) 0 + SIZEOF_DIRENT)
  ∧ inode_mtime (im_itbl19 im) 0 = u32 now.
Proof.
  intros (_ & _ & _ & H19 & _) Hslot Hfirst.
  unfold mutate_images. cbv zeta. cbn [im_itbl19].
  set (tbl := if inode_block_index =? 0
              then set_bytes (v_itbl19 v) (inode_off inode_slot) (new_inode_bytes now)
              else v_itbl19 v).
  assert (length tbl = 4096%nat) as Htbl.
  { subst tbl. destruct (inode_block_index =? 0); [|done].
    rewrite length_set_bytes; [done|unfold inode_off, INODE_SIZE; lia|].
    rewrite length_new_inode_bytes, H19. unfold inode_off, INODE_SIZE, BLOCK_SIZE. lia. }
  assert (inode_type tbl 0 = inode_type (v_itbl19 v) 0
          ∧ inode_direct0 tbl 0 = inode_direct0 (v_itbl19 v) 0
          ∧ inode_size tbl 0 = inode_size (v_itbl19 v) 0) as (Ht & Hd & Hs).
  { subst tbl. destruct (inode_block_index =? 0) eqn:Hidx; [|done].
    apply Z.eqb_eq in Hidx. specialize (Hfirst Hidx).
    unfold inode_type, inode_direct0, inode_size. change (inode_off 0) with 0.
    rewrite get_u16_set_bytes_other, !get_u32_set_bytes_other; [done|..];
      rewrite ?length_new_inode_bytes, ?H19; unfold inode_off, INODE_SIZE, BLOCK_SIZE; lia. }
  set (size' := u32 (inode_size tbl 0 + SIZEOF_DIRENT)).
  set (t1 := set_bytes tbl (inode_off 0 + 4) (le_split 4 size')).
  assert (length t1 = 4096%nat) as Ht1.
  { subst t1. rewrite length_set_bytes; [done|by vm_compute|].
    rewrite length_le_split, Htbl. change (inode_off 0 + 4) with 4. lia. }
  assert (0 ≤ size' < 2 ^ 32) as Hsize
    by (subst size'; unfold u32; apply Z.mod_pos_bound; lia).
  assert (0 ≤ u32 now < 2 ^ 32) as Hnow by (unfold u32; apply Z.mod_pos_bound; lia).
  unfold inode_type, inode_direct0, inode_size, inode_mtime in *.
  change (inode_off 0) with 0 in *. change (0 + 4) with 4 in *.
  change (0 + 8) with 8 in *. change (0 + 44) with 44 in *.
  split; [|split; [|split]].
  - rewrite get_u16_set_bytes_other by (rewrite ?length_le_split, ?Ht1; lia).
    subst t1. rewrite get_u16_set_bytes_other by (rewrite ?length_le_split, ?Htbl; lia).
    done.
  - rewrite get_u32_set_bytes_other by (rewrite ?length_le_split, ?Ht1; lia).
    subst t1. rewrite get_u32_set_bytes_other by (rewrite ?length_le_split, ?Htbl; lia).
    done.
  - rewrite get_u32_set_bytes_other by (rewrite ?length_le_split, ?Ht1; lia).
    subst t1. rewrite <- (app_nil_r (le_split 4 size')).
    rewrite get_u32_set_bytes by (rewrite ?Htbl; lia).
    subst size'. by rewrite Hs.
  - rewrite <- (app_nil_r (le_split 4 (u32 now))).
    rewrite get_u32_set_bytes by (rewrite ?Ht1; lia). done.
Qed.

Ltac eqb_const :=
  repeat match goal with
         | |- context [?a =? ?b] =>
             let e := eval vm_compute in (a =? b) in
             match e with
             | true => change (a =? b) with true
             | false => change (a =? b) with false
             end
         end.

Lemma last_image_create_transaction (name : list byte) (now : Z) (v : view) :
  v_root_dir_block_no v ≠ INODE_BMAP_BLK →
  v_root_dir_block_no v ≠ INODE_TABLE_BLK + 0 →
  v_root_dir_block_no v ≠ INODE_TABLE_BLK + 1 →
  let txn := create_transaction name now v in
  let i := find_free_inode (v_inode_bm v) in
  let im := mutate_images name now v i (i / INODES_PER_BLOCK) (i mod INODES_PER_BLOCK)
                          (used_entries_of (v_itbl19 v)) in
  last_image txn INODE_BMAP_BLK = Some (im_inode_bm im)
  ∧ last_image txn (INODE_TABLE_BLK + 0) = Some (im_itbl19 im)
  ∧ last_image txn (INODE_TABLE_BLK + 1)
    = (if i / INODES_PER_BLOCK =? 1 then Some (im_itbl20 im) else None)
  ∧ last_image txn (v_root_dir_block_no v) = Some (im_root_dir_img im).
Proof.
  intros H17 H19 H20. cbv zeta. unfold create_transaction. cbv zeta.
  set (im := mutate_images _ _ _ _ _ _ _).
  assert ((v_root_dir_block_no v =? INODE_BMAP_BLK) = false) as E1 by by apply Z.eqb_neq.
  assert ((v_root_dir_block_no v =? INODE_TABLE_BLK + 0) = false) as E2
    by by apply Z.eqb_neq.
  assert ((v_root_dir_block_no v =? INODE_TABLE_BLK + 1) = false) as E3
    by by apply Z.eqb_neq.
  assert ((INODE_BMAP_BLK =? v_root_dir_block_no v) = false) as E4
    by (apply Z.eqb_neq; congruence).
  assert ((INODE_TABLE_BLK + 0 =? v_root_dir_block_no v) = false) as E5
    by (apply Z.eqb_neq; congruence).
  assert ((INODE_TABLE_BLK + 1 =? v_root_dir_block_no v) = false) as E6
    by (apply Z.eqb_neq; congruence).
  destruct (find_free_inode (v_inode_bm v) / INODES_PER_BLOCK =? 1);
    cbn [app]; rewrite !last_image_cons, !last_image_nil; cbn [block_no image];
    rewrite ?E1, ?E2, ?E3, ?E4, ?E5, ?E6, ?Z.eqb_refl; eqb_const; done.
Qed.

Lemma find_free_inode_slot (bm : list byte) :
  1 ≤ find_free_inode bm < 64 →
  0 ≤ find_free_inode bm mod INODES_PER_BLOCK < 32
  ∧ (find_free_inode bm / INODES_PER_BLOCK = 0 →
     1 ≤ find_free_inode bm mod INODES_PER_BLOCK)
  ∧ (find_free_inode bm / INODES_PER_BLOCK = 0
     ∨ find_free_inode bm / INODES_PER_BLOCK = 1).
Proof. intros Hi. change INODES_PER_BLOCK with 32. Z.div_mod_to_equations. lia. Qed.

Lemma committed_block_after_create (name : list byte) (now : Z) (d d' : disk) (v : view) :
  cmd_create name now d = Ok d' → create_view d = Ok v →
  journal_closed (v_disk v) →
  v_root_dir_block_no v ≠ INODE_BMAP_BLK →
  v_root_dir_block_no v ≠ INODE_TABLE_BLK + 0 →
  v_root_dir_block_no v ≠ INODE_TABLE_BLK + 1 →
  let i := find_free_inode (v_inode_bm v) in
  let im := mutate_images name now v i (i / INODES_PER_BLOCK) (i mod INODES_PER_BLOCK)
                          (used_entries_of (v_itbl19 v)) in
  let txns' := committed_transactions
                 (journal_records d' (nbytes_used (journal_read_header d'))) in
  committed_block d' txns' INODE_BMAP_BLK = im_inode_bm im
  ∧ committed_block d' txns' (INODE_TABLE_BLK + 0) = im_itbl19 im
  ∧ committed_block d' txns' (INODE_TABLE_BLK + 1) = im_itbl20 im
  ∧ committed_block d' txns' (v_root_dir_block_no v) = im_root_dir_img im.
Proof.
  intros Hrun Hview Hclosed H17 H19 H20. cbv zeta.
  destruct (cmd_create_closed name now d d' v Hrun Hview Hclosed) as [_ ->].
  destruct (cmd_create_journal name now d d' v Hrun Hview)
    as (_ & (Hrange & _) & _ & Hframe & _).
  destruct (last_image_create_transaction name now v H17 H19 H20)
    as (L17 & L19 & L20 & Lroot).
  cbv zeta in *. unfold committed_block. rewrite !spec_overlay_snoc.
  rewrite L17, L19, L20, Lroot.
  split; [done|]. split; [done|]. split; [|done].
  destruct (find_free_inode_slot (v_inode_bm v) Hrange) as (_ & _ & [Hidx|Hidx]);
    rewrite Hidx; [|done].
  change (0 =? 1) with false. cbv iota.
  destruct (create_view_committed d v Hview) as (_ & _ & Hv20 & _).
  unfold mutate_images. cbv zeta. cbn [im_itbl20]. change (0 =? 0) with true. cbv iota.
  rewrite Hv20. unfold committed_block.
  destruct metadata_blocks_live as (_ & _ & Hl20).
  by rewrite (read_block_live (v_disk v) d' _ Hframe Hl20).
Qed.

Lemma create_view_after_create (name : list byte) (now : Z) (d d' : disk)
    (v : view) :
  cmd_create name now d = Ok d' → create_view d = Ok v →
  (journal_header_ok (journal_read_header d) = true → journal_closed d) →
  v_root_dir_block_no v ≠ INODE_BMAP_BLK →
  v_root_dir_block_no v ≠ INODE_TABLE_BLK + 0 →
  v_root_dir_block_no v ≠ INODE_TABLE_BLK + 1 →
  let i := find_free_inode (v_inode_bm v) in
  let im := mutate_images name now v i (i / INODES_PER_BLOCK) (i mod INODES_PER_BLOCK)
                          (used_entries_of (v_itbl19 v)) in
  create_view d'
  = Ok {| v_disk := d';
          v_jh := journal_read_header d';
          v_inode_bm := im_inode_bm im;
          v_itbl19 := im_itbl19 im;
          v_itbl20 := im_itbl20 im;
          v_root_dir_block_no := v_root_dir_block_no v;
          v_root_dir_img := im_root_dir_img im |}.
Proof.
  intros Hrun Hview Hinv H17 H19 H20. cbv zeta.
  pose proof (create_view_closed d v Hview Hinv) as Hclosed.
  destruct (cmd_create_closed name now d d' v Hrun Hview Hclosed) as [Hclosed' _].
  destruct (committed_block_after_create name now d d' v Hrun Hview Hclosed H17 H19 H20)
    as (C17 & C19 & C20 & Croot).
  destruct (cmd_create_journal name now d d' v Hrun Hview)
    as (Hwf & (Hrange & _) & _ & Hframe & _).
  destruct (create_view_committed d v Hview)
    as (_ & _ & _ & Hroot & _ & Htype & Hlive_type & Hlive_d0).
  destruct (find_free_inode_slot (v_inode_bm v) Hrange) as (Hslot & Hfirst & _).
  destruct (mutate_images_root name now v (find_free_inode (v_inode_bm v))
              (find_free_inode (v_inode_bm v) / INODES_PER_BLOCK)
              (find_free_inode (v_inode_bm v) mod INODES_PER_BLOCK)
              (used_entries_of (v_itbl19 v)) Hwf Hslot Hfirst) as (Mt & Md & _).
  cbv zeta in *.
  destruct Hclosed' as (Hok' & _).
  destruct (journal_init_if_needed_spec d') as (_ & _ & _ & Hinit).
  rewrite create_view_eq. cbv zeta. rewrite (Hinit Hok'). cbn [fst snd].
  destruct metadata_blocks_live as (_ & Hl19 & _).
  rewrite (read_block_live (v_disk v) d' _ Hframe Hl19).
  rewrite Hlive_type. change (negb (2 =? 2)) with false. cbv iota.
  apply Z.eqb_neq in Hlive_d0. rewrite Hlive_d0.
  rewrite C17, C19, C20. rewrite Mt, Md, Htype, <- Hroot.
  change (negb (2 =? 2)) with false. cbv iota.
  destruct Hwf as (_ & _ & _ & _ & _ & _ & Hrootpos).
  destruct (v_root_dir_block_no v =? 0) eqn:Hz; [lia|].
  by rewrite Croot.
Qed.

(** X11.  [create] reads back what the previous [create] logged.  After a
    successful [create] on a closed (or uninitialised) journal, with the
    root directory in a block other than 17, 19 and 20, the view the next
    [create] builds from the resulting image holds exactly the four block
    images the first one computed: the bitmap with the new bit, the inode
    tables with the new inode and the updated root inode, and the directory
    block with the new entry. *)
Theorem create_reads_back_its_writes (name : list byte) (now : Z) (d d' : disk)
    (v : view) :
  cmd_create name now d = Ok d' → create_view d = Ok v →
  (journal_header_ok (journal_read_header d) = true → journal_closed d) →
  v_root_dir_block_no v ≠ INODE_BMAP_BLK →
  v_root_dir_block_no v ≠ INODE_TABLE_BLK + 0 →
  v_root_dir_block_no v ≠ INODE_TABLE_BLK + 1 →
  let i := find_free_inode (v_inode_bm v) in
  let im := mutate_images name now v i (i / INODES_PER_BLOCK) (i mod INODES_PER_BLOCK)
                          (used_entries_of (v_itbl19 v)) in
  create_view d'
  = Ok {| v_disk := d';
          v_jh := journal_read_header d';
          v_inode_bm := im_inode_bm im;
          v_itbl19 := im_itbl19 im;
          v_itbl20 := im_itbl20 im;
          v_root_dir_block_no := v_root_dir_block_no v;
          v_root_dir_img := im_root_dir_img im |}.
Proof. apply create_view_after_create. Qed.

(** ** Names in directory entries *)

Lemma slice_set_bytes_inside (buf src : list byte) (off k : Z) (n : nat) :
  0 ≤ off → off + Z.of_nat (length src) ≤ Z.of_nat (length buf) →
  0 ≤ k → k + Z.of_nat n ≤ Z.of_nat (length src) →
  take n (drop (Z.to_nat (off + k)) (set_bytes buf off src))
  = take n (drop (Z.to_nat k) src).
Proof.
  intros Hoff Hfit Hk Hn. apply list_eq. intros j.
  rewrite !lookup_take. destruct (decide (j < n)%nat); [|done].
  rewrite !lookup_drop.
  replace (Z.to_nat (off + k) + j)%nat with (Z.to_nat off + (Z.to_nat k + j))%nat by lia.
  apply set_bytes_lookup_same; lia.
Qed.

Lemma strncmp_strncpy (n : nat) (name : list byte) :
  strlen name ≤ Z.of_nat n →
  strncmp_eq (S n) (strncpy n name ++ [Byte.x00]) name = true.
Proof.
  revert name. induction n as [|n IH]; intros name Hlen.
  - cbn [strncpy app strncmp_eq hd]. destruct name as [|c rest]; [done|].
    cbn [strlen hd] in *. unfold is_nul in *.
    destruct (byte.unsigned c =? 0) eqn:Hc.
    + apply Z.eqb_eq in Hc. rewrite Hc. done.
    + assert (0 ≤ strlen rest) by (clear; induction rest as [|x r IHr];
        cbn [strlen]; [lia|destruct (is_nul x); lia]). lia.
  - destruct name as [|c rest].
    + cbn [strncpy]. cbn [replicate app strncmp_eq hd]. done.
    + cbn [strncpy strlen] in *. unfold is_nul in *.
      destruct (byte.unsigned c =? 0) eqn:Hc.
      * cbn [replicate app strncmp_eq hd]. apply Z.eqb_eq in Hc. rewrite Hc. done.
      * cbn [app]. change (strncmp_eq (S (S n)) (c :: strncpy n rest ++ [Byte.x00])
                            (c :: rest))
          with (if byte.unsigned c =? byte.unsigned c
                then (if is_nul c then true
                      else strncmp_eq (S n) (strncpy n rest ++ [Byte.x00]) rest)
                else false).
        rewrite Z.eqb_refl. unfold is_nul. rewrite Hc. apply IH. lia.
Qed.

Lemma cmd_create_name_ok (name : list byte) (now : Z) (d d' : disk) :
  cmd_create name now d = Ok d' → name_ok name = true.
Proof.
  unfold cmd_create, name_ok.
  destruct (match name with [] => true | c :: _ => is_nul c end); [done|].
  by destruct (strlen name >=? NAME_LEN).
Qed.

Lemma mutate_images_dirent (name : list byte) (now : Z) (v : view)
    (new_inum inode_block_index inode_slot used_entries : Z) :
  view_wf v → 0 ≤ new_inum < 2 ^ 32 → 0 ≤ used_entries < 128 →
  let im := mutate_images name now v new_inum inode_block_index inode_slot
                          used_entries in
  dirent_inode (im_root_dir_img im) used_entries = new_inum
  ∧ dirent_name (im_root_dir_img im) used_entries
    = strncpy (Z.to_nat (NAME_LEN - 1)) name ++ [Byte.x00]
  ∧ ∀ k, 0 ≤ k < 128 → k ≠ used_entries →
         dirent_inode (im_root_dir_img im) k = dirent_inode (v_root_dir_img v) k
         ∧ dirent_name (im_root_dir_img im) k = dirent_name (v_root_dir_img v) k.
Proof.
  intros (_ & _ & _ & _ & _ & Hrd & _) Hinum Hused.
  unfold mutate_images. cbv zeta. cbn [im_root_dir_img].
  unfold dirent_inode, dirent_name, new_dirent_bytes.
  assert (length (strncpy (Z.to_nat (NAME_LEN - 1)) name ++ [Byte.x00]) = 28%nat) as Hn.
  { rewrite length_app, length_strncpy. done. }
  assert (length (le_split 4 new_inum
                  ++ strncpy (Z.to_nat (NAME_LEN - 1)) name ++ [Byte.x00]) = 32%nat)
    as Hsrc.
  { rewrite length_app, length_le_split, Hn. done. }
  split; [|split].
  - rewrite get_u32_set_bytes; [done| |done].
    rewrite Hrd. unfold dirent_off, SIZEOF_DIRENT, BLOCK_SIZE. lia.
  - change (Z.to_nat NAME_LEN) with 28%nat.
    rewrite slice_set_bytes_inside.
    + change (Z.to_nat 4) with (length (le_split 4 new_inum)).
      rewrite drop_app_length. rewrite <- Hn at 1. apply firstn_all.
    + unfold dirent_off, SIZEOF_DIRENT. lia.
    + rewrite Hsrc, Hrd. unfold dirent_off, SIZEOF_DIRENT, BLOCK_SIZE. lia.
    + lia.
    + rewrite Hsrc. lia.
  - intros k Hk Hne. unfold get_u32. change (Z.to_nat NAME_LEN) with 28%nat.
    rewrite !slice_set_bytes_other; [done|..];
      rewrite ?Hsrc, ?Hrd; unfold dirent_off, SIZEOF_DIRENT, BLOCK_SIZE; lia.
Qed.

Lemma name_exists_after_create (name : list byte) (now : Z) (v : view) :
  view_wf v → name_ok name = true →
  1 ≤ find_free_inode (v_inode_bm v) < 64 →
  used_entries_of (v_itbl19 v) < 128 →
  64 ≤ inode_size (v_itbl19 v) 0 →
  let i := find_free_inode (v_inode_bm v) in
  let im := mutate_images name now v i (i / INODES_PER_BLOCK) (i mod INODES_PER_BLOCK)
                          (used_entries_of (v_itbl19 v)) in
  used_entries_of (im_itbl19 im) = used_entries_of (v_itbl19 v) + 1
  ∧ name_exists (im_root_dir_img im) (used_entries_of (im_itbl19 im)) name = true.
Proof.
  intros Hwf Hname Hrange Hents Hsize. cbv zeta.
  destruct (find_free_inode_slot (v_inode_bm v) Hrange) as (Hslot & Hfirst & _).
  pose proof (used_entries_of_lower (v_itbl19 v)) as Hlow.
  destruct (mutate_images_root name now v (find_free_inode (v_inode_bm v))
              (find_free_inode (v_inode_bm v) / INODES_PER_BLOCK)
              (find_free_inode (v_inode_bm v) mod INODES_PER_BLOCK)
              (used_entries_of (v_itbl19 v)) Hwf Hslot Hfirst) as (_ & _ & Ms & _).
  destruct (mutate_images_dirent name now v (find_free_inode (v_inode_bm v))
              (find_free_inode (v_inode_bm v) / INODES_PER_BLOCK)
              (find_free_inode (v_inode_bm v) mod INODES_PER_BLOCK)
              (used_entries_of (v_itbl19 v)) Hwf) as (Di & Dn & _); [lia|lia|].
  cbv zeta in *.
  assert (used_entries_of (v_itbl19 v) = inode_size (v_itbl19 v) 0 / 32) as Hused.
  { unfold used_entries_of. cbv zeta. change SIZEOF_DIRENT with 32.
    destruct (inode_size (v_itbl19 v) 0 / 32 <? 2) eqn:Hlt; [|done].
    apply Z.ltb_lt in Hlt. Z.div_mod_to_equations. lia. }
  assert (inode_size (v_itbl19 v) 0 < 4096) as Hhi.
  { rewrite Hused in Hents. Z.div_mod_to_equations. lia. }
  assert (used_entries_of
            (im_itbl19 (mutate_images name now v (find_free_inode (v_inode_bm v))
               (find_free_inode (v_inode_bm v) / INODES_PER_BLOCK)
               (find_free_inode (v_inode_bm v) mod INODES_PER_BLOCK)
               (used_entries_of (v_itbl19 v))))
          = used_entries_of (v_itbl19 v) + 1) as Hnext.
  { unfold used_entries_of at 1. cbv zeta. rewrite Ms. change SIZEOF_DIRENT with 32.
    rewrite u32_small by lia. rewrite Hused.
    destruct ((inode_size (v_itbl19 v) 0 + 32) / 32 <? 2) eqn:Hlt.
    - apply Z.ltb_lt in Hlt. Z.div_mod_to_equations. lia.
    - Z.div_mod_to_equations. lia. }
  split; [done|]. rewrite Hnext.
  unfold name_exists. apply existsb_exists. exists (used_entries_of (v_itbl19 v)).
  split. { apply list_elem_of_In, elem_of_seqZ. lia. }
  rewrite Di, Dn.
  destruct (find_free_inode (v_inode_bm v) =? 0) eqn:Hz; [lia|]. cbn [negb andb].
  change (Z.to_nat NAME_LEN) with (S 27). change (Z.to_nat (NAME_LEN - 1)) with 27%nat.
  apply strncmp_strncpy. unfold name_ok in Hname.
  apply andb_true_iff in Hname as [_ Hlen]. apply negb_true_iff in Hlen.
  change NAME_LEN with 28 in Hlen. lia.
Qed.

(** X12.  The same name cannot be created twice.  After a successful
    [create] of [name] on a closed (or uninitialised) journal, with the
    root directory in a block other than 17, 19 and 20 and the root inode
    accounting for its two reserved entries ([size >= 64]), the directory
    scan of the next [create] covers the new entry and finds [name] in it.
    A second [create] of [name] therefore never succeeds: it exits with
    "file already exists", unless one of the three tests made before the
    directory scan (no free inode, inode slot in use, directory full)
    stops it first. *)
Theorem create_same_name_twice (name : list byte) (now now2 : Z) (d d' : disk)
    (v : view) :
  cmd_create name now d = Ok d' → create_view d = Ok v →
  (journal_header_ok (journal_read_header d) = true → journal_closed d) →
  v_root_dir_block_no v ≠ INODE_BMAP_BLK →
  v_root_dir_block_no v ≠ INODE_TABLE_BLK + 0 →
  v_root_dir_block_no v ≠ INODE_TABLE_BLK + 1 →
  64 ≤ inode_size (v_itbl19 v) 0 →
  let i := find_free_inode (v_inode_bm v) in
  let im := mutate_images name now v i (i / INODES_PER_BLOCK) (i mod INODES_PER_BLOCK)
                          (used_entries_of (v_itbl19 v)) in
  let j := find_free_inode (im_inode_bm im) in
  name_exists (im_root_dir_img im) (used_entries_of (im_itbl19 im)) name = true
  ∧ (cmd_create name now2 d' = Exit FileExists
     ∨ cmd_create name now2 d' = Exit NoFreeInode
     ∨ cmd_create name now2 d' = Exit CorruptBitmap
     ∨ cmd_create name now2 d' = Exit DirFull)
  ∧ (j ≠ u32 (-1) →
     inode_type (if j / INODES_PER_BLOCK =? 0 then im_itbl19 im else im_itbl20 im)
                (j mod INODES_PER_BLOCK) = 0 →
     used_entries_of (im_itbl19 im) < NENTS →
     cmd_create name now2 d' = Exit FileExists).
Proof.
  intros Hrun Hview Hinv H17 H19 H20 Hsize. cbv zeta.
  pose proof (cmd_create_name_ok name now d d' Hrun) as Hname.
  pose proof (create_view_after_create name now d d' v Hrun Hview Hinv H17 H19 H20)
    as Hview'. cbv zeta in Hview'.
  destruct (cmd_create_journal name now d d' v Hrun Hview)
    as (Hwf & (Hrange & _ & Hents & _) & _).
  destruct (name_exists_after_create name now v Hwf Hname Hrange Hents Hsize)
    as [_ Hex]. cbv zeta in Hex.
  split; [exact Hex|].
  rewrite (cmd_create_unfold name now2 d' _ Hname Hview').
  rewrite create_txn_unfold. cbv zeta.
  cbn [v_inode_bm v_itbl19 v_itbl20 v_root_dir_img v_jh v_disk].
  set (im := mutate_images _ _ _ _ _ _ _) in *.
  destruct (find_free_inode_range (im_inode_bm im)) as [Hnone|[_ Hidx]].
  { rewrite Hnone, Z.eqb_refl. split; [tauto|]. intros Hj. by destruct Hj. }
  destruct (find_free_inode (im_inode_bm im) =? u32 (-1)) eqn:Hsent.
  { apply Z.eqb_eq in Hsent. split; [tauto|]. intros Hj. by destruct Hj. }
  assert ((find_free_inode (im_inode_bm im) / INODES_PER_BLOCK >=? INODE_TABLE_BLKS)
          = false) as ->.
  { change INODE_TABLE_BLKS with 2. destruct Hidx as [-> | ->]; done. }
  destruct (inode_type _ (find_free_inode (im_inode_bm im) mod INODES_PER_BLOCK) =? 0)
    eqn:Htype; cbn [negb].
  2:{ split; [tauto|]. intros _ Ht. apply Z.eqb_neq in Htype. by destruct Htype. }
  destruct (used_entries_of (im_itbl19 im) >=? NENTS) eqn:Hfull.
  { split; [tauto|]. intros _ _ Hlt. lia. }
  rewrite Hex. split; [tauto|done].
Qed.

(** ** create followed by install *)

Lemma create_transaction_live (name : list byte) (now : Z) (v : view) :
  live_block (v_root_dir_block_no v) →
  Forall (λ p, live_block (block_no p)) (create_transaction name now v).
Proof.
  intros Hroot. destruct metadata_blocks_live as (L17 & L19 & L20).
  unfold create_transaction. cbv zeta.
  destruct (find_free_inode (v_inode_bm v) / INODES_PER_BLOCK =? 1); cbn [app];
    repeat (apply Forall_cons_2; [done|]); apply Forall_nil_2.
Qed.

(** X13.  [create] followed by [install].  After a successful [create] on
    a closed (or uninitialised) journal whose committed records, like the
    root directory block, lie outside the journal region, with the root
    directory in a block other than 17, 19 and 20, [install] reports one
    transaction more than the journal held before, leaves an empty journal,
    and leaves the inode bitmap block, both inode-table blocks and the root
    directory block equal to the images [create] computed. *)
Theorem create_then_install (name : list byte) (now : Z) (d d' : disk) (v : view) :
  cmd_create name now d = Ok d' → create_view d = Ok v →
  (journal_header_ok (journal_read_header d) = true → journal_closed d) →
  v_root_dir_block_no v ≠ INODE_BMAP_BLK →
  v_root_dir_block_no v ≠ INODE_TABLE_BLK + 0 →
  v_root_dir_block_no v ≠ INODE_TABLE_BLK + 1 →
  live_block (v_root_dir_block_no v) →
  let old := committed_transactions
               (journal_records (v_disk v) (nbytes_used (v_jh v))) in
  Forall (Forall (λ p, live_block (block_no p))) old →
  let i := find_free_inode (v_inode_bm v) in
  let im := mutate_images name now v i (i / INODES_PER_BLOCK) (i mod INODES_PER_BLOCK)
                          (used_entries_of (v_itbl19 v)) in
  ∃ d'',
    cmd_install d' = Ok (d'', Z.of_nat (length old) + 1)
    ∧ journal_read_header d'' = {| magic := JOURNAL_MAGIC; nbytes_used := 8 |}
    ∧ read_block d'' INODE_BMAP_BLK = im_inode_bm im
    ∧ read_block d'' (INODE_TABLE_BLK + 0) = im_itbl19 im
    ∧ read_block d'' (INODE_TABLE_BLK + 1) = im_itbl20 im
    ∧ read_block d'' (v_root_dir_block_no v) = im_root_dir_img im.
Proof.
  intros Hrun Hview Hinv H17 H19 H20 Hroot old Hold. cbv zeta.
  pose proof (create_view_closed d v Hview Hinv) as Hclosed.
  destruct (cmd_create_closed name now d d' v Hrun Hview Hclosed) as [Hclosed' Htxns].
  destruct (committed_block_after_create name now d d' v Hrun Hview Hclosed H17 H19 H20)
    as (C17 & C19 & C20 & Croot). cbv zeta in *.
  destruct Hclosed' as (Hok' & _).
  destruct (cmd_install_read d' Hok') as (d'' & Hinst & Hh & Hblk).
  { rewrite Htxns. apply Forall_app. split; [done|].
    apply Forall_singleton. by apply create_transaction_live. }
  cbv zeta in *. destruct metadata_blocks_live as (L17 & L19 & L20).
  exists d''. split.
  { rewrite Hinst, Htxns, length_app. cbn [length]. do 2 f_equal. subst old. lia. }
  split; [by rewrite Hh, fresh_header_eq|].
  rewrite <- C17, <- C19, <- C20, <- Croot.
  repeat split; by apply Hblk.
Qed.

(** ** The new inode *)

Lemma get_u16_set_bytes_inside (buf src : list byte) (off k : Z) :
  0 ≤ off → off + Z.of_nat (length src) ≤ Z.of_nat (length buf) →
  0 ≤ k → k + 2 ≤ Z.of_nat (length src) →
  get_u16 (set_bytes buf off src) (off + k) = get_u16 src k.
Proof.
  intros. unfold get_u16. by rewrite slice_set_bytes_inside by (done || lia).
Qed.

Lemma get_u32_set_bytes_inside (buf src : list byte) (off k : Z) :
  0 ≤ off → off + Z.of_nat (length src) ≤ Z.of_nat (length buf) →
  0 ≤ k → k + 4 ≤ Z.of_nat (length src) →
  get_u32 (set_bytes buf off src) (off + k) = get_u32 src k.
Proof.
  intros. unfold get_u32. by rewrite slice_set_bytes_inside by (done || lia).
Qed.

Lemma new_inode_bytes_fields (now : Z) :
  get_u16 (new_inode_bytes now) 0 = 1
  ∧ get_u16 (new_inode_bytes now) 2 = 1
  ∧ get_u32 (new_inode_bytes now) 4 = 0
  ∧ get_u32 (new_inode_bytes now) 8 = 0
  ∧ get_u32 (new_inode_bytes now) 40 = u32 now
  ∧ get_u32 (new_inode_bytes now) 44 = u32 now.
Proof.
  assert (0 ≤ u32 now < 2 ^ 32) as Hnow by (unfold u32; apply Z.mod_pos_bound; lia).
  unfold new_inode_bytes, get_u16, get_u32.
  change (le_split 2 1) with [Byte.x01; Byte.x00].
  change (le_split 4 0) with [Byte.x00; Byte.x00; Byte.x00; Byte.x00].
  change (zero_bytes 32) with (replicate 32 Byte.x00).
  change (Z.to_nat 0) with 0%nat. change (Z.to_nat 2) with 2%nat.
  change (Z.to_nat 4) with 4%nat. change (Z.to_nat 8) with 8%nat.
  change (Z.to_nat 40) with 40%nat. change (Z.to_nat 44) with 44%nat.
  cbn [app replicate drop take].
  repeat split; try reflexivity.
  - rewrite drop_0. rewrite take_app_length' by (by rewrite length_le_split).
    rewrite (le_combine_split 4). by apply Z.mod_small.
  - rewrite drop_app_length' by (by rewrite length_le_split).
    rewrite take_app_length' by (by rewrite length_le_split).
    rewrite (le_combine_split 4). by apply Z.mod_small.
Qed.

Lemma inode_slot_written (tbl : list byte) (slot now : Z) :
  length tbl = Z.to_nat BLOCK_SIZE → 0 ≤ slot < 32 →
  let t := set_bytes tbl (inode_off slot) (new_inode_bytes now) in
  inode_type t slot = 1
  ∧ get_u16 t (inode_off slot + 2) = 1
  ∧ inode_size t slot = 0
  ∧ inode_direct0 t slot = 0
  ∧ get_u32 t (inode_off slot + 40) = u32 now
  ∧ inode_mtime t slot = u32 now.
Proof.
  intros Hlen Hslot. cbv zeta.
  destruct (new_inode_bytes_fields now) as (F0 & F2 & F4 & F8 & F40 & F44).
  unfold inode_type, inode_size, inode_direct0, inode_mtime.
  replace (inode_off slot) with (inode_off slot + 0) at 2 by lia.
  rewrite get_u16_set_bytes_inside, get_u16_set_bytes_inside,
    !get_u32_set_bytes_inside; [done|..];
    rewrite ?length_new_inode_bytes, ?Hlen; unfold inode_off, INODE_SIZE, BLOCK_SIZE; lia.
Qed.

Lemma cmd_create_bytes (name : list byte) (now : Z) (d d' : disk) (v : view) :
  cmd_create name now d = Ok d' → create_view d = Ok v →
  let bytes := encode_records (transaction_records (create_transaction name now v)) in
  pread d' (Z.of_nat (length bytes)) (journal_base_off + nbytes_used (v_jh v)) = bytes.
Proof.
  intros Hrun Hview. apply cmd_create_ok in Hrun as (v0 & Hview0 & Htxn).
  rewrite Hview in Hview0. injection Hview0 as <-.
  destruct (create_view_spec d v Hview) as (Hwf & _ & _).
  destruct (create_txn_ok name now v d' Hwf Htxn) as (_ & jh' & Happ & _).
  by destruct Happ as (_ & _ & _ & Hb & _).
Qed.

(** X14.  What a successful [create] logs.  The bytes it appends at the
    old end of the record area, up to the new [nbytes_used], are the
    encoding of a DATA record for block 17 with the bitmap image, one for
    block 19 with the first inode-table image, one for block 20 with the
    second when the new inode lies there, one for the root directory block
    with the directory image, and a COMMIT.  In the inode-table image the
    slot of the new inode holds a regular file with one link, size 0, no
    data block and [ctime = mtime = now]; the root inode keeps its type and
    directory block, its size grows by 32 and its [mtime] becomes [now].
    The bitmap image has the new inode's bit set.  In the directory image
    the entry at index [max (2, root.size / 32)] holds the new inode number
    and the name, NUL-padded to 28 bytes, and every other entry is as it
    was. *)
Theorem create_logs_new_inode (name : list byte) (now : Z) (d d' : disk) (v : view) :
  cmd_create name now d = Ok d' → create_view d = Ok v →
  let i := find_free_inode (v_inode_bm v) in
  let slot := i mod INODES_PER_BLOCK in
  let used := used_entries_of (v_itbl19 v) in
  let im := mutate_images name now v i (i / INODES_PER_BLOCK) slot used in
  let tbl := if i / INODES_PER_BLOCK =? 0 then im_itbl19 im else im_itbl20 im in
  let logged :=
    encode_records
      ([ DATA INODE_BMAP_BLK (im_inode_bm im);
         DATA (INODE_TABLE_BLK + 0) (im_itbl19 im) ]
       ++ (if i / INODES_PER_BLOCK =? 1
           then [ DATA (INODE_TABLE_BLK + 1) (im_itbl20 im) ]
           else [])
       ++ [ DATA (v_root_dir_block_no v) (im_root_dir_img im); COMMIT ]) in
  (pread d' (Z.of_nat (length logged)) (journal_base_off + nbytes_used (v_jh v))
   = logged
   ∧ journal_read_header d'
     = {| magic := JOURNAL_MAGIC;
          nbytes_used := nbytes_used (v_jh v) + Z.of_nat (length logged) |})
  ∧ (inode_type tbl slot = 1
   ∧ get_u16 tbl (inode_off slot + 2) = 1
   ∧ inode_size tbl slot = 0
   ∧ inode_direct0 tbl slot = 0
   ∧ get_u32 tbl (inode_off slot + 40) = u32 now
   ∧ inode_mtime tbl slot = u32 now)
  ∧ (inode_type (im_itbl19 im) 0 = 2
     ∧ inode_direct0 (im_itbl19 im) 0 = v_root_dir_block_no v
     ∧ inode_size (im_itbl19 im) 0 = u32 (inode_size (v_itbl19 v) 0 + 32)
     ∧ inode_mtime (im_itbl19 im) 0 = u32 now)
  ∧ bitmap_test (im_inode_bm im) i = 1
  ∧ (dirent_inode (im_root_dir_img im) used = i
     ∧ dirent_name (im_root_dir_img im) used
       = strncpy (Z.to_nat (NAME_LEN - 1)) name ++ [Byte.x00]
     ∧ ∀ k, 0 ≤ k < 128 → k ≠ used →
            dirent_inode (im_root_dir_img im) k = dirent_inode (v_root_dir_img v) k
            ∧ dirent_name (im_root_dir_img im) k = dirent_name (v_root_dir_img v) k).
Proof.
  intros Hrun Hview. cbv zeta.
  destruct (cmd_create_journal name now d d' v Hrun Hview)
    as (Hwf & (Hrange & _ & Hents & _) & _).
  destruct (create_view_committed d v Hview) as (_ & _ & _ & Hroot & _ & Htype & _).
  destruct (find_free_inode_slot (v_inode_bm v) Hrange) as (Hslot & Hfirst & Hidx).
  pose proof (used_entries_of_lower (v_itbl19 v)) as Hlow.
  set (i := find_free_inode (v_inode_bm v)) in *.
  destruct (mutate_images_root name now v i (i / INODES_PER_BLOCK)
              (i mod INODES_PER_BLOCK) (used_entries_of (v_itbl19 v))
              Hwf Hslot Hfirst) as (Mt & Md & Ms & Mm).
  destruct (mutate_images_dirent name now v i (i / INODES_PER_BLOCK)
              (i mod INODES_PER_BLOCK) (used_entries_of (v_itbl19 v)) Hwf)
    as (Di & Dn & Dk); [lia|lia|].
  pose proof (cmd_create_bytes name now d d' v Hrun Hview) as Hbytes.
  destruct (cmd_create_journal name now d d' v Hrun Hview)
    as (_ & _ & _ & _ & Hheader & _).
  cbv zeta in *.
  pose proof Hwf as (_ & _ & Hbm & H19 & H20 & _).
  split; [|split; [|split; [|split]]].
  - assert (transaction_records (create_transaction name now v)
            = [ DATA INODE_BMAP_BLK
                     (im_inode_bm (mutate_images name now v i (i / INODES_PER_BLOCK)
                        (i mod INODES_PER_BLOCK) (used_entries_of (v_itbl19 v))));
                DATA (INODE_TABLE_BLK + 0)
                     (im_itbl19 (mutate_images name now v i (i / INODES_PER_BLOCK)
                        (i mod INODES_PER_BLOCK) (used_entries_of (v_itbl19 v)))) ]
              ++ (if i / INODES_PER_BLOCK =? 1
                  then [ DATA (INODE_TABLE_BLK + 1)
                           (im_itbl20 (mutate_images name now v i (i / INODES_PER_BLOCK)
                              (i mod INODES_PER_BLOCK) (used_entries_of (v_itbl19 v)))) ]
                  else [])
              ++ [ DATA (v_root_dir_block_no v)
                        (im_root_dir_img (mutate_images name now v i
                           (i / INODES_PER_BLOCK) (i mod INODES_PER_BLOCK)
                           (used_entries_of (v_itbl19 v))));
                   COMMIT ]) as Hlist.
    { unfold transaction_records, create_transaction. cbv zeta. fold i.
      by destruct (i / INODES_PER_BLOCK =? 1). }
    rewrite <- Hlist. split; [exact Hbytes|exact Hheader].
  - unfold mutate_images. cbv zeta. cbn [im_itbl19 im_itbl20].
    destruct Hidx as [Hidx|Hidx]; rewrite Hidx.
    + change (0 =? 0) with true. cbv iota. specialize (Hfirst Hidx).
      destruct (inode_slot_written (v_itbl19 v) (i mod INODES_PER_BLOCK) now H19 Hslot)
        as (W1 & W2 & W3 & W4 & W5 & W6). cbv zeta in *.
      set (t0 := set_bytes (v_itbl19 v) _ (new_inode_bytes now)) in *.
      assert (length t0 = 4096%nat) as Ht0.
      { subst t0. rewrite length_set_bytes; [done|unfold inode_off, INODE_SIZE; lia|].
        rewrite length_new_inode_bytes, H19.
        unfold inode_off, INODE_SIZE, BLOCK_SIZE. lia. }
      set (t1 := set_bytes t0 (inode_off 0 + 4) _).
      assert (length t1 = 4096%nat) as Ht1.
      { subst t1. rewrite length_set_bytes; [done|by vm_compute|].
        rewrite length_le_split, Ht0. change (inode_off 0 + 4) with 4. lia. }
      unfold inode_type, inode_size, inode_direct0, inode_mtime in *.
      change (inode_off 0 + 44) with 44.
      rewrite get_u16_set_bytes_other, get_u16_set_bytes_other,
        !get_u32_set_bytes_other
        by (rewrite ?length_le_split, ?Ht1; unfold inode_off, INODE_SIZE; lia).
      subst t1. change (inode_off 0 + 4) with 4.
      rewrite get_u16_set_bytes_other, get_u16_set_bytes_other,
        !get_u32_set_bytes_other
        by (rewrite ?length_le_split, ?Ht0; unfold inode_off, INODE_SIZE; lia).
      done.
    + change (1 =? 0) with false. cbv iota.
      apply (inode_slot_written (v_itbl20 v) (i mod INODES_PER_BLOCK) now H20 Hslot).
  - rewrite Mt, Md, Ms, Mm. by rewrite Htype, <- Hroot.
  - unfold mutate_images. cbv zeta. cbn [im_inode_bm].
    apply bitmap_test_set_same; [lia|]. rewrite Hbm. unfold BLOCK_SIZE.
    Z.div_mod_to_equations. lia.
  - done.
Qed.

(** ** When create succeeds *)

Lemma length_encode_data_records (txn : list logged_image) :
  Forall (λ p, record_wf (data_record p)) txn →
  Z.of_nat (length (encode_records (transaction_records txn)))
  = 4104 * Z.of_nat (length txn) + 4.
Proof.
  intros Hwf. unfold transaction_records.
  rewrite length_encode_records_app, length_app, Nat2Z.inj_add.
  cbn [encode_records encode_record]. rewrite app_nil_r, length_encode_rec_header.
  induction txn as [|p txn IH]; [done|].
  apply Forall_cons in Hwf as [Hp Hwf].
  cbn [map encode_records length]. rewrite length_app, Nat2Z.inj_add.
  rewrite (length_encode_record _ Hp). cbn [data_record record_size].
  specialize (IH Hwf). lia.
Qed.

(** X15.  The capacity test of [create] decides alone whether the
    transaction is logged.  Once the name, the root directory, the inode
    allocation and the directory tests have passed, [create] exits with
    "journal full" exactly when the three or four DATA records and the
    COMMIT do not fit below 65536 bytes; otherwise every append succeeds
    and the header advances by exactly the size the test computed, so no
    part of a transaction is ever logged without the rest. *)
Theorem create_capacity_test_is_exact (name : list byte) (now : Z) (d : disk)
    (v : view) :
  name_ok name = true → create_view d = Ok v →
  let i := find_free_inode (v_inode_bm v) in
  let used := nbytes_used (v_jh v) in
  let txn_bytes := (if i / INODES_PER_BLOCK =? 1 then 4 else 3) * 4104 + 4 in
  i ≠ u32 (-1) →
  inode_type (if i / INODES_PER_BLOCK =? 0 then v_itbl19 v else v_itbl20 v)
             (i mod INODES_PER_BLOCK) = 0 →
  used_entries_of (v_itbl19 v) < NENTS →
  name_exists (v_root_dir_img v) (used_entries_of (v_itbl19 v)) name = false →
  if used + txn_bytes >? 65536
  then cmd_create name now d = Exit JournalFull
  else ∃ d', cmd_create name now d = Ok d'
             ∧ journal_read_header d'
               = {| magic := JOURNAL_MAGIC; nbytes_used := used + txn_bytes |}.
Proof.
  intros Hname Hview. cbv zeta. intros Hfree Hslot Hdir Hnew.
  destruct (create_view_spec d v Hview) as (Hwf & _ & _).
  pose proof Hwf as (Hok & Hread & _).
  apply journal_header_ok_bounds in Hok as [Hmagic Hused].
  rewrite (cmd_create_unfold name now d v Hname Hview), create_txn_unfold. cbv zeta.
  destruct (find_free_inode_range (v_inode_bm v)) as [Hnone|[Hrange Hidx]]; [done|].
  set (i := find_free_inode (v_inode_bm v)) in *.
  destruct (i =? u32 (-1)) eqn:Hsent; [by apply Z.eqb_eq in Hsent|].
  assert ((i / INODES_PER_BLOCK >=? INODE_TABLE_BLKS) = false) as ->.
  { change INODE_TABLE_BLKS with 2. destruct Hidx as [-> | ->]; done. }
  rewrite Hslot. change (negb (0 =? 0)) with false. cbv iota.
  destruct (used_entries_of (v_itbl19 v) >=? NENTS) eqn:Hfull; [lia|].
  rewrite Hnew.
  destruct (create_transaction_wf name now v Hwf) as [Htxn Hlen];
    [lia|by change NENTS with 128 in Hdir|].
  fold i in Hlen. change INODES_PER_BLOCK with 32 in *.
  pose proof (length_encode_data_records _ Htxn) as Hbytes. rewrite Hlen in Hbytes.
  set (nmods := 3 + (if i / 32 =? 1 then 1 else 0)).
  assert ((if i / 32 =? 1 then 4 else 3) = nmods) as Hn
    by (subst nmods; destruct (i / 32 =? 1); done).
  rewrite Hn.
  assert (3 ≤ nmods ≤ 4) as Hnmods by (subst nmods; destruct (i / 32 =? 1); lia).
  change (u32 DATA_REC_SIZE) with 4104. change SIZEOF_REC_HEADER with 4.
  rewrite (u32_small (nmods * 4104)) by lia.
  rewrite (u32_small (nmods * 4104 + 4)) by lia.
  rewrite (u32_small (nbytes_used (v_jh v) + (nmods * 4104 + 4))) by lia.
  rewrite journal_capacity_bytes_eq.
  destruct (nbytes_used (v_jh v) + (nmods * 4104 + 4) >? 65536) eqn:Hcap; [done|].
  assert (Z.of_nat (length (encode_records
            (transaction_records (create_transaction name now v))))
          = nmods * 4104 + 4) as Hbytes'.
  { rewrite Hbytes. subst nmods. destruct (i / 32 =? 1); lia. }
  assert (Forall record_wf (transaction_records (create_transaction name now v))) as Hrecs.
  { unfold transaction_records. apply Forall_app. split.
    - by apply Forall_fmap.
    - by repeat constructor. }
  destruct (journal_append_records_spec _ (v_disk v) (v_jh v) Hrecs)
    as (d1 & jh1 & -> & Ha);
    [by rewrite Hmagic|lia|done|rewrite Hbytes', journal_capacity_bytes_eq; lia|].
  exists d1. split; [done|].
  destruct Ha as (Hm & Hu & Hh & _). rewrite Hh.
  destruct jh1 as [m u]. cbn [magic nbytes_used] in *. rewrite Hbytes' in Hu. congruence.
Qed.

(** ** The command line *)

Lemma cmd_create_frame (name : list byte) (now : Z) (d d' : disk) :
  cmd_create name now d = Ok d' → ∀ x, ¬ in_journal x → d' x = d x.
Proof.
  intros Hrun x Hx.
  destruct (cmd_create_ok name now d d' Hrun) as (v & Hview & _).
  destruct (cmd_create_journal name now d d' v Hrun Hview) as (_ & _ & _ & Hframe & _).
  destruct (create_view_spec d v Hview) as (_ & Hvd & _).
  destruct (journal_init_if_needed_spec d) as (_ & _ & Hinit & _).
  rewrite (Hframe x Hx), Hvd. by apply Hinit.
Qed.

(** X16.  [main] returns 0 or 1.  When it returns 1 (too few arguments,
    [create] without exactly one name, or an unknown command) the image is
    untouched.  Whatever it returns, unless the command is [install] no
    byte outside the journal region has changed; and when it returns 0 the
    journal it leaves is closed, provided the journal it found was closed
    or had no valid header. *)
Theorem main_touches_live_blocks_only_on_install (argv : list (list byte)) (now : Z)
    (d d' : disk) (status : Z) :
  main argv now d = Ok (status, d') →
  (status = 0 ∨ status = 1)
  ∧ (status = 1 → d' = d)
  ∧ (strcmp_eq (nth 1 argv []) str_install = false →
     ∀ x, ¬ in_journal x → d' x = d x)
  ∧ (status = 0 →
     (journal_header_ok (journal_read_header d) = true → journal_closed d) →
     journal_closed d').
Proof.
  unfold main. intros Hmain.
  destruct argv as [|prog [|cmd args]].
  { injection Hmain as <- <-. split; [by right|]. repeat split; done. }
  { injection Hmain as <- <-. split; [by right|]. repeat split; done. }
  cbn [nth].
  destruct (strcmp_eq cmd str_create) eqn:Hcreate.
  - destruct args as [|name [|more args]].
    + injection Hmain as <- <-. split; [by right|]. repeat split; done.
    + destruct (cmd_create name now d) as [d1| |] eqn:Hrun; [|discriminate Hmain..].
      injection Hmain as <- <-. split; [by left|]. split; [lia|]. split.
      * intros _. by apply (cmd_create_frame name now d d1).
      * intros _ Hinv.
        destruct (cmd_create_ok name now d d1 Hrun) as (v & Hview & _).
        pose proof (create_view_closed d v Hview Hinv) as Hclosed.
        by destruct (cmd_create_closed name now d d1 v Hrun Hview Hclosed).
    + injection Hmain as <- <-. split; [by right|]. repeat split; done.
  - destruct (strcmp_eq cmd str_install) eqn:Hinstall.
    + destruct (cmd_install d) as [[d1 n]| |] eqn:Hrun; [|discriminate Hmain..].
      injection Hmain as <- <-. cbn [fst]. split; [by left|]. split; [lia|].
      split; [done|]. intros _ _.
      rewrite cmd_install_unfold in Hrun. cbv zeta in Hrun.
      destruct (journal_header_ok (journal_read_header d)); [|discriminate Hrun].
      destruct (install_loop _ _ _) as [st| |]; [|discriminate Hrun..].
      injection Hrun as <- _. apply journal_closed_fresh.
      apply journal_read_write_header; rewrite fresh_header_eq; by vm_compute.
    + injection Hmain as <- <-. split; [by right|]. repeat split; done.
Qed.

(** ** The latest array of the overlay scan *)

Lemma logged_image_upsert_keeps (arr arr' : list logged_image) (max bno : Z)
    (img : list byte) :
  logged_image_upsert arr max bno img = Some arr' →
  (length arr' ≤ S (length arr))%nat
  ∧ (NoDup (block_no <$> arr) → NoDup (block_no <$> arr')).
Proof.
  unfold logged_image_upsert.
  destruct (upsert_existing arr bno img) as [arr1|] eqn:Hex.
  - intros [= <-]. pose proof (upsert_existing_block_nos _ _ _ _ Hex) as Hnos.
    destruct (upsert_existing_Some _ _ _ _ Hex) as [Hlen _].
    split; [lia|]. by rewrite Hnos.
  - destruct (Z.of_nat (length arr) >=? max); [done|]. intros [= <-].
    split; [rewrite length_app; cbn [length]; lia|].
    intros Hnd. rewrite fmap_app. apply NoDup_app. split; [done|].
    split; [|apply NoDup_singleton].
    intros b Hb Hb'. apply list_elem_of_singleton in Hb'. subst b.
    apply upsert_existing_None in Hex. by apply logged_image_find_None in Hex.
Qed.

Lemma upsert_pending_keeps (pending latest : list logged_image) (max : Z) :
  (length (upsert_pending pending latest max) ≤ length latest + length pending)%nat
  ∧ (NoDup (block_no <$> latest) →
     NoDup (block_no <$> upsert_pending pending latest max)).
Proof.
  revert latest. induction pending as [|p pending IH]; intros latest;
    cbn [upsert_pending length].
  { split; [lia|done]. }
  destruct (logged_image_upsert latest max (block_no p) (image p)) as [latest'|] eqn:Hup.
  - destruct (logged_image_upsert_keeps _ _ _ _ _ Hup) as [Hlen Hnd].
    destruct (IH latest') as [Hlen' Hnd']. split; [lia|]. intros H. by apply Hnd', Hnd.
  - split; [lia|done].
Qed.

Lemma overlay_of_records_keeps (recs : list record) (pending latest : list logged_image)
    (max : Z) :
  (Z.of_nat (length (overlay_of_records recs pending latest max))
   ≤ Z.of_nat (length latest) + Z.of_nat (length pending) + data_count recs)
  ∧ (NoDup (block_no <$> latest) →
     NoDup (block_no <$> overlay_of_records recs pending latest max)).
Proof.
  revert pending latest. induction recs as [|[bno img|] recs IH]; intros pending latest;
    cbn [overlay_of_records data_count].
  - pose proof (Nat2Z.is_nonneg (length pending)). split; [lia|done].
  - destruct (IH (pending ++ [ {| block_no := bno; image := img |} ]) latest)
      as [Hlen Hnd].
    rewrite length_app in Hlen. cbn [length] in Hlen. split; [lia|done].
  - destruct (IH [] (upsert_pending pending latest max)) as [Hlen Hnd].
    destruct (upsert_pending_keeps pending latest max) as [Hlen' Hnd'].
    cbn [length] in Hlen. split; [lia|]. intros H. by apply Hnd, Hnd'.
Qed.

(** X17.  The array the overlay scan returns for a valid header never
    names a block twice and never holds more than 15 entries, whatever
    [latest_max] the caller passes: a block already present is overwritten
    in place, and 16 DATA records do not fit in the record area. *)
Theorem overlay_array_is_a_small_map (d : disk) (jh : journal_header)
    (latest_max : Z) :
  journal_header_ok jh = true →
  ∃ latest,
    journal_collect_latest_committed (scan_fuel jh) d jh latest_max = Ok latest
    ∧ NoDup (block_no <$> latest)
    ∧ (length latest ≤ 15)%nat.
Proof.
  intros Hok. rewrite collect_as_records by done. eexists. split; [done|].
  pose proof (journal_header_ok_bounds jh Hok) as [_ Hused].
  destruct (overlay_of_records_keeps (journal_records d (nbytes_used jh)) [] [] latest_max)
    as [Hlen Hnd].
  split; [apply Hnd; constructor|].
  pose proof (records_from_data_bound (Z.to_nat (nbytes_used jh)) d (nbytes_used jh) 8)
    as Hdata.
  unfold journal_records in *. cbn [length] in Hlen. specialize (Hdata ltac:(lia)). lia.
Qed.

(** ** Records appended and scanned *)

(** X18.  A record appended is the record scanned.  On a valid header with
    room for it, [journal_append_data] advances the header by 4104 bytes,
    and an iteration of either scan placed at the old end of the record
    area then reads the same block number and image into its pending
    array; [journal_append_commit] advances the header by 4 bytes, and the
    iteration then commits: the overlay scan upserts its pending entries
    and [install] writes them to their blocks and counts one commit. *)
Theorem appended_record_is_scanned (d : disk) (jh : journal_header) :
  journal_header_ok jh = true →
  (∀ bno img,
     0 ≤ bno < 2 ^ 32 → length img = Z.to_nat BLOCK_SIZE →
     nbytes_used jh + 4104 ≤ 65536 →
     ∃ d' jh',
       journal_append_data d jh bno img = Ok (d', jh')
       ∧ nbytes_used jh' = nbytes_used jh + 4104
       ∧ (∀ latest_max pending latest,
            Z.of_nat (length pending) < OVERLAY_PENDING_MAX →
            collect_step d' (nbytes_used jh') latest_max
              {| cs_pos := nbytes_used jh; cs_pending := pending; cs_latest := latest |}
            = Next {| cs_pos := nbytes_used jh + 4104;
                      cs_pending := pending ++ [ {| block_no := bno; image := img |} ];
                      cs_latest := latest |})
       ∧ (∀ pending commits,
            Z.of_nat (length pending) < INSTALL_PENDING_MAX →
            install_step (nbytes_used jh')
              {| is_disk := d'; is_pos := nbytes_used jh; is_pending := pending;
                 is_commits := commits |}
            = Next {| is_disk := d'; is_pos := nbytes_used jh + 4104;
                      is_pending := pending ++ [ {| block_no := bno; image := img |} ];
                      is_commits := commits |}))
  ∧ (nbytes_used jh + 4 ≤ 65536 →
     ∃ d' jh',
       journal_append_commit d jh = Ok (d', jh')
       ∧ nbytes_used jh' = nbytes_used jh + 4
       ∧ (∀ latest_max pending latest,
            collect_step d' (nbytes_used jh') latest_max
              {| cs_pos := nbytes_used jh; cs_pending := pending; cs_latest := latest |}
            = Next {| cs_pos := nbytes_used jh + 4;
                      cs_pending := [];
                      cs_latest := upsert_pending pending latest latest_max |})
       ∧ (∀ pending commits,
            install_step (nbytes_used jh')
              {| is_disk := d'; is_pos := nbytes_used jh; is_pending := pending;
                 is_commits := commits |}
            = Next {| is_disk := write_pending d' pending;
                      is_pos := nbytes_used jh + 4;
                      is_pending := [];
                      is_commits := commits + 1 |})).
Proof.
  intros Hok. pose proof (journal_header_ok_bounds jh Hok) as [Hmagic Hused].
  assert (0 ≤ magic jh < 2 ^ 32) as Hm by (rewrite Hmagic; by vm_compute).
  split.
  - intros bno img Hbno Himg Hroom.
    destruct (journal_append_data_spec d jh bno img Hm) as (d' & jh' & Hrun & Happ);
      [lia|done|rewrite journal_capacity_bytes_eq; lia|].
    destruct Happ as (_ & Hu & _ & Hb & _).
    assert (record_wf (DATA bno img)) as Hwf by done.
    rewrite (length_encode_record _ Hwf) in Hu, Hb. cbn [record_size] in Hu, Hb.
    assert (record_at d' (nbytes_used jh') (nbytes_used jh) = Some (DATA bno img)) as Hrec.
    { apply record_at_encoded; [done|lia|cbn [record_size]; lia|done]. }
    exists d', jh'. split; [done|]. split; [done|]. split.
    + intros latest_max pending latest Hp.
      rewrite collect_step_record_at; cbn [cs_pos cs_pending cs_latest];
        [|lia|rewrite journal_capacity_bytes_eq; lia].
      rewrite Hrec. destruct (_ >=? OVERLAY_PENDING_MAX) eqn:Hfull; [lia|done].
    + intros pending commits Hp.
      rewrite install_step_record_at; cbn [is_disk is_pos is_pending is_commits];
        [|lia|rewrite journal_capacity_bytes_eq; lia].
      rewrite Hrec. destruct (_ >=? INSTALL_PENDING_MAX) eqn:Hfull; [lia|done].
  - intros Hroom.
    destruct (journal_append_commit_spec d jh Hm) as (d' & jh' & Hrun & Happ);
      [lia|rewrite journal_capacity_bytes_eq; lia|].
    destruct Happ as (_ & Hu & _ & Hb & _).
    assert (record_wf COMMIT) as Hwf by done.
    rewrite (length_encode_record _ Hwf) in Hu, Hb. cbn [record_size] in Hu, Hb.
    assert (record_at d' (nbytes_used jh') (nbytes_used jh) = Some COMMIT) as Hrec.
    { apply record_at_encoded; [done|lia|cbn [record_size]; lia|done]. }
    exists d', jh'. split; [done|]. split; [done|]. split.
    + intros latest_max pending latest.
      rewrite collect_step_record_at; cbn [cs_pos cs_pending cs_latest];
        [|lia|rewrite journal_capacity_bytes_eq; lia].
      by rewrite Hrec.
    + intros pending commits.
      rewrite install_step_record_at; cbn [is_disk is_pos is_pending is_commits];
        [|lia|rewrite journal_capacity_bytes_eq; lia].
      by rewrite Hrec.
Qed.

(** ** Block I/O and the journal region *)

(** X19.  A block written by [write_block] is the block [read_block]
    reads back, and every other block reads as before. *)
Theorem write_block_then_read (d : disk) (bno bno' : Z) (img : list byte) :
  length img = Z.to_nat BLOCK_SIZE →
  read_block (write_block d bno img) bno'
  = if bno' =? bno then img else read_block d bno'.
Proof.
  intros Hlen. destruct (bno' =? bno) eqn:Hb.
  - apply Z.eqb_eq in Hb. subst bno'. by apply read_write_block_same.
  - apply Z.eqb_neq in Hb. apply read_write_block_other; [done|congruence].
Qed.

(** X20.  [journal_clear_region] zeroes every byte of blocks 1..16 and
    changes no other byte of the image. *)
Theorem journal_clear_region_zeroes_journal_only (d : disk) (x : Z) :
  (in_journal x → journal_clear_region d x = Byte.x00)
  ∧ (¬ in_journal x → journal_clear_region d x = d x).
Proof.
  split; [apply journal_clear_region_inside|apply journal_clear_region_outside].
Qed.

(** ** The root inode tests of create *)

(** X21.  [create] tests the root inode on the image before it consults
    the journal.  With a usable name, when inode 0 of block 19 on the image
    is not a directory [create] exits with "root inode not a directory",
    and when it is one without a first data block [create] exits with
    "root directory has no data block", whatever images the journal holds
    for block 19.  When both tests pass, the same two tests on the
    committed view of block 19 decide. *)
Theorem create_tests_live_root_first (name : list byte) (now : Z) (d : disk) :
  name_ok name = true →
  let live19 := read_block d (INODE_TABLE_BLK + 0) in
  let d1 := fst (journal_init_if_needed d) in
  let jh := snd (journal_init_if_needed d) in
  let itbl19 :=
    committed_block d1 (committed_transactions (journal_records d1 (nbytes_used jh)))
                    (INODE_TABLE_BLK + 0) in
  (inode_type live19 0 ≠ 2 → cmd_create name now d = Exit RootNotDir)
  ∧ (inode_type live19 0 = 2 → inode_direct0 live19 0 = 0 →
     cmd_create name now d = Exit RootNoBlock)
  ∧ (inode_type live19 0 = 2 → inode_direct0 live19 0 ≠ 0 →
     (inode_type itbl19 0 ≠ 2 → cmd_create name now d = Exit RootNotDir)
     ∧ (inode_type itbl19 0 = 2 → inode_direct0 itbl19 0 = 0 →
        cmd_create name now d = Exit RootNoBlock)
     ∧ (inode_type itbl19 0 = 2 → inode_direct0 itbl19 0 ≠ 0 →
        ∃ v, create_view d = Ok v ∧ v_itbl19 v = itbl19
             ∧ cmd_create name now d = create_txn name now v)).
Proof.
  intros Hname. cbv zeta.
  assert (cmd_create name now d = v ← create_view d; create_txn name now v) as ->.
  { unfold cmd_create. unfold name_ok in Hname.
    apply andb_true_iff in Hname as [H1 H2]. apply negb_true_iff in H1, H2.
    by rewrite H1, H2. }
  destruct (journal_init_if_needed_spec d) as (_ & _ & Hframe & _).
  destruct metadata_blocks_live as (_ & L19 & _).
  rewrite create_view_eq. cbv zeta.
  rewrite (read_block_live d _ _ Hframe L19).
  split; [|split].
  - intros Ht. apply Z.eqb_neq in Ht. by rewrite Ht.
  - intros Ht Hd. by rewrite Ht, Hd.
  - intros Ht Hd. rewrite Ht. apply Z.eqb_neq in Hd. rewrite Hd.
    change (negb (2 =? 2)) with false. cbv iota.
    split; [|split].
    + intros Ht'. apply Z.eqb_neq in Ht'. by rewrite Ht'.
    + intros Ht' Hd'. by rewrite Ht', Hd'.
    + intros Ht' Hd'. rewrite Ht'. apply Z.eqb_neq in Hd'. rewrite Hd'.
      change (negb (2 =? 2)) with false. cbv iota.
      eexists. split; [reflexivity|]. split; reflexivity.
Qed.

Lemma create_tests_live_root_first_witness :
  cmd_create name_a 1000 (fun _ => Byte.x00) = Exit RootNotDir.
Proof.
  destruct (create_tests_live_root_first name_a 1000 (fun _ => Byte.x00) eq_refl)
    as [Hlive _].
  apply Hlive. vm_compute. discriminate.
Defined.

(** * The further properties at concrete images *)

Lemma write_block_then_read_witness :
  read_block (write_block (fun _ => Byte.x00) 21 (replicate 4096 Byte.xff)) 21
  = replicate 4096 Byte.xff.
Proof.
  apply (write_block_then_read (fun _ => Byte.x00) 21 21 (replicate 4096 Byte.xff)).
  reflexivity.
Defined.

Lemma journal_clear_region_zeroes_journal_only_witness :
  journal_clear_region (fun _ => Byte.xff) 4096 = Byte.x00
  ∧ journal_clear_region (fun _ => Byte.xff) 69632 = Byte.xff.
Proof.
  split.
  - apply (journal_clear_region_zeroes_journal_only (fun _ => Byte.xff) 4096).
    rewrite in_journal_iff. lia.
  - apply (journal_clear_region_zeroes_journal_only (fun _ => Byte.xff) 69632).
    rewrite in_journal_iff. lia.
Defined.

Lemma create_sees_installed_image_witness :
  ∃ v d' commits,
    create_view image_with_a = Ok v
    ∧ cmd_install (v_disk v) = Ok (d', commits)
    ∧ read_block d' INODE_BMAP_BLK = v_inode_bm v
    ∧ read_block d' (INODE_TABLE_BLK + 0) = v_itbl19 v.
Proof.
  assert (match create_view image_with_a with
          | Ok v => all_live (committed_transactions
                                (journal_records (v_disk v) (nbytes_used (v_jh v))))
          | _ => false
          end = true) as Hlive by (vm_compute; reflexivity).
  destruct (create_view image_with_a) as [v| |] eqn:Hv; [|discriminate Hlive..].
  destruct (create_sees_installed_image image_with_a v Hv (all_live_spec _ Hlive))
    as (d' & commits & Hrun & H17 & H19 & _).
  exists v, d', commits. split; [reflexivity|]. split; [exact Hrun|].
  split; [exact H17|exact H19].
Defined.

Lemma commands_keep_journal_closed_witness :
  ∃ d', cmd_create name_a 1000 (fresh_image 64) = Ok d' ∧ journal_closed d'.
Proof.
  assert (is_ok (cmd_create name_a 1000 (fresh_image 64)) = true) as Hok
    by (vm_compute; reflexivity).
  destruct (cmd_create name_a 1000 (fresh_image 64)) as [d'| |] eqn:Hrun;
    [|discriminate Hok..].
  exists d'. split; [reflexivity|].
  destruct commands_keep_journal_closed as [_ Hcreate].
  apply (Hcreate name_a 1000 (fresh_image 64) d' Hrun).
  intros Hbad. vm_compute in Hbad. discriminate Hbad.
Defined.

Lemma create_reads_back_its_writes_witness :
  ∃ v d',
    create_view (fresh_image 64) = Ok v
    ∧ cmd_create name_a 1000 (fresh_image 64) = Ok d'
    ∧ let i := find_free_inode (v_inode_bm v) in
      let im := mutate_images name_a 1000 v i (i / INODES_PER_BLOCK)
                              (i mod INODES_PER_BLOCK) (used_entries_of (v_itbl19 v)) in
      create_view d'
      = Ok {| v_disk := d';
              v_jh := journal_read_header d';
              v_inode_bm := im_inode_bm im;
              v_itbl19 := im_itbl19 im;
              v_itbl20 := im_itbl20 im;
              v_root_dir_block_no := v_root_dir_block_no v;
              v_root_dir_img := im_root_dir_img im |}.
Proof.
  assert (match create_view (fresh_image 64) with
          | Ok v => v_root_dir_block_no v =? 21
          | _ => false
          end = true) as Hroot by (vm_compute; reflexivity).
  assert (is_ok (cmd_create name_a 1000 (fresh_image 64)) = true) as Hok
    by (vm_compute; reflexivity).
  destruct (create_view (fresh_image 64)) as [v| |] eqn:Hv; [|discriminate Hroot..].
  destruct (cmd_create name_a 1000 (fresh_image 64)) as [d'| |] eqn:Hrun;
    [|discriminate Hok..].
  apply Z.eqb_eq in Hroot.
  exists v, d'. split; [reflexivity|]. split; [reflexivity|].
  apply (create_reads_back_its_writes name_a 1000 (fresh_image 64) d' v Hrun Hv).
  - intros Hbad. vm_compute in Hbad. discriminate Hbad.
  - rewrite Hroot. vm_compute. discriminate.
  - rewrite Hroot. vm_compute. discriminate.
  - rewrite Hroot. vm_compute. discriminate.
Defined.

Lemma create_same_name_twice_witness :
  ∃ d', cmd_create name_a 1000 (fresh_image 64) = Ok d'
        ∧ cmd_create name_a 1001 d' = Exit FileExists.
Proof.
  assert (match create_view (fresh_image 64) with
          | Ok v =>
              let i := find_free_inode (v_inode_bm v) in
              let im := mutate_images name_a 1000 v i (i / INODES_PER_BLOCK)
                          (i mod INODES_PER_BLOCK) (used_entries_of (v_itbl19 v)) in
              let j := find_free_inode (im_inode_bm im) in
              (v_root_dir_block_no v =? 21)
              && (64 <=? inode_size (v_itbl19 v) 0)
              && negb (j =? u32 (-1))
              && (inode_type (if j / INODES_PER_BLOCK =? 0
                              then im_itbl19 im else im_itbl20 im)
                             (j mod INODES_PER_BLOCK) =? 0)
              && (used_entries_of (im_itbl19 im) <? NENTS)
          | _ => false
          end = true) as Hfacts by (vm_compute; reflexivity).
  assert (is_ok (cmd_create name_a 1000 (fresh_image 64)) = true) as Hok
    by (vm_compute; reflexivity).
  destruct (create_view (fresh_image 64)) as [v| |] eqn:Hv; [|discriminate Hfacts..].
  destruct (cmd_create name_a 1000 (fresh_image 64)) as [d'| |] eqn:Hrun;
    [|discriminate Hok..].
  cbv zeta in Hfacts.
  apply andb_true_iff in Hfacts as [Hfacts Hdir].
  apply andb_true_iff in Hfacts as [Hfacts Hslot].
  apply andb_true_iff in Hfacts as [Hfacts Hfree].
  apply andb_true_iff in Hfacts as [Hroot Hsize].
  apply Z.eqb_eq in Hroot, Hslot. apply Z.leb_le in Hsize. apply Z.ltb_lt in Hdir.
  apply negb_true_iff, Z.eqb_neq in Hfree.
  exists d'. split; [reflexivity|].
  destruct (create_same_name_twice name_a 1000 1001 (fresh_image 64) d' v Hrun Hv)
    as (_ & _ & Hexists).
  - intros Hbad. vm_compute in Hbad. discriminate Hbad.
  - rewrite Hroot. vm_compute. discriminate.
  - rewrite Hroot. vm_compute. discriminate.
  - rewrite Hroot. vm_compute. discriminate.
  - exact Hsize.
  - exact (Hexists Hfree Hslot Hdir).
Defined.

Lemma create_then_install_witness :
  ∃ v d' d'',
    create_view (fresh_image 64) = Ok v
    ∧ cmd_create name_a 1000 (fresh_image 64) = Ok d'
    ∧ cmd_install d'
      = Ok (d'', Z.of_nat (length (committed_transactions
                                     (journal_records (v_disk v)
                                        (nbytes_used (v_jh v))))) + 1)
    ∧ read_block d'' INODE_BMAP_BLK
      = bitmap_set (v_inode_bm v) (find_free_inode (v_inode_bm v)).
Proof.
  assert (match create_view (fresh_image 64) with
          | Ok v =>
              (v_root_dir_block_no v =? 21)
              && all_live (committed_transactions
                             (journal_records (v_disk v) (nbytes_used (v_jh v))))
          | _ => false
          end = true) as Hfacts by (vm_compute; reflexivity).
  assert (is_ok (cmd_create name_a 1000 (fresh_image 64)) = true) as Hok
    by (vm_compute; reflexivity).
  destruct (create_view (fresh_image 64)) as [v| |] eqn:Hv; [|discriminate Hfacts..].
  destruct (cmd_create name_a 1000 (fresh_image 64)) as [d'| |] eqn:Hrun;
    [|discriminate Hok..].
  apply andb_true_iff in Hfacts as [Hroot Hlive]. apply Z.eqb_eq in Hroot.
  destruct (create_then_install name_a 1000 (fresh_image 64) d' v Hrun Hv)
    as (d'' & Hinst & _ & H17 & _).
  - intros Hbad. vm_compute in Hbad. discriminate Hbad.
  - rewrite Hroot. vm_compute. discriminate.
  - rewrite Hroot. vm_compute. discriminate.
  - rewrite Hroot. vm_compute. discriminate.
  - rewrite Hroot. right. vm_compute. discriminate.
  - exact (all_live_spec _ Hlive).
  - exists v, d', d''. split; [reflexivity|]. split; [reflexivity|].
    split; [exact Hinst|exact H17].
Defined.

Lemma create_logs_new_inode_witness :
  ∃ v d',
    create_view (fresh_image 64) = Ok v
    ∧ cmd_create name_a 1000 (fresh_image 64) = Ok d'
    ∧ let i := find_free_inode (v_inode_bm v) in
      let im := mutate_images name_a 1000 v i (i / INODES_PER_BLOCK)
                              (i mod INODES_PER_BLOCK) (used_entries_of (v_itbl19 v)) in
      let logged :=
        encode_records
          ([ DATA INODE_BMAP_BLK (im_inode_bm im);
             DATA (INODE_TABLE_BLK + 0) (im_itbl19 im) ]
           ++ (if i / INODES_PER_BLOCK =? 1
               then [ DATA (INODE_TABLE_BLK + 1) (im_itbl20 im) ]
               else [])
           ++ [ DATA (v_root_dir_block_no v) (im_root_dir_img im); COMMIT ]) in
      pread d' (Z.of_nat (length logged)) (journal_base_off + nbytes_used (v_jh v))
      = logged
      ∧ bitmap_test (im_inode_bm im) i = 1
      ∧ dirent_inode (im_root_dir_img im) (used_entries_of (v_itbl19 v)) = i.
Proof.
  assert (is_ok (create_view (fresh_image 64)) = true) as Hokv
    by (vm_compute; reflexivity).
  assert (is_ok (cmd_create name_a 1000 (fresh_image 64)) = true) as Hok
    by (vm_compute; reflexivity).
  destruct (create_view (fresh_image 64)) as [v| |] eqn:Hv; [|discriminate Hokv..].
  destruct (cmd_create name_a 1000 (fresh_image 64)) as [d'| |] eqn:Hrun;
    [|discriminate Hok..].
  exists v, d'. split; [reflexivity|]. split; [reflexivity|].
  destruct (create_logs_new_inode name_a 1000 (fresh_image 64) d' v Hrun Hv)
    as ((Hlog & _) & _ & _ & Hbit & Hent & _).
  split; [exact Hlog|]. split; [exact Hbit|exact Hent].
Defined.

Lemma create_capacity_test_is_exact_witness :
  ∃ d', cmd_create name_a 1000 (fresh_image 64) = Ok d'
        ∧ journal_read_header d'
          = {| magic := JOURNAL_MAGIC; nbytes_used := 8 + (3 * 4104 + 4) |}.
Proof.
  assert (match create_view (fresh_image 64) with
          | Ok v =>
              let i := find_free_inode (v_inode_bm v) in
              negb (i =? u32 (-1))
              && (inode_type (if i / INODES_PER_BLOCK =? 0
                              then v_itbl19 v else v_itbl20 v)
                             (i mod INODES_PER_BLOCK) =? 0)
              && (used_entries_of (v_itbl19 v) <? NENTS)
              && negb (name_exists (v_root_dir_img v) (used_entries_of (v_itbl19 v))
                                   name_a)
              && (nbytes_used (v_jh v) =? 8)
              && (i / INODES_PER_BLOCK =? 0)
          | _ => false
          end = true) as Hfacts by (vm_compute; reflexivity).
  destruct (create_view (fresh_image 64)) as [v| |] eqn:Hv; [|discriminate Hfacts..].
  cbv zeta in Hfacts.
  apply andb_true_iff in Hfacts as [Hfacts Hidx].
  apply andb_true_iff in Hfacts as [Hfacts Hused].
  apply andb_true_iff in Hfacts as [Hfacts Hnew].
  apply andb_true_iff in Hfacts as [Hfacts Hdir].
  apply andb_true_iff in Hfacts as [Hfree Hslot].
  apply Z.eqb_eq in Hslot, Hused, Hidx. apply Z.ltb_lt in Hdir.
  apply negb_true_iff in Hnew. apply negb_true_iff, Z.eqb_neq in Hfree.
  pose proof (create_capacity_test_is_exact name_a 1000 (fresh_image 64) v
                eq_refl Hv Hfree Hslot Hdir Hnew) as Hrun.
  cbv zeta in Hrun. rewrite Hused, Hidx in Hrun.
  exact Hrun.
Defined.

Lemma main_touches_live_blocks_only_on_install_witness :
  ∃ d', main [[]; str_create; name_a] 1000 (fresh_image 64) = Ok (0, d')
        ∧ (∀ x, ¬ in_journal x → d' x = fresh_image 64 x)
        ∧ journal_closed d'.
Proof.
  assert (match main [[]; str_create; name_a] 1000 (fresh_image 64) with
          | Ok (status, _) => status =? 0
          | _ => false
          end = true) as Hok by (vm_compute; reflexivity).
  destruct (main [[]; str_create; name_a] 1000 (fresh_image 64)) as [[status d']| |]
    eqn:Hrun; [|discriminate Hok..].
  apply Z.eqb_eq in Hok. subst status.
  destruct (main_touches_live_blocks_only_on_install _ _ _ _ _ Hrun)
    as (_ & _ & Hframe & Hclosed).
  exists d'. split; [reflexivity|]. split.
  - apply Hframe. reflexivity.
  - apply Hclosed; [reflexivity|].
    intros Hbad. vm_compute in Hbad. discriminate Hbad.
Defined.

Lemma overlay_array_is_a_small_map_witness :
  ∃ latest,
    journal_collect_latest_committed (scan_fuel (journal_read_header cut_disk))
      cut_disk (journal_read_header cut_disk) LATEST_MAX = Ok latest
    ∧ NoDup (block_no <$> latest)
    ∧ (length latest ≤ 15)%nat.
Proof.
  apply (overlay_array_is_a_small_map cut_disk (journal_read_header cut_disk) LATEST_MAX).
  vm_compute. reflexivity.
Defined.

Lemma appended_record_is_scanned_witness :
  ∃ d' jh',
    journal_append_commit (fun _ => Byte.x00) fresh_header = Ok (d', jh')
    ∧ nbytes_used jh' = nbytes_used fresh_header + 4.
Proof.
  destruct (appended_record_is_scanned (fun _ => Byte.x00) fresh_header eq_refl)
    as [_ Hcommit].
  destruct Hcommit as (d' & jh' & Hrun & Hused & _).
  - vm_compute. discriminate.
  - exists d', jh'. split; [exact Hrun|exact Hused].
Defined.
